(** * agents-mcp: the process orchestration core of [dist/agents.js] and the
    status query of [dist/cli.js], embedded as Rocq functions; with them the
    arguments and summaries of the command line, the completion monitor of
    the server, the path checks of [dist/ralph.js] and the configuration
    file of [persistence.js].

    Conventions of the embedding.
    - A JavaScript string is a [string] of bytes (its UTF-8 encoding).  The
      code compares characters only against ASCII characters, so the byte
      view and the UTF-16 view agree on everything modelled here.
    - A [Date] is its epoch time in milliseconds, a [Z].
    - [null] and [undefined] are [None].
    - An exception is a value of [Error]; [Command.message] gives the text
      the code puts into it.
    - An [async] function runs to its end without interleaving.
    - Built-ins of the JavaScript runtime and the event normaliser of
      [parsers.js] (not part of the source tree) are the methods of the
      class [Runtime]. *)

From Stdlib Require Import ZArith String Ascii List Lia Bool DecimalString.
From stdpp Require Import base gmap strings list.
Import ListNotations.
Open Scope string_scope.
Open Scope Z_scope.

(** ** Results and errors *)

Inductive AgentType := codex | gemini | cursor | claude | opencode | copilot.

Definition AgentType_name (t : AgentType) : string :=
  match t with
  | codex => "codex" | gemini => "gemini" | cursor => "cursor"
  | claude => "claude" | opencode => "opencode" | copilot => "copilot"
  end.

Inductive Error :=
| UnterminatedQuote (cmdStr : string)
| MissingPromptPlaceholder (agentType : AgentType)
| ConcurrencyLimitReached (maxConcurrent : Z)
| CliNotAvailable (msg : string)
| WorkingDirectoryMissing (cwd : string)
| WorkingDirectoryNotADirectory (cwd : string)
| CreateDirectoryFailed (why : string)
| SpawnFailed (why : string)
| TypeError (what : string).

Inductive result (A : Type) := Ok (a : A) | Throw (e : Error).
Arguments Ok {A} a.
Arguments Throw {A} e.

Definition is_throw {A} (r : result A) : bool :=
  match r with Throw _ => true | Ok _ => false end.

(** ** Strings *)

Module Str.

Definition dquote : ascii := "034"%char.
Definition squote : ascii := "'"%char.
Definition backslash : ascii := "\"%char.
Definition space : ascii := " "%char.
Definition tab : ascii := "009"%char.
Definition newline : ascii := "010"%char.

(** [s += ch] *)
Definition push (s : string) (ch : ascii) : string := s +:+ String ch "".

Definition nonempty (s : string) : bool :=
  match s with EmptyString => false | String _ _ => true end.

(** [s.includes(needle)] *)
Fixpoint includes (needle s : string) : bool :=
  String.prefix needle s ||
  match s with
  | EmptyString => false
  | String _ s' => includes needle s'
  end.

(** [s.split('\n')] *)
Fixpoint split_on (sep : ascii) (s : string) : list string :=
  match s with
  | EmptyString => [""]
  | String c s' =>
      if Ascii.eqb c sep then "" :: split_on sep s'
      else match split_on sep s' with
           | w :: ws => String c w :: ws
           | [] => [String c ""]
           end
  end.

Definition len (s : string) : Z := Z.of_nat (String.length s).

(** The bytes of [s] from offset [n] on. *)
Fixpoint skip (n : Z) (s : string) : string :=
  if n <=? 0 then s
  else match s with
       | EmptyString => ""
       | String _ s' => skip (n - 1) s'
       end.

(** The first [n] bytes of [s]. *)
Fixpoint take (n : Z) (s : string) : string :=
  if n <=? 0 then ""
  else match s with
       | EmptyString => ""
       | String c s' => String c (take (n - 1) s')
       end.

End Str.

(** ** splitCommandTemplate *)

Module Template.
Import Str.

(** The [for] loop of [splitCommandTemplate], one character per call; the
    arguments are the loop's variables.  In the escape case the loop
    consumes [cmdStr[i + 1]] as well ([i++]). *)
Fixpoint split_loop (cmdStr : string) (result : list string) (current : string)
         (inSingleQuote inDoubleQuote : bool)
  : list string * string * bool * bool :=
  match cmdStr with
  | EmptyString => (result, current, inSingleQuote, inDoubleQuote)
  | String ch rest =>
      if inSingleQuote then
        if Ascii.eqb ch squote
        then split_loop rest result current false inDoubleQuote
        else split_loop rest result (push current ch) inSingleQuote inDoubleQuote
      else if inDoubleQuote then
        if Ascii.eqb ch dquote
        then split_loop rest result current inSingleQuote false
        else if Ascii.eqb ch backslash then
          match rest with
          | String next rest' =>
              if Ascii.eqb next dquote || Ascii.eqb next backslash
              then split_loop rest' result (push current next) inSingleQuote inDoubleQuote
              else split_loop rest result (push current ch) inSingleQuote inDoubleQuote
          | EmptyString =>
              split_loop rest result (push current ch) inSingleQuote inDoubleQuote
          end
        else split_loop rest result (push current ch) inSingleQuote inDoubleQuote
      else
        if Ascii.eqb ch squote
        then split_loop rest result current true inDoubleQuote
        else if Ascii.eqb ch dquote
        then split_loop rest result current inSingleQuote true
        else if Ascii.eqb ch space || Ascii.eqb ch tab then
          if nonempty current
          then split_loop rest (result ++ [current])%list "" inSingleQuote inDoubleQuote
          else split_loop rest result current inSingleQuote inDoubleQuote
        else split_loop rest result (push current ch) inSingleQuote inDoubleQuote
  end.

Definition splitCommandTemplate (cmdStr : string) : result (list string) :=
  let '(result, current, inSingleQuote, inDoubleQuote) :=
    split_loop cmdStr [] "" false false in
  let result := if nonempty current then (result ++ [current])%list else result in
  if inSingleQuote || inDoubleQuote
  then Throw (UnterminatedQuote cmdStr)
  else Ok result.

(** *** What the documentation of the function says, as a definition of its
    own: first the quoting is resolved, character by character, then the
    resulting pieces are cut at the unquoted blanks. *)

Inductive quoting := Bare | Single | Double.

Inductive piece := Lit (c : ascii) | Blank.

(** Quote resolution: quote characters disappear, a single-quoted
    character is literal, inside double quotes a backslash before a double
    quote or a backslash is dropped and the next character is literal. *)
Fixpoint unquote (q : quoting) (s : string) : list piece * quoting :=
  match s with
  | EmptyString => ([], q)
  | String c s' =>
      match q with
      | Single =>
          if Ascii.eqb c squote then unquote Bare s'
          else let '(ps, q') := unquote Single s' in (Lit c :: ps, q')
      | Double =>
          if Ascii.eqb c dquote then unquote Bare s'
          else
            match s' with
            | String n s'' =>
                if Ascii.eqb c backslash && (Ascii.eqb n dquote || Ascii.eqb n backslash)
                then let '(ps, q') := unquote Double s'' in (Lit n :: ps, q')
                else let '(ps, q') := unquote Double s' in (Lit c :: ps, q')
            | EmptyString => ([Lit c], Double)
            end
      | Bare =>
          if Ascii.eqb c squote then unquote Single s'
          else if Ascii.eqb c dquote then unquote Double s'
          else if Ascii.eqb c space || Ascii.eqb c tab
          then let '(ps, q') := unquote Bare s' in (Blank :: ps, q')
          else let '(ps, q') := unquote Bare s' in (Lit c :: ps, q')
      end
  end.

(** Cutting at every blank; empty words are kept here. *)
Fixpoint cut (ps : list piece) : list string :=
  match ps with
  | [] => [""]
  | Blank :: ps' => "" :: cut ps'
  | Lit c :: ps' =>
      match cut ps' with
      | w :: ws => String c w :: ws
      | [] => [String c ""]
      end
  end.

Definition unterminated (cmdStr : string) : bool :=
  match snd (unquote Bare cmdStr) with Bare => false | _ => true end.

Definition words (cmdStr : string) : list string :=
  List.filter nonempty (cut (fst (unquote Bare cmdStr))).

(** The two flags of the loop, for a state of the quoting. *)
Definition flagS (q : quoting) : bool := match q with Single => true | _ => false end.
Definition flagD (q : quoting) : bool := match q with Double => true | _ => false end.

(** What one piece does to [result] and [current]. *)
Definition feed (acc : list string * string) (p : piece) : list string * string :=
  match p with
  | Lit ch => (fst acc, push (snd acc) ch)
  | Blank => if nonempty (snd acc) then ((fst acc ++ [snd acc])%list, "") else acc
  end.

(** [c] put in front of the first word. *)
Definition glue (c : string) (l : list string) : list string :=
  match l with
  | w :: ws => (c +:+ w) :: ws
  | [] => [c]
  end.

End Template.

(** ** JSON values *)

(** Numbers are the integers (process ids, exit codes, epoch times).
    [JIso ms] is the JSON string that holds the ISO-8601 text of the instant
    [ms], what [Date.prototype.toISOString] produces; every other string is
    a [JStr].  The keys of an object are pairwise distinct, as in a value
    [JSON.parse] returns. *)
#[warnings="-register-all"]
Inductive json :=
| JNull
| JBool (b : bool)
| JNum (n : Z)
| JStr (s : string)
| JIso (ms : Z)
| JArr (items : list json)
| JObj (fields : list (string * json)).

Module Js.

(** [!!v] *)
Definition truthy (v : json) : bool :=
  match v with
  | JNull => false
  | JBool b => b
  | JNum n => negb (n =? 0)
  | JStr s => Str.nonempty s
  | JIso _ | JArr _ | JObj _ => true
  end.

Fixpoint assoc (k : string) (fields : list (string * json)) : option json :=
  match fields with
  | [] => None
  | (k', v) :: rest => if String.eqb k k' then Some v else assoc k rest
  end.

(** [v.k] for a value [v] that is not [null]; [None] is [undefined]. *)
Definition get (v : json) (k : string) : option json :=
  match v with
  | JObj fields => assoc k fields
  | _ => None
  end.

(** [v.k || null] read as an optional value: a falsy or missing field is
    [null]. *)
Definition get_truthy (v : json) (k : string) : option json :=
  match get v k with
  | Some x => if truthy x then Some x else None
  | None => None
  end.

(** [v === s] for a string [s] that is not the text of a date. *)
Definition is_string (v : option json) (s : string) : bool :=
  match v with
  | Some (JStr t) => String.eqb t s
  | _ => false
  end.

Definition of_option_string (o : option string) : json :=
  match o with Some s => JStr s | None => JNull end.

Definition of_option_date (o : option Z) : json :=
  match o with Some ms => JIso ms | None => JNull end.

Definition of_option_number (o : option Z) : json :=
  match o with Some n => JNum n | None => JNull end.

(** [a || b] on optional values whose present values are all truthy
    ([Date] objects). *)
Definition or_else {A} (a b : option A) : option A :=
  match a with Some _ => a | None => b end.

End Js.

(** ** Enumerations *)

Inductive AgentStatus := RUNNING | COMPLETED | FAILED | STOPPED.

(** The values of the string enum. *)
Definition AgentStatus_value (s : AgentStatus) : string :=
  match s with
  | RUNNING => "running" | COMPLETED => "completed"
  | FAILED => "failed" | STOPPED => "stopped"
  end.

Inductive property := Own (s : AgentStatus) | Inherited | Missing.

(** What every object inherits from [Object.prototype]. *)
Definition Object_prototype_keys : list string :=
  ["constructor"; "__defineGetter__"; "__defineSetter__"; "hasOwnProperty";
   "__lookupGetter__"; "__lookupSetter__"; "isPrototypeOf";
   "propertyIsEnumerable"; "toString"; "valueOf"; "__proto__"; "toLocaleString"].

(** [AgentStatus[key]]: the enum object has the four upper-case keys, and
    no reverse mapping, its values being strings. *)
Definition AgentStatus_lookup (key : string) : property :=
  if String.eqb key "RUNNING" then Own RUNNING
  else if String.eqb key "COMPLETED" then Own COMPLETED
  else if String.eqb key "FAILED" then Own FAILED
  else if String.eqb key "STOPPED" then Own STOPPED
  else if existsb (String.eqb key) Object_prototype_keys then Inherited
  else Missing.

Inductive Mode := plan | edit | ralph.

Definition Mode_name (m : Mode) : string :=
  match m with plan => "plan" | edit => "edit" | ralph => "ralph" end.

Definition AgentType_of_name (s : string) : option AgentType :=
  if String.eqb s "codex" then Some codex
  else if String.eqb s "gemini" then Some gemini
  else if String.eqb s "cursor" then Some cursor
  else if String.eqb s "claude" then Some claude
  else if String.eqb s "opencode" then Some opencode
  else if String.eqb s "copilot" then Some copilot
  else None.

Definition AgentType_eqb (a b : AgentType) : bool :=
  String.eqb (AgentType_name a) (AgentType_name b).

Definition AgentStatus_eqb (a b : AgentStatus) : bool :=
  match a, b with
  | RUNNING, RUNNING | COMPLETED, COMPLETED | FAILED, FAILED | STOPPED, STOPPED => true
  | _, _ => false
  end.

(** ** Events *)

(** An event as [normalizeEvents] returns it: the two fields the process
    record looks at, and the rest. *)
Record NormalizedEvent := {
  etype : string;
  estatus : option string;
  edata : json
}.

(** An entry of the event cache: [event.timestamp] has been set. *)
Record Event := {
  event : NormalizedEvent;
  timestamp : Z
}.

(** ** The runtime *)

(** The built-ins of the host that the code calls, and [normalizeEvents] of
    [parsers.js]:
    - [JSON_parse] is [JSON.parse], [None] when it throws;
    - [trim], [toLowerCase] and [replaceAll] are the methods of
      [String.prototype], [replaceAll s pattern replacement] with a string
      pattern;
    - [basename] and [path_resolve] are [path.basename] and [path.resolve];
    - [settingsPath] is [path.join(os.homedir(), '.claude', 'settings.json')];
    - [win32] is [process.platform === 'win32'];
    - [dateOfString] is the date a trimmed, non-empty string denotes for
      [coerceDate], read through [Number] and [Date], [None] when neither
      gives a valid date;
    - [normalizeEvents] is [None] when it throws. *)
Class Runtime := {
  JSON_parse : string -> option json;
  trim : string -> string;
  toLowerCase : string -> string;
  replaceAll : string -> string -> string -> string;
  basename : string -> string;
  path_resolve : string -> string;
  settingsPath : string;
  win32 : bool;
  dateOfString : string -> option Z;
  normalizeEvents : AgentType -> json -> option (list NormalizedEvent)
}.

(** ** The process record and the world it lives in *)

Record AgentProcess := {
  agentId : string;
  taskName : string;
  agentType : AgentType;
  prompt : string;
  cwd : option string;
  workspaceDir : option string;
  mode : Mode;
  pid : option Z;
  status : AgentStatus;
  startedAt : Z;
  completedAt : option Z;
  parentSessionId : option string;
  eventsCache : list Event;
  lastReadPos : Z
}.

(** [new AgentProcess(...)]: an empty event cache, the read offset 0. *)
Definition new_AgentProcess (agentId taskName : string) (agentType : AgentType)
    (prompt : string) (cwd : option string) (mode : Mode) (pid : option Z)
    (status : AgentStatus) (startedAt : Z) (completedAt : option Z)
    (parentSessionId workspaceDir : option string) : AgentProcess :=
  {| agentId := agentId; taskName := taskName; agentType := agentType;
     prompt := prompt; cwd := cwd; workspaceDir := workspaceDir; mode := mode;
     pid := pid; status := status; startedAt := startedAt;
     completedAt := completedAt; parentSessionId := parentSessionId;
     eventsCache := []; lastReadPos := 0 |}.

(** Assignments to the fields the code mutates. *)
Definition set_status (a : AgentProcess) (st : AgentStatus) : AgentProcess :=
  {| agentId := agentId a; taskName := taskName a; agentType := agentType a;
     prompt := prompt a; cwd := cwd a; workspaceDir := workspaceDir a;
     mode := mode a; pid := pid a; status := st; startedAt := startedAt a;
     completedAt := completedAt a; parentSessionId := parentSessionId a;
     eventsCache := eventsCache a; lastReadPos := lastReadPos a |}.

Definition set_completedAt (a : AgentProcess) (t : option Z) : AgentProcess :=
  {| agentId := agentId a; taskName := taskName a; agentType := agentType a;
     prompt := prompt a; cwd := cwd a; workspaceDir := workspaceDir a;
     mode := mode a; pid := pid a; status := status a; startedAt := startedAt a;
     completedAt := t; parentSessionId := parentSessionId a;
     eventsCache := eventsCache a; lastReadPos := lastReadPos a |}.

Definition set_pid (a : AgentProcess) (p : option Z) : AgentProcess :=
  {| agentId := agentId a; taskName := taskName a; agentType := agentType a;
     prompt := prompt a; cwd := cwd a; workspaceDir := workspaceDir a;
     mode := mode a; pid := p; status := status a; startedAt := startedAt a;
     completedAt := completedAt a; parentSessionId := parentSessionId a;
     eventsCache := eventsCache a; lastReadPos := lastReadPos a |}.

Definition set_lastReadPos (a : AgentProcess) (pos : Z) : AgentProcess :=
  {| agentId := agentId a; taskName := taskName a; agentType := agentType a;
     prompt := prompt a; cwd := cwd a; workspaceDir := workspaceDir a;
     mode := mode a; pid := pid a; status := status a; startedAt := startedAt a;
     completedAt := completedAt a; parentSessionId := parentSessionId a;
     eventsCache := eventsCache a; lastReadPos := pos |}.

(** [this.eventsCache.push(e)] *)
Definition push_event (a : AgentProcess) (e : Event) : AgentProcess :=
  {| agentId := agentId a; taskName := taskName a; agentType := agentType a;
     prompt := prompt a; cwd := cwd a; workspaceDir := workspaceDir a;
     mode := mode a; pid := pid a; status := status a; startedAt := startedAt a;
     completedAt := completedAt a; parentSessionId := parentSessionId a;
     eventsCache := eventsCache a ++ [e]; lastReadPos := lastReadPos a |}.

(** [stdout.log]: its bytes and its last-modified time. *)
Record LogFile := {
  content : string;
  mtime : Z
}.

(** One agent directory of the store.  [meta] is the value [JSON.parse]
    gives for the text of [meta.json]; [None] when the file is missing or
    its text does not parse.  [stdout] is [None] when there is no log. *)
Record AgentDir := {
  meta : option json;
  stdout : option LogFile
}.

(** What the environment answers to the next launch. *)
Record Launch := {
  uuid : string;                  (* randomUUID().substring(0, 8) *)
  mkdirError : option string;     (* fs.mkdir of the agent directory throws *)
  launchError : option string;    (* opening the log, writing the script or spawn throws *)
  childPid : option Z             (* childProcess.pid *)
}.

(** The world: the directories under the agents directory (one agents
    directory is modelled, the one of the manager), the processes that
    answer [process.kill(pid, 0)], the clock, the installed CLIs, the paths
    a [cwd] may name (with whether each is a directory), the answers of the
    environment to the launches and the number of launches made, and two
    records of what the code did: the agents whose [meta.json] was written
    (latest first), and the number of directory scans ([fs.readdir] in
    [loadExistingAgents]).  The clock does not advance by itself. *)
Record World := {
  store : gmap string AgentDir;
  alive : list Z;
  now : Z;
  installed : list (AgentType * string);
  paths : list (string * bool);
  launches : nat -> Launch;
  launched : nat;
  metaWrites : list string;
  scans : nat
}.

Definition with_store (w : World) (st : gmap string AgentDir) : World :=
  {| store := st; alive := alive w; now := now w; installed := installed w;
     paths := paths w; launches := launches w; launched := launched w;
     metaWrites := metaWrites w;
     scans := scans w |}.

Definition with_alive (w : World) (l : list Z) : World :=
  {| store := store w; alive := l; now := now w; installed := installed w;
     paths := paths w; launches := launches w; launched := launched w;
     metaWrites := metaWrites w;
     scans := scans w |}.

Definition note_launch (w : World) : World :=
  {| store := store w; alive := alive w; now := now w; installed := installed w;
     paths := paths w; launches := launches w; launched := S (launched w);
     metaWrites := metaWrites w; scans := scans w |}.

Definition note_metaWrite (w : World) (id : string) : World :=
  {| store := store w; alive := alive w; now := now w; installed := installed w;
     paths := paths w; launches := launches w; launched := launched w;
     metaWrites := id :: metaWrites w;
     scans := scans w |}.

Definition note_scan (w : World) : World :=
  {| store := store w; alive := alive w; now := now w; installed := installed w;
     paths := paths w; launches := launches w; launched := launched w;
     metaWrites := metaWrites w;
     scans := S (scans w) |}.

(** [process.kill(pid, 0)] does not throw. *)
Definition kill0 (w : World) (p : Z) : bool := existsb (Z.eqb p) (alive w).

(** [!!pid] *)
Definition pid_truthy (p : option Z) : bool :=
  match p with Some n => negb (n =? 0) | None => false end.

Definition is_Some_b {A} (o : option A) : bool :=
  match o with Some _ => true | None => false end.

(** ** AgentProcess *)

Section Process.
Context {R : Runtime}.

(** [coerceDate]; a number below 10^12 counts seconds, and a [Date] is
    valid within 8.64 * 10^15 ms of the epoch. *)
Definition coerceDate (value : option json) : option Z :=
  match value with
  | None | Some JNull => None
  | Some (JNum n) =>
      let ms := if n <? 1000000000000 then n * 1000 else n in
      if Z.abs ms <=? 8640000000000000 then Some ms else None
  | Some (JStr s) =>
      let trimmed := trim s in
      if Str.nonempty trimmed then dateOfString trimmed else None
  | Some (JIso ms) => Some ms
  | Some _ => None
  end.

(** [extractTimestamp] *)
Definition extractTimestamp (raw : json) : option Z :=
  match raw with
  | JObj _ | JArr _ =>
      let candidates :=
        [Js.get raw "timestamp"; Js.get raw "time"; Js.get raw "created_at";
         Js.get raw "createdAt"; Js.get raw "ts"; Js.get raw "started_at";
         Js.get raw "startedAt"] in
      fold_left (fun found candidate => Js.or_else found (coerceDate candidate))
                candidates None
  | _ => None
  end.

(** [isProcessAlive] *)
Definition isProcessAlive (w : World) (a : AgentProcess) : bool :=
  match pid a with
  | Some p => if p =? 0 then false else kill0 w p
  | None => false
  end.

(** [reapProcess]: [null] or the exit code 1. *)
Definition reapProcess (w : World) (a : AgentProcess) : option Z :=
  match pid a with
  | Some p => if p =? 0 then None else if kill0 w p then None else Some 1
  | None => None
  end.

(** [getLatestEventTime] *)
Definition getLatestEventTime (a : AgentProcess) : option Z :=
  fold_left
    (fun latest e =>
       match latest with
       | None => Some (timestamp e)
       | Some l => if l <? timestamp e then Some (timestamp e) else latest
       end)
    (eventsCache a) None.

(** The test on the sentinel line of the launch wrapper. *)
Definition has_exit_code (rawEvent : json) : bool :=
  match rawEvent with
  | JObj fields => match Js.assoc "__exit_code__" fields with Some _ => true | None => false end
  | _ => false
  end.

Definition is_terminal_type (t : string) : bool :=
  String.eqb t "result" || String.eqb t "turn.completed" || String.eqb t "thread.completed".

Definition status_is (e : NormalizedEvent) (s : string) : bool :=
  match estatus e with Some t => String.eqb t s | None => false end.

(** The body of the loop over the normalised events of one line. *)
Definition absorb (resolvedTimestamp : Z) (a : AgentProcess) (e : NormalizedEvent)
  : AgentProcess :=
  let a := push_event a {| event := e; timestamp := resolvedTimestamp |} in
  if is_terminal_type (etype e) then
    if status_is e "success" || String.eqb (etype e) "turn.completed"
    then set_completedAt (set_status a COMPLETED) (Some resolvedTimestamp)
    else if status_is e "error"
    then set_completedAt (set_status a FAILED) (Some resolvedTimestamp)
    else a
  else a.

Definition isGeminiWin32Noise (a : AgentProcess) (line : string) : bool :=
  AgentType_eqb (agentType a) gemini && win32 &&
  (Str.includes "AttachConsole failed" line ||
   Str.includes "conpty_console_list_agent" line ||
   (Str.includes "@lydell" line && Str.includes "node-pty" line)).

(** The [catch] block of the loop over the lines. *)
Definition unparsed (fallbackTimestamp : Z) (a : AgentProcess) (line : string)
  : AgentProcess :=
  if isGeminiWin32Noise a line then a
  else if AgentType_eqb (agentType a) copilot then
    push_event a
      {| event := {| etype := "message"; estatus := None;
                     edata := JObj [("agent", JStr "copilot"); ("content", JStr line);
                                    ("complete", JBool true)] |};
         timestamp := fallbackTimestamp |}
  else
    push_event a
      {| event := {| etype := "raw"; estatus := None;
                     edata := JObj [("content", JStr line)] |};
         timestamp := fallbackTimestamp |}.

(** The body of the loop over the lines. *)
Definition processLine (fallbackTimestamp : Z) (a : AgentProcess) (line : string)
  : AgentProcess :=
  match JSON_parse line with
  | Some rawEvent =>
      if has_exit_code rawEvent then
        let a := match Js.get rawEvent "__exit_code__" with
                 | Some (JNum 0) => set_status a COMPLETED
                 | _ => set_status a FAILED
                 end in
        set_completedAt a (Some fallbackTimestamp)
      else
        match normalizeEvents (agentType a) rawEvent with
        | Some events =>
            let resolvedTimestamp :=
              match extractTimestamp rawEvent with
              | Some t => t
              | None => fallbackTimestamp
              end in
            fold_left (absorb resolvedTimestamp) events a
        | None => unparsed fallbackTimestamp a line
        end
  | None => unparsed fallbackTimestamp a line
  end.

(** [Buffer.alloc(1024 * 1024)] *)
Definition bufferLength : Z := 1024 * 1024.

(** [newContent.split('\n').map(l => l.trim()).filter(l => l)] *)
Definition linesOf (newContent : string) : list string :=
  List.filter Str.nonempty (map trim (Str.split_on Str.newline newContent)).

(** [readNewEvents]: at most one buffer of the bytes after [lastReadPos]. *)
Definition readNewEvents (w : World) (a : AgentProcess) : AgentProcess :=
  match store w !! agentId a with
  | Some {| stdout := Some log |} =>
      let fallbackTimestamp := mtime log in
      let newContent := Str.take bufferLength (Str.skip (lastReadPos a) (content log)) in
      let bytesRead := Str.len newContent in
      if bytesRead =? 0 then a
      else
        let a := set_lastReadPos a (lastReadPos a + bytesRead) in
        fold_left (processLine fallbackTimestamp) (linesOf newContent) a
  | _ => a
  end.

(** The object [saveMeta] writes. *)
Definition metaOf (a : AgentProcess) : json :=
  JObj [("agent_id", JStr (agentId a));
        ("task_name", JStr (taskName a));
        ("agent_type", JStr (AgentType_name (agentType a)));
        ("prompt", JStr (prompt a));
        ("cwd", Js.of_option_string (cwd a));
        ("workspace_dir", Js.of_option_string (workspaceDir a));
        ("mode", JStr (Mode_name (mode a)));
        ("pid", Js.of_option_number (pid a));
        ("status", JStr (AgentStatus_value (status a)));
        ("started_at", JIso (startedAt a));
        ("completed_at", Js.of_option_date (completedAt a));
        ("parent_session_id", Js.of_option_string (parentSessionId a))].

(** [saveMeta]: the agent directory is created when missing, [meta.json]
    is written, the log is left alone. *)
Definition saveMeta (w : World) (a : AgentProcess) : World :=
  let log := match store w !! agentId a with Some d => stdout d | None => None end in
  note_metaWrite
    (with_store w (<[agentId a := {| meta := Some (metaOf a); stdout := log |}]> (store w)))
    (agentId a).

(** Readers of the fields of a parsed [meta.json].  The class of the record
    gives every field a type; a meta whose field holds a value of another
    JSON type is outside the embedding, and read as [None] like a meta
    that does not parse. *)
Definition read_string (m : json) (k : string) : option string :=
  match Js.get m k with Some (JStr s) => Some s | _ => None end.

(** [m.k || null] for a string field *)
Definition read_string_or_null (m : json) (k : string) : option (option string) :=
  match Js.get_truthy m k with
  | Some (JStr s) => Some (Some s)
  | Some _ => None
  | None => Some None
  end.

(** [m.k || null] for a number field *)
Definition read_number_or_null (m : json) (k : string) : option (option Z) :=
  match Js.get_truthy m k with
  | Some (JNum n) => Some (Some n)
  | Some _ => None
  | None => Some None
  end.

(** [m.k ? new Date(m.k) : null] *)
Definition read_date_or_null (m : json) (k : string) : option (option Z) :=
  match Js.get_truthy m k with
  | Some (JIso ms) => Some (Some ms)
  | Some _ => None
  | None => Some None
  end.

(** [new Date(m.k)] *)
Definition read_date (m : json) (k : string) : option Z :=
  match Js.get m k with Some (JIso ms) => Some ms | _ => None end.

(** [AgentStatus[m.status] || AgentStatus.RUNNING]; a key that is not a
    string is turned into one, and is then no key of the enum. *)
Definition read_status (m : json) : option AgentStatus :=
  match Js.get m "status" with
  | Some (JStr key) =>
      match AgentStatus_lookup key with
      | Own st => Some st
      | Missing => Some RUNNING
      | Inherited => None
      end
  | Some (JArr _) | Some (JObj _) => None
  | _ => Some RUNNING
  end.

(** The fields of a meta other than [status] have the JSON types that
    [saveMeta] gives them. *)
Definition well_typed_meta (m : json) : bool :=
  match m with
  | JObj _ =>
      is_Some_b (read_string m "agent_id") &&
      is_Some_b (read_string_or_null m "task_name") &&
      is_Some_b (read_string m "agent_type" ≫= AgentType_of_name) &&
      is_Some_b (read_string m "prompt") &&
      is_Some_b (read_string_or_null m "cwd") &&
      is_Some_b (read_number_or_null m "pid") &&
      is_Some_b (read_date m "started_at") &&
      is_Some_b (read_date_or_null m "completed_at") &&
      is_Some_b (read_string_or_null m "parent_session_id") &&
      is_Some_b (read_string_or_null m "workspace_dir")
  | _ => false
  end.

(** [loadFromDisk] *)
Definition loadFromDisk (w : World) (agentId : string) : option AgentProcess :=
  d ← store w !! agentId;
  m ← meta d;
  match m with
  | JObj _ =>
      id ← read_string m "agent_id";
      task ← read_string_or_null m "task_name";
      kind ← read_string m "agent_type" ≫= AgentType_of_name;
      prompt ← read_string m "prompt";
      cwd ← read_string_or_null m "cwd";
      pid ← read_number_or_null m "pid";
      st ← read_status m;
      started ← read_date m "started_at";
      completed ← read_date_or_null m "completed_at";
      parent ← read_string_or_null m "parent_session_id";
      workspace ← read_string_or_null m "workspace_dir";
      Some (new_AgentProcess id (default "default" task) kind prompt cwd
              (if Js.is_string (Js.get m "mode") "edit" then edit else plan)
              pid st started completed parent workspace)
  | _ => None
  end.

(** [this.getLatestEventTime() || this.startedAt || new Date()]; the
    start time is a [Date] object, which is truthy. *)
Definition fallbackCompletion (w : World) (a : AgentProcess) : option Z :=
  Js.or_else (getLatestEventTime a) (Js.or_else (Some (startedAt a)) (Some (now w))).

(** [updateStatusFromProcess] *)
Definition updateStatusFromProcess (w : World) (a : AgentProcess) : World * AgentProcess :=
  if negb (pid_truthy (pid a)) then (w, a)
  else if isProcessAlive w a then (w, readNewEvents w a)
  else
    let a :=
      if AgentStatus_eqb (status a) RUNNING then
        let exitCode := reapProcess w a in
        let a := readNewEvents w a in
        if AgentStatus_eqb (status a) RUNNING then
          let completion := fallbackCompletion w a in
          let a := match exitCode with
                   | Some code => if code =? 0 then set_status a COMPLETED
                                  else set_status a FAILED
                   | None => set_status a COMPLETED
                   end in
          set_completedAt a completion
        else a
      else
        match completedAt a with
        | None =>
            let a := readNewEvents w a in
            set_completedAt a (fallbackCompletion w a)
        | Some _ => a
        end in
    (saveMeta w a, a).

End Process.

(** ** The command compiler *)

(** An entry of the configuration ([AgentConfig] of [persistence.d.ts]). *)
Record AgentModelConfig := {
  fast : string;
  default_model : string;
  detailed : string
}.

Record AgentConfig := {
  command : string;
  enabled : bool;
  models : AgentModelConfig;
  provider : string
}.

Inductive EffortLevel := effort_fast | effort_default | effort_detailed.

Module Command.

Definition nl : string := String Str.newline "".

Definition PROMPT_SUFFIX : string :=
  nl +:+ nl +:+ "When you're done, provide a brief summary of:" +:+ nl +:+
  "1. What you did (1-2 sentences)" +:+ nl +:+
  "2. Key files modified and why" +:+ nl +:+
  "3. Any important classes, functions, or components you added/changed".

Definition CLAUDE_PLAN_MODE_PREFIX : string :=
  "You are running in HEADLESS PLAN MODE. This mode works like normal plan mode with one exception: you cannot write to ~/.claude/plans/ directory. Instead of writing a plan file, output your complete plan/response as your final message."
  +:+ nl +:+ nl.

Definition PLACEHOLDER : string := "{prompt}".

(** [AGENT_COMMANDS] *)
Definition AGENT_COMMANDS (t : AgentType) : list string :=
  match t with
  | codex => ["codex"; "exec"; "--dangerously-bypass-approvals-and-sandbox"; "{prompt}"; "--json"]
  | cursor => ["cursor-agent"; "-p"; "--output-format"; "stream-json"; "{prompt}"]
  | gemini => ["gemini"; "-p"; "{prompt}"; "--output-format"; "stream-json"]
  | claude => ["claude"; "-p"; "--verbose"; "{prompt}"; "--output-format"; "stream-json";
               "--permission-mode"; "plan"]
  | opencode => ["opencode"; "run"; "--format"; "json"; "{prompt}"]
  | copilot => ["copilot"; "-p"; "{prompt}"; "-s"]
  end.

(** [loadDefaultAgentConfigs] *)
Definition loadDefaultAgentConfigs (t : AgentType) : AgentConfig :=
  match t with
  | claude =>
      {| command := "claude -p '{prompt}' --output-format stream-json"; enabled := true;
         models := {| fast := "claude-haiku-4-5-20251001"; default_model := "claude-sonnet-4-6";
                      detailed := "claude-opus-4-6" |};
         provider := "anthropic" |}
  | codex =>
      {| command := "codex exec --sandbox danger-full-access '{prompt}' --json"; enabled := true;
         models := {| fast := "gpt-5.1-codex-mini"; default_model := "gpt-5.3-codex";
                      detailed := "gpt-5.3-codex" |};
         provider := "openai" |}
  | gemini =>
      {| command := "gemini -p '{prompt}' --output-format stream-json"; enabled := true;
         models := {| fast := "gemini-3-flash-preview"; default_model := "gemini-3-flash-preview";
                      detailed := "gemini-3-pro-preview" |};
         provider := "google" |}
  | cursor =>
      {| command := "cursor-agent -p --output-format stream-json '{prompt}'"; enabled := true;
         models := {| fast := "composer-1"; default_model := "composer-1";
                      detailed := "composer-1" |};
         provider := "custom" |}
  | opencode =>
      {| command := "opencode run --format json '{prompt}'"; enabled := true;
         models := {| fast := "zai-coding-plan/glm-4.7-flash";
                      default_model := "zai-coding-plan/glm-4.7";
                      detailed := "zai-coding-plan/glm-4.7" |};
         provider := "custom" |}
  | copilot =>
      {| command := "copilot -p '{prompt}' -s"; enabled := true;
         models := {| fast := "claude-sonnet-4"; default_model := "claude-sonnet-4.5";
                      detailed := "gpt-5" |};
         provider := "github" |}
  end.

(** [resolveEffortModelMap(agentConfigs)], the one-argument form. *)
Definition resolveEffortModelMap (agentConfigs : AgentType -> AgentConfig)
  : EffortLevel -> AgentType -> string :=
  fun level t =>
    match level with
    | effort_fast => fast (models (agentConfigs t))
    | effort_default => default_model (models (agentConfigs t))
    | effort_detailed => detailed (models (agentConfigs t))
    end.

(** Arrays of strings. *)
Definition includes (x : string) (l : list string) : bool := existsb (String.eqb x) l.

Fixpoint indexOf (x : string) (l : list string) : option nat :=
  match l with
  | [] => None
  | y :: l' => if String.eqb y x then Some O else option_map S (indexOf x l')
  end.

(** [l.splice(i, 0, ...xs)] *)
Definition insertAt (i : nat) (xs l : list string) : list string :=
  (firstn i l ++ xs ++ skipn i l)%list.

(** [l.splice(i, n)] *)
Definition removeAt (i n : nat) (l : list string) : list string :=
  (firstn i l ++ skipn (i + n) l)%list.


Section WithRuntime.
Context {R : Runtime}.

(** [isCompatibleAgentCli] *)
Definition isCompatibleAgentCli (agentType : AgentType) (firstArg : option string) : bool :=
  match firstArg with
  | None => false
  | Some firstArg =>
      if negb (Str.nonempty firstArg) then false
      else
        let exe := toLowerCase (basename firstArg) in
        match agentType with
        | codex => String.eqb exe "codex" || String.eqb exe "codex.exe"
        | claude => String.eqb exe "claude" || String.eqb exe "claude.exe"
        | gemini => String.eqb exe "gemini" || String.eqb exe "gemini.exe"
        | cursor => String.eqb exe "cursor-agent" || String.eqb exe "cursor-agent.exe"
        | opencode => String.eqb exe "opencode" || String.eqb exe "opencode.exe"
        | copilot => String.eqb exe "copilot" || String.eqb exe "copilot.exe"
        end
  end.

(** [ensureClaudeFlag] *)
Definition ensureClaudeFlag (cmd : list string) (flag : string) (value : option string)
  : list string :=
  match indexOf flag cmd with
  | Some _ => cmd
  | None =>
      match value with
      | None => (cmd ++ [flag])%list
      | Some v => (cmd ++ [flag; v])%list
      end
  end.

(** [ensureGeminiHeadlessFlag] *)
Definition ensureGeminiHeadlessFlag (cmd : list string) (promptText : string) : list string :=
  if includes "-p" cmd || includes "--prompt" cmd then cmd
  else
    match indexOf promptText cmd with
    | Some promptIdx => insertAt promptIdx ["-p"] cmd
    | None => (cmd ++ ["-p"])%list
    end.

(** [applyEditMode] *)
Definition applyEditMode (agentType : AgentType) (cmd : list string) : list string :=
  match agentType with
  | codex => (cmd ++ ["--full-auto"])%list
  | cursor => (cmd ++ ["-f"])%list
  | gemini => (cmd ++ ["--yolo"])%list
  | claude =>
      match indexOf "--permission-mode" cmd with
      | Some permModeIndex =>
          if (permModeIndex + 1 <? length cmd)%nat
          then <[(permModeIndex + 1)%nat := "acceptEdits"]> cmd
          else cmd
      | None => cmd
      end
  | copilot => (cmd ++ ["--allow-all-tools"; "--allow-all-paths"; "--no-ask-user"])%list
  | opencode => cmd
  end.

(** [applyRalphMode] *)
Definition applyRalphMode (agentType : AgentType) (cmd : list string) : list string :=
  match agentType with
  | codex => (cmd ++ ["--full-auto"])%list
  | cursor => (cmd ++ ["-f"])%list
  | gemini => (cmd ++ ["--yolo"])%list
  | claude =>
      let ralphCmd :=
        match indexOf "--permission-mode" cmd with
        | Some permModeIndex => removeAt permModeIndex 2 cmd
        | None => cmd
        end in
      (ralphCmd ++ ["--dangerously-skip-permissions"])%list
  | copilot => (cmd ++ ["--yolo"])%list
  | opencode => cmd
  end.

(** The prompt the agent is given. *)
Definition fullPromptOf (agentType : AgentType) (prompt : string) (mode : Mode) : string :=
  let fullPrompt := prompt +:+ PROMPT_SUFFIX in
  match agentType, mode with
  | claude, edit => fullPrompt
  | claude, _ => CLAUDE_PLAN_MODE_PREFIX +:+ fullPrompt
  | _, _ => fullPrompt
  end.

(** [this.agentConfigs?.[agentType]?.command?.trim() ?? ''] *)
Definition configAgentCommand (agentConfigs : option (AgentType -> AgentConfig))
    (agentType : AgentType) : string :=
  match agentConfigs with
  | Some configs => trim (command (configs agentType))
  | None => ""
  end.

(** The template the compiler starts from: the configured command, split,
    when there is one, else the built-in. *)
Definition baseTemplate (agentConfigs : option (AgentType -> AgentConfig))
    (agentType : AgentType) : result (list string) :=
  let configured := configAgentCommand agentConfigs agentType in
  if Str.nonempty configured
  then Template.splitCommandTemplate configured
  else Ok (AGENT_COMMANDS agentType).

Definition hasPromptPlaceholder (template : list string) : bool :=
  existsb (Str.includes PLACEHOLDER) template.

Definition substitute (fullPrompt : string) (template : list string) : list string :=
  map (fun part => replaceAll part PLACEHOLDER fullPrompt) template.

(** The flags a recognised CLI gets, in the order of [buildCommand]. *)
Definition injectFlags (agentType : AgentType) (fullPrompt : string) (mode : Mode)
    (model : string) (cwd : option string) (cmd : list string) : list string :=
  let cmd :=
    match agentType with
    | claude =>
        let cmd := ensureClaudeFlag cmd "--verbose" None in
        let cmd := ensureClaudeFlag cmd "--permission-mode" (Some "plan") in
        let cmd := if includes "--settings" cmd then cmd
                   else (cmd ++ ["--settings"; settingsPath])%list in
        match cwd with
        | Some dir =>
            if Str.nonempty dir && negb (includes "--add-dir" cmd)
            then (cmd ++ ["--add-dir"; dir])%list else cmd
        | None => cmd
        end
    | _ => cmd
    end in
  let cmd :=
    match agentType with
    | gemini => ensureGeminiHeadlessFlag cmd fullPrompt
    | _ => cmd
    end in
  let cmd :=
    match agentType, mode with
    | gemini, plan =>
        if negb (includes "--approval-mode" cmd) && negb (includes "--yolo" cmd)
        then (cmd ++ ["--approval-mode"; "plan"])%list else cmd
    | _, _ => cmd
    end in
  let cmd :=
    if includes "--model" cmd then cmd
    else
      match agentType with
      | codex =>
          let insertIndex :=
            match indexOf "--sandbox" cmd with
            | Some sandboxIndex => sandboxIndex
            | None => match indexOf "exec" cmd with
                      | Some execIndex => S execIndex
                      | None => O
                      end
            end in
          insertAt insertIndex ["--model"; model] cmd
      | cursor | gemini | claude | copilot => (cmd ++ ["--model"; model])%list
      | opencode =>
          let opencodeAgent := match mode with plan => "plan" | _ => "build" end in
          let cmd :=
            match indexOf fullPrompt cmd with
            | Some promptIndex => insertAt (S promptIndex) ["--agent"; opencodeAgent] cmd
            | None => cmd
            end in
          (cmd ++ ["--model"; model])%list
      end in
  match mode with
  | ralph => applyRalphMode agentType cmd
  | edit => applyEditMode agentType cmd
  | plan => cmd
  end.

(** [buildCommand] *)
Definition buildCommand (agentConfigs : option (AgentType -> AgentConfig))
    (agentType : AgentType) (prompt : string) (mode : Mode) (model : string)
    (cwd : option string) : result (list string) :=
  let fullPrompt := fullPromptOf agentType prompt mode in
  match baseTemplate agentConfigs agentType with
  | Throw e => Throw e
  | Ok template =>
      if negb (hasPromptPlaceholder template)
      then Throw (MissingPromptPlaceholder agentType)
      else
        let cmd := substitute fullPrompt template in
        if negb (isCompatibleAgentCli agentType (head cmd))
        then Ok cmd
        else Ok (injectFlags agentType fullPrompt mode model cwd cmd)
  end.

End WithRuntime.

End Command.

(** ** AgentManager *)

(** [this.agents], a [Map] from agent id to record: an association list in
    insertion order. *)
Module AgentMap.

Definition t := list (string * AgentProcess).

Fixpoint get (k : string) (m : t) : option AgentProcess :=
  match m with
  | [] => None
  | (k', v) :: m' => if String.eqb k k' then Some v else get k m'
  end.

(** [Map.prototype.set] keeps the place of a key that is present. *)
Fixpoint set (k : string) (v : AgentProcess) (m : t) : t :=
  match m with
  | [] => [(k, v)]
  | (k', v') :: m' => if String.eqb k k' then (k, v) :: m' else (k', v') :: set k v m'
  end.

Fixpoint delete (k : string) (m : t) : t :=
  match m with
  | [] => []
  | (k', v') :: m' => if String.eqb k k' then m' else (k', v') :: delete k m'
  end.

Definition values (m : t) : list AgentProcess := map snd m.

End AgentMap.

Record AgentManager := {
  agents : AgentMap.t;
  maxAgents : Z;
  maxConcurrent : Z;
  filterByCwd : option string;
  cleanupAgeDays : Z;
  defaultMode : Mode;
  effortModelMap : option (EffortLevel -> AgentType -> string);
  agentConfigs : option (AgentType -> AgentConfig);
  constructorAgentConfigs : option (AgentType -> AgentConfig)
}.

Definition with_agents (m : AgentManager) (l : AgentMap.t) : AgentManager :=
  {| agents := l; maxAgents := maxAgents m; maxConcurrent := maxConcurrent m;
     filterByCwd := filterByCwd m; cleanupAgeDays := cleanupAgeDays m;
     defaultMode := defaultMode m; effortModelMap := effortModelMap m;
     agentConfigs := agentConfigs m;
     constructorAgentConfigs := constructorAgentConfigs m |}.

Definition with_configs (m : AgentManager) (configs : AgentType -> AgentConfig) : AgentManager :=
  {| agents := agents m; maxAgents := maxAgents m; maxConcurrent := maxConcurrent m;
     filterByCwd := filterByCwd m; cleanupAgeDays := cleanupAgeDays m;
     defaultMode := defaultMode m;
     effortModelMap := Some (Command.resolveEffortModelMap configs);
     agentConfigs := Some configs;
     constructorAgentConfigs := constructorAgentConfigs m |}.

Definition option_string_eqb (a b : option string) : bool :=
  match a, b with
  | Some x, Some y => String.eqb x y
  | None, None => true
  | _, _ => false
  end.

(** [completed.sort((a, b) => aTime - bTime)], a stable sort on
    [completedAt?.getTime() || 0]. *)
Definition completedTime (a : AgentProcess) : Z :=
  match completedAt a with Some t => t | None => 0 end.

Fixpoint insert_by_time (a : AgentProcess) (l : list AgentProcess) : list AgentProcess :=
  match l with
  | [] => [a]
  | b :: l' =>
      if completedTime a <? completedTime b then a :: b :: l'
      else b :: insert_by_time a l'
  end.

Definition sort_by_time (l : list AgentProcess) : list AgentProcess :=
  fold_left (fun sorted a => insert_by_time a sorted) l [].

Section Manager.
Context {R : Runtime}.

(** The manager as the constructor leaves it, before [initialize] has
    run. *)
Definition new_AgentManager (maxAgents maxConcurrent : Z) (defaultMode : Mode)
    (filterByCwd : option string) (cleanupAgeDays : Z)
    (agentConfigs : option (AgentType -> AgentConfig)) : AgentManager :=
  {| agents := []; maxAgents := maxAgents; maxConcurrent := maxConcurrent;
     filterByCwd := filterByCwd; cleanupAgeDays := cleanupAgeDays;
     defaultMode := defaultMode; effortModelMap := None; agentConfigs := None;
     constructorAgentConfigs := agentConfigs |}.

(** The body of the loop of [loadExistingAgents] for one directory
    entry. *)
Definition loadEntry (m : AgentManager) (cutoffDate : Z)
    (acc : World * AgentMap.t) (entry : string) : World * AgentMap.t :=
  let '(w, loaded) := acc in
  match store w !! entry with
  | None => acc
  | Some _ =>
      match loadFromDisk w entry with
      | None => acc
      | Some agent =>
          if match completedAt agent with Some t => t <? cutoffDate | None => false end
          then (with_store w (delete entry (store w)), loaded)
          else if match filterByCwd m with
                  | Some dir => negb (option_string_eqb (cwd agent) (Some dir))
                  | None => false
                  end
          then acc
          else
            let '(w, agent) := updateStatusFromProcess w agent in
            (w, AgentMap.set entry agent loaded)
      end
  end.

(** [loadExistingAgents]: one scan of the agents directory. *)
Definition loadExistingAgents (m : AgentManager) (w : World) : World * AgentManager :=
  let cutoffDate := now w - cleanupAgeDays m * 24 * 60 * 60 * 1000 in
  let w := note_scan w in
  let entries := map fst (map_to_list (store w)) in
  let '(w, loaded) := fold_left (loadEntry m cutoffDate) entries (w, agents m) in
  (w, with_agents m loaded).

(** [initialize] *)
Definition initialize (m : AgentManager) (w : World) : World * AgentManager :=
  let m :=
    match constructorAgentConfigs m with
    | None => with_configs m Command.loadDefaultAgentConfigs
    | Some configs => with_configs m configs
    end in
  loadExistingAgents m w.

(** [new AgentManager(...)]: the constructor starts [initialize], and does
    not wait for it; here that run is complete before the next call. *)
Definition construct (maxAgents maxConcurrent : Z) (defaultMode : Mode)
    (filterByCwd : option string) (cleanupAgeDays : Z)
    (agentConfigs : option (AgentType -> AgentConfig)) (w : World) : World * AgentManager :=
  initialize (new_AgentManager maxAgents maxConcurrent defaultMode filterByCwd
                               cleanupAgeDays agentConfigs) w.

(** The two calls every listing makes on a record. *)
Definition refresh (w : World) (a : AgentProcess) : World * AgentProcess :=
  updateStatusFromProcess w (readNewEvents w a).

Definition refreshEntry (acc : World * AgentMap.t) (entry : string * AgentProcess)
  : World * AgentMap.t :=
  let '(w, done) := acc in
  let '(w, a) := refresh w (snd entry) in
  (w, (done ++ [(fst entry, a)])%list).

(** [listAll]: the records are refreshed in place, and returned. *)
Definition listAll (m : AgentManager) (w : World) : World * AgentManager * list AgentProcess :=
  let '(w, refreshed) := fold_left refreshEntry (agents m) (w, []) in
  (w, with_agents m refreshed, AgentMap.values refreshed).

Definition isRunning (a : AgentProcess) : bool := AgentStatus_eqb (status a) RUNNING.

Definition listRunning (m : AgentManager) (w : World)
  : World * AgentManager * list AgentProcess :=
  let '(w, m, all) := listAll m w in
  (w, m, List.filter isRunning all).

Definition listCompleted (m : AgentManager) (w : World)
  : World * AgentManager * list AgentProcess :=
  let '(w, m, all) := listAll m w in
  (w, m, List.filter (fun a => negb (isRunning a)) all).

Definition evict (acc : World * AgentMap.t) (a : AgentProcess) : World * AgentMap.t :=
  let '(w, l) := acc in
  (with_store w (delete (agentId a) (store w)), AgentMap.delete (agentId a) l).

(** [cleanupOldAgents] *)
Definition cleanupOldAgents (m : AgentManager) (w : World) : World * AgentManager :=
  let '(w, m, completed) := listCompleted m w in
  if maxAgents m <? Z.of_nat (length completed) then
    let surplus := Z.to_nat (Z.of_nat (length completed) - maxAgents m) in
    let '(w, l) := fold_left evict (firstn surplus (sort_by_time completed)) (w, agents m) in
    (w, with_agents m l)
  else (w, m).

(** [cleanupPartialAgent] *)
Definition cleanupPartialAgent (m : AgentManager) (w : World) (a : AgentProcess)
  : World * AgentManager :=
  (with_store w (delete (agentId a) (store w)),
   with_agents m (AgentMap.delete (agentId a) (agents m))).

(** [checkCliAvailable] *)
Definition checkCliAvailable (w : World) (agentType : AgentType) : result string :=
  match List.find (fun e => AgentType_eqb (fst e) agentType) (installed w) with
  | Some e => Ok (snd e)
  | None =>
      Throw (CliNotAvailable
               ("CLI tool '" +:+ default "" (head (Command.AGENT_COMMANDS agentType)) +:+
                "' not found in PATH. Install it first."))
  end.

(** [fs.stat(resolvedCwd)]: is it a directory? *)
Definition stat_dir (w : World) (p : string) : option bool :=
  option_map snd (List.find (fun e => String.eqb (fst e) p) (paths w)).

(** [resolveMode] at a mode of the type [Mode | null]. *)
Definition resolveMode (requestedMode : option Mode) (defaultMode : Mode) : Mode :=
  match requestedMode with Some md => md | None => defaultMode end.

(** The launch itself, inside the [try] of [spawn]: on POSIX the log is
    opened for writing, on Windows it is left to the wrapper script; then
    the child is started and the record is saved. *)
Definition launch (w : World) (l : Launch) (agent : AgentProcess)
  : World * AgentProcess :=
  let dir := match store w !! agentId agent with
             | Some d => d
             | None => {| meta := None; stdout := None |}
             end in
  let dir := if win32 then dir
             else {| meta := meta dir; stdout := Some {| content := ""; mtime := now w |} |} in
  let w := with_store w (<[agentId agent := dir]> (store w)) in
  let pid := match childPid l with
             | Some p => if p =? 0 then None else Some p
             | None => None
             end in
  let w := match pid with
           | Some p => with_alive w (p :: alive w)
           | None => w
           end in
  let agent := set_pid agent pid in
  (saveMeta w agent, agent).

(** [spawn] *)
Definition spawn (m : AgentManager) (w : World) (taskName : string)
    (agentType : AgentType) (prompt : string) (cwd : option string)
    (mode : option Mode) (effort : EffortLevel) (parentSessionId workspaceDir : option string)
    (model : option string) : World * AgentManager * result AgentProcess :=
  let '(w, m) := initialize m w in
  let resolvedMode := resolveMode mode (defaultMode m) in
  let explicitModel := match model with
                       | Some s => if Str.nonempty (trim s) then Some (trim s) else None
                       | None => None
                       end in
  match match explicitModel with
        | Some s => Ok s
        | None => match effortModelMap m with
                  | Some f => Ok (f effort agentType)
                  | None => Throw (TypeError "effortModelMap is undefined")
                  end
        end with
  | Throw e => (w, m, Throw e)
  | Ok resolvedModel =>
      let '(w, m, running) := listRunning m w in
      if maxConcurrent m <=? Z.of_nat (length running)
      then (w, m, Throw (ConcurrencyLimitReached (maxConcurrent m)))
      else
        match checkCliAvailable w agentType with
        | Throw e => (w, m, Throw e)
        | Ok _ =>
            match match cwd with
                  | None => Ok None
                  | Some dir =>
                      let resolved := path_resolve dir in
                      match stat_dir w resolved with
                      | None => Throw (WorkingDirectoryMissing dir)
                      | Some false => Throw (WorkingDirectoryNotADirectory dir)
                      | Some true => Ok (Some resolved)
                      end
                  end with
            | Throw e => (w, m, Throw e)
            | Ok resolvedCwd =>
                let l := launches w (launched w) in
                let w := note_launch w in
                let agentId := uuid l in
                match Command.buildCommand (agentConfigs m) agentType prompt resolvedMode
                                           resolvedModel resolvedCwd with
                | Throw e => (w, m, Throw e)
                | Ok cmd =>
                    let agent :=
                      new_AgentProcess agentId taskName agentType prompt resolvedCwd
                        resolvedMode None RUNNING (now w) None parentSessionId workspaceDir in
                    match mkdirError l with
                    | Some why =>
                        (w, with_agents m (AgentMap.delete agentId (agents m)),
                         Throw (CreateDirectoryFailed why))
                    | None =>
                        let w :=
                          match store w !! agentId with
                          | Some _ => w
                          | None => with_store w (<[agentId := {| meta := None; stdout := None |}]>
                                                    (store w))
                          end in
                        match launchError l with
                        | Some why =>
                            let '(w, m) := cleanupPartialAgent m w agent in
                            (w, m, Throw (SpawnFailed why))
                        | None =>
                            let '(w, agent) := launch w l agent in
                            let m := with_agents m (AgentMap.set agentId agent (agents m)) in
                            let '(w, m) := cleanupOldAgents m w in
                            (w, m, Ok agent)
                        end
                    end
                end
            end
        end
  end.

(** [get] *)
Definition get (m : AgentManager) (w : World) (agentId : string)
  : World * AgentManager * option AgentProcess :=
  let '(w, m) := initialize m w in
  match AgentMap.get agentId (agents m) with
  | Some agent =>
      let '(w, agent) := refresh w agent in
      (w, with_agents m (AgentMap.set agentId agent (agents m)), Some agent)
  | None =>
      match loadFromDisk w agentId with
      | Some agent =>
          let '(w, agent) := refresh w agent in
          (w, with_agents m (AgentMap.set agentId agent (agents m)), Some agent)
      | None => (w, m, None)
      end
  end.

(** What [stop] does to a record that has a pid and is running: the two
    signals end the process, the record becomes [stopped] and is saved.
    Any other record is left alone ([None]). *)
Definition stopAgent (w : World) (agent : AgentProcess) : option (World * AgentProcess) :=
  if pid_truthy (pid agent) && isRunning agent then
    let w := with_alive w (List.filter (fun p => negb (Z.eqb p (default 0 (pid agent))))
                                       (alive w)) in
    let agent := set_completedAt (set_status agent STOPPED) (Some (now w)) in
    Some (saveMeta w agent, agent)
  else None.


End Manager.

(** ** The status query of the command line ([cli.js]) *)

(** An entry of the result of [getTaskAgents], without its [duration] (a
    formatted fraction of minutes). *)
Record AgentInfo := {
  info_agent_id : option json;
  info_task_name : option json;
  info_agent_type : option json;
  info_status : option json;
  info_started_at : option json;
  info_completed_at : option json
}.

Module Cli.

(** [isProcessAlive] of [cli.js] *)
Definition isProcessAlive (w : World) (pid : Z) : bool :=
  if pid <=? 0 then false else kill0 w pid.

(** [meta.pid && !isProcessAlive(meta.pid)], for a pid that is a number or
    missing. *)
Definition pid_gone (w : World) (pid : option json) : bool :=
  match pid with
  | Some (JNum p) => negb (p =? 0) && negb (isProcessAlive w p)
  | _ => false
  end.

(** The body of the loop of [getTaskAgents] for one directory. *)
Definition taskAgent (w : World) (taskName : string) (d : AgentDir) : option AgentInfo :=
  match meta d with
  | Some (JObj fields) =>
      let m := JObj fields in
      if negb (Js.is_string (Js.get m "task_name") taskName) then None
      else
        let effectiveStatus :=
          if Js.is_string (Js.get m "status") "running" && pid_gone w (Js.get m "pid")
          then Some (JStr "completed")
          else Js.get m "status" in
        Some {| info_agent_id := Js.get m "agent_id";
                info_task_name := Js.get m "task_name";
                info_agent_type := Js.get m "agent_type";
                info_status := effectiveStatus;
                info_started_at := Js.get m "started_at";
                info_completed_at := Js.get m "completed_at" |}
  | _ => None
  end.

(** [getTaskAgents] *)
Definition getTaskAgents (w : World) (taskName : string) : list AgentInfo :=
  omap (fun e => taskAgent w taskName (snd e)) (map_to_list (store w)).

End Cli.

(** ** A runtime to compute with

    The methods of [Runtime] on the inputs of the scenarios below: a POSIX
    host, ASCII text, paths without a trailing slash, replacement text
    without a dollar sign, and log lines that are either a sentinel of the
    launch wrapper or no JSON at all, so that no line reaches
    [normalizeEvents]. *)

Module Posix.

Definition is_space (c : ascii) : bool :=
  let n := nat_of_ascii c in
  ((9 <=? n)%nat && (n <=? 13)%nat) || (n =? 32)%nat.

Fixpoint trim_left (s : string) : string :=
  match s with
  | EmptyString => ""
  | String c s' => if is_space c then trim_left s' else s
  end.

Fixpoint trim_right (s : string) : string :=
  match s with
  | EmptyString => ""
  | String c s' =>
      let t := trim_right s' in
      if is_space c && negb (Str.nonempty t) then "" else String c t
  end.

Definition trim_ascii (s : string) : string := trim_right (trim_left s).

Definition lower (c : ascii) : ascii :=
  let n := nat_of_ascii c in
  if (65 <=? n)%nat && (n <=? 90)%nat then ascii_of_nat (n + 32) else c.

Fixpoint lower_ascii (s : string) : string :=
  match s with
  | EmptyString => ""
  | String c s' => String (lower c) (lower_ascii s')
  end.

(** The last segment of a path. *)
Definition last_segment (p : string) : string :=
  List.last (List.filter Str.nonempty (Str.split_on "/"%char p)) "".

(** [s.replaceAll(pattern, replacement)] for a pattern that is not empty;
    [drop] counts the characters of a match still to be dropped. *)
Fixpoint replace_go (pattern replacement s : string) (drop : nat) : string :=
  match s with
  | EmptyString => ""
  | String c s' =>
      match drop with
      | S d => replace_go pattern replacement s' d
      | O =>
          if String.prefix pattern s
          then replacement +:+ replace_go pattern replacement s' (String.length pattern - 1)
          else String c (replace_go pattern replacement s' O)
      end
  end.

Definition replace_literal (s pattern replacement : string) : string :=
  if Str.nonempty pattern then replace_go pattern replacement s O else s.

Definition digit (c : ascii) : option Z :=
  let n := nat_of_ascii c in
  if (48 <=? n)%nat && (n <=? 57)%nat then Some (Z.of_nat (n - 48)) else None.

(** The digits of a JSON integer, up to the closing brace. *)
Fixpoint digits (acc : Z) (s : string) : option Z :=
  match s with
  | String c EmptyString => if Ascii.eqb c "}"%char then Some acc else None
  | String c s' => match digit c with
                   | Some d => digits (acc * 10 + d) s'
                   | None => None
                   end
  | EmptyString => None
  end.

Definition sentinel_prefix : string :=
  "{" +:+ String Str.dquote "__exit_code__" +:+ String Str.dquote ":".

(** A JSON integer has no leading zero and at least one digit. *)
Definition integer (s : string) : option Z :=
  match s with
  | String c (String d rest) =>
      if Ascii.eqb c "0"%char
      then (if Ascii.eqb d "}"%char then match rest with EmptyString => Some 0 | _ => None end
            else None)
      else match digit c with Some _ => digits 0 s | None => None end
  | _ => None
  end.

(** [JSON.parse] on a sentinel line, and on text that is no JSON. *)
Definition parse_line (line : string) : option json :=
  if String.prefix sentinel_prefix line then
    let rest := Str.skip (Str.len sentinel_prefix) line in
    match rest with
    | String c rest' =>
        if Ascii.eqb c "-"%char
        then match integer rest' with
             | Some n => Some (JObj [("__exit_code__", JNum (- n))])
             | None => None
             end
        else match integer rest with
             | Some n => Some (JObj [("__exit_code__", JNum n)])
             | None => None
             end
    | EmptyString => None
    end
  else None.

Definition runtime : Runtime := {|
  JSON_parse := parse_line;
  trim := trim_ascii;
  toLowerCase := lower_ascii;
  replaceAll := replace_literal;
  basename := last_segment;
  path_resolve := fun p => p;
  settingsPath := "/home/user/.claude/settings.json";
  win32 := false;
  dateOfString := fun _ => None;
  normalizeEvents := fun _ _ => Some []
|}.

End Posix.

(** ** Properties of records, used to state the theorems *)

(** The consistency of the two completion fields: [completedAt] is [null]
    exactly while the record is running. *)
Definition completion_consistent (a : AgentProcess) : Prop :=
  status a = RUNNING <-> completedAt a = None.

(** [a'] is [a] after some steps of the code: the fields fixed at creation
    are the same, the event cache has only grown, the read offset has not
    gone back, and the status and the completion time are either both as
    they were or the record is terminal with a completion time. *)
Record evolves (a a' : AgentProcess) : Prop := {
  ev_agentId : agentId a' = agentId a;
  ev_taskName : taskName a' = taskName a;
  ev_agentType : agentType a' = agentType a;
  ev_prompt : prompt a' = prompt a;
  ev_cwd : cwd a' = cwd a;
  ev_workspaceDir : workspaceDir a' = workspaceDir a;
  ev_mode : mode a' = mode a;
  ev_pid : pid a' = pid a;
  ev_startedAt : startedAt a' = startedAt a;
  ev_parentSessionId : parentSessionId a' = parentSessionId a;
  ev_events : exists more, eventsCache a' = (eventsCache a ++ more)%list;
  ev_offset : lastReadPos a <= lastReadPos a';
  ev_status :
    (status a' = status a /\ completedAt a' = completedAt a) \/
    (status a' <> RUNNING /\ completedAt a' <> None)
}.


(** The bytes of the log that [readNewEvents] has not read yet. *)
Definition unread (w : World) (a : AgentProcess) : string :=
  match store w !! agentId a with
  | Some {| stdout := Some log |} => Str.skip (lastReadPos a) (content log)
  | _ => ""
  end.

(** What [loadFromDisk] makes of an optional string that was saved:
    [m.k || null] turns the empty string into [null]. *)
Definition reloaded_string (o : option string) : option string :=
  match o with
  | Some s => if Str.nonempty s then Some s else None
  | None => None
  end.

(** The record [loadFromDisk] builds from the meta that [saveMeta] wrote for
    [a]. *)
Definition reloaded (a : AgentProcess) : AgentProcess :=
  new_AgentProcess (agentId a)
    (if Str.nonempty (taskName a) then taskName a else "default")
    (agentType a) (prompt a) (reloaded_string (cwd a))
    (match mode a with edit => edit | _ => plan end)
    (if pid_truthy (pid a) then pid a else None)
    RUNNING (startedAt a) (completedAt a)
    (reloaded_string (parentSessionId a)) (reloaded_string (workspaceDir a)).

(** The fields of the resume chain, which [agents.d.ts] declares and the
    tests set. *)
Definition conversation_keys : list string :=
  ["session_id"; "conversation_turn"; "original_agent_id"; "reply_agent_ids"].

(** The world with [meta.json] of the directory [id] replaced. *)
Definition with_meta (w : World) (id : string) (m : json) : World :=
  with_store w (<[id := {| meta := Some m;
                           stdout := match store w !! id with
                                     | Some d => stdout d
                                     | None => None
                                     end |}]> (store w)).

(** ** Scenarios

    Concrete records and worlds, on the runtime [Posix.runtime]. *)

Module Scenario.
Import Posix.
#[local] Existing Instance runtime.

Definition no_launch : Launch :=
  {| uuid := "0a1b2c3d"; mkdirError := None; launchError := None; childPid := Some 4242 |}.

(** A world with an empty store, in which no process of interest lives. *)
Definition quiet : World :=
  {| store := ∅; alive := []; now := 1704200000000;
     installed := [(codex, "/usr/bin/codex")]; paths := [];
     launches := fun _ => no_launch; launched := 0; metaWrites := []; scans := 0 |}.

(** [quiet] with a log for the agent [id]. *)
Definition with_log (w : World) (id : string) (text : string) (modified : Z) : World :=
  with_store w (<[id := {| meta := match store w !! id with
                                   | Some d => meta d
                                   | None => None
                                   end;
                           stdout := Some {| content := text; mtime := modified |} |}]>
                  (store w)).

Definition sentinel (exitCode : string) : string :=
  sentinel_prefix +:+ exitCode +:+ "}" +:+ Command.nl.

(** The record of the test "uses stdout log mtime for completion when events
    lack timestamps": started 2024-01-01T00:00:00Z, with the pid 999999 of
    no process, and a log of one line of plain text, last modified
    2024-01-02T03:04:05Z. *)
Definition orphan : AgentProcess :=
  new_AgentProcess "agent-mtime" "mtime-task" codex "Test prompt" None plan
                   (Some 999999) RUNNING 1704067200000 None None None.

Definition orphan_world : World :=
  with_log quiet "agent-mtime" ("plain text line without json" +:+ Command.nl) 1704164645000.

(** A record whose wrapper reported the exit code 1, and whose log then
    receives a second sentinel, with the exit code 0. *)
Definition wrapped : AgentProcess :=
  new_AgentProcess "agent-w" "task-w" codex "Test prompt" None plan
                   (Some 999998) RUNNING 1704067200000 None None None.

Definition first_report : World :=
  with_log quiet "agent-w" (sentinel "1") 1704067201000.

Definition second_report : World :=
  with_log quiet "agent-w" (sentinel "1" +:+ sentinel "0") 1704067202000.

(** The record of the test "reply chain tracking", as [agents.js] builds it:
    the constructor takes thirteen parameters, and the session id, the turn,
    the original agent id and the reply ids passed after them are dropped. *)
Definition chain_original : AgentProcess :=
  new_AgentProcess "chain-original" "chain-task" claude "original prompt" None plan
                   None COMPLETED 1704067200000 (Some 1704067200000) None None.

(** The meta that the test expects on disk for that record. *)
Definition chain_meta_expected : json :=
  match metaOf chain_original with
  | JObj fields =>
      JObj (fields ++ [("session_id", JStr "session-xyz"); ("conversation_turn", JNum 0);
                       ("original_agent_id", JNull); ("reply_agent_ids", JArr [JStr "reply-1"])])
  | other => other
  end.

(** The default configuration with the command of one agent kind
    overridden, as the tests of [buildCommand] set it. *)
Definition overriding (t : AgentType) (c : string) : option (AgentType -> AgentConfig) :=
  Some (fun k =>
          if AgentType_eqb k t
          then {| command := c;
                  enabled := enabled (Command.loadDefaultAgentConfigs k);
                  models := models (Command.loadDefaultAgentConfigs k);
                  provider := provider (Command.loadDefaultAgentConfigs k) |}
          else Command.loadDefaultAgentConfigs k).

(** A store with one finished record, for a manager to start on. *)
Definition finished : AgentProcess :=
  new_AgentProcess "idem-test" "task-1" claude "test prompt" None plan
                   None COMPLETED 1704100000000 (Some 1704100000000) None None.

Definition one_record : World := saveMeta quiet finished.



(** A manager started on [one_record], and asked twice for the record. *)
Definition started : World * AgentManager := construct 50 10 plan None 7 None one_record.

Definition asked_once : World * AgentManager * option AgentProcess :=
  get (snd started) (fst started) "idem-test".

Definition asked_twice : World * AgentManager * option AgentProcess :=
  get (snd (fst asked_once)) (fst (fst asked_once)) "idem-test".

(** The test "initialize() is idempotent": after the manager has started,
    the meta file of its record is overwritten with stale data, and
    [initialize] is called again. *)
Definition stale : AgentProcess :=
  new_AgentProcess "idem-test" "task-1" claude "stale prompt" None plan
                   None COMPLETED 1704100000000 (Some 1704100000000) None None.

Definition initialized_again : World * AgentManager :=
  initialize (snd started) (saveMeta (fst started) stale).

End Scenario.

(** ** Properties of worlds and managers, used to state the theorems *)

(** [w'] differs from [w] at most in the store and in the record of the
    meta files written: no process has started or ended, no directory scan
    and no launch has been made. *)
Record same_frame (w w' : World) : Prop := {
  fr_alive : alive w' = alive w;
  fr_now : now w' = now w;
  fr_installed : installed w' = installed w;
  fr_paths : paths w' = paths w;
  fr_launches : launches w' = launches w;
  fr_launched : launched w' = launched w;
  fr_scans : scans w' = scans w
}.

(** The state in which [spawn] counts the running records: after
    [initialize] and the refresh of [listRunning]. *)
Definition admission {R : Runtime} (m : AgentManager) (w : World)
  : World * AgentManager * list AgentProcess :=
  listRunning (snd (initialize m w)) (fst (initialize m w)).

(** ** Words of a command line, to state what the splitter does *)

Module Words.
Import Str.

(** A character that [splitCommandTemplate] copies outside quotes. *)
Definition bare_char (c : ascii) : bool :=
  negb (Ascii.eqb c squote || Ascii.eqb c dquote || Ascii.eqb c space || Ascii.eqb c tab).

Fixpoint all_chars (p : ascii -> bool) (s : string) : bool :=
  match s with
  | EmptyString => true
  | String c s' => p c && all_chars p s'
  end.

(** A word that needs no quoting. *)
Definition bare_word (w : string) : bool := nonempty w && all_chars bare_char w.

(** A word that single quotes can hold. *)
Definition quotable (w : string) : bool :=
  nonempty w && all_chars (fun c => negb (Ascii.eqb c squote)) w.

Definition single_quoted (w : string) : string := String squote w +:+ String squote "".

(** [words.join(' ')] *)
Definition join (ws : list string) : string := String.concat " " ws.

(** The end of [splitCommandTemplate], after the loop. *)
Definition finish (cmdStr : string) (st : list string * string * bool * bool)
  : result (list string) :=
  let '(result, current, inSingleQuote, inDoubleQuote) := st in
  let result := if nonempty current then (result ++ [current])%list else result in
  if inSingleQuote || inDoubleQuote then Throw (UnterminatedQuote cmdStr) else Ok result.

End Words.

(** ** Properties of stores and registries *)

Section Registry.
Context {R : Runtime}.



End Registry.

(** The entry [e] of a registry is filed under the id of its record. *)
Definition filed_entry (e : string * AgentProcess) : Prop := agentId (snd e) = fst e.

(** Ascending completion times. *)
Fixpoint ascending (l : list AgentProcess) : Prop :=
  match l with
  | [] => True
  | a :: l' => Forall (fun b => completedTime a <= completedTime b) l' /\ ascending l'
  end.

(** Is [k] the id of a record of [xs]? *)
Definition has_id (xs : list AgentProcess) (k : string) : bool :=
  existsb (fun a => String.eqb (agentId a) k) xs.

(** ** The command line ([cli.js]): arguments and summaries *)

Module CliArgs.

Definition WAIT_POLL_INTERVAL_MS : Z := 1000.
Definition WAIT_DEFAULT_TIMEOUT_MS : Z := 300000.
Definition WAIT_MAX_TIMEOUT_MS : Z := 600000.

(** The object [parseCliArgs] returns. *)
Record t := {
  subcommand : option string;
  taskName : option string;
  timeout : Z;
  help : bool
}.

Definition with_taskName (r : t) (v : string) : t :=
  {| subcommand := subcommand r; taskName := Some v; timeout := timeout r; help := help r |}.

Definition with_timeout (r : t) (ms : Z) : t :=
  {| subcommand := subcommand r; taskName := taskName r; timeout := ms; help := help r |}.

Definition with_help (r : t) : t :=
  {| subcommand := subcommand r; taskName := taskName r; timeout := timeout r; help := true |}.

Definition is_task_flag (arg : string) : bool := String.eqb arg "--task" || String.eqb arg "-t".

Definition is_help_flag (arg : string) : bool := String.eqb arg "--help" || String.eqb arg "-h".

Section WithParseInt.

(** [parseInt(s, 10)]; [None] is [NaN].  A value beyond every integer a
    caller can name ([Infinity]) is any integer above the maximum: the code
    only compares it with 0 and takes its minimum with the maximum. *)
Variable parseInt : string -> option Z.

(** The value of [--timeout]. *)
Definition read_timeout (r : t) (value : string) : t :=
  match parseInt value with
  | Some ms => if 0 <? ms then with_timeout r (Z.min ms WAIT_MAX_TIMEOUT_MS) else r
  | None => r
  end.

(** The [while] loop of [parseCliArgs] over the arguments from [args[i]]
    on.  An option that takes a value is one only when an argument follows
    it. *)
Fixpoint parse_loop (args : list string) (r : t) {struct args} : t :=
  match args with
  | [] => r
  | arg :: rest =>
      match rest with
      | value :: rest' =>
          if is_task_flag arg then parse_loop rest' (with_taskName r value)
          else if String.eqb arg "--timeout" then parse_loop rest' (read_timeout r value)
          else if is_help_flag arg then parse_loop rest (with_help r)
          else parse_loop rest r
      | [] => if is_help_flag arg then with_help r else r
      end
  end.

Definition defaults : t :=
  {| subcommand := None; taskName := None; timeout := WAIT_DEFAULT_TIMEOUT_MS; help := false |}.

(** [parseCliArgs] *)
Definition parseCliArgs (argv : list string) : t :=
  let args := skipn 2 argv in
  match args with
  | first :: rest =>
      if negb (String.prefix "-" first)
      then parse_loop rest {| subcommand := Some first; taskName := None;
                              timeout := WAIT_DEFAULT_TIMEOUT_MS; help := false |}
      else parse_loop args defaults
  | [] => defaults
  end.

End WithParseInt.

End CliArgs.

(** The counters of [sumStatusCounts]. *)
Record StatusCounts := {
  count_running : Z;
  count_completed : Z;
  count_failed : Z;
  count_stopped : Z
}.

Module CliSummary.

Definition countStatus (counts : StatusCounts) (a : AgentInfo) : StatusCounts :=
  if Js.is_string (info_status a) "running"
  then {| count_running := count_running counts + 1; count_completed := count_completed counts;
          count_failed := count_failed counts; count_stopped := count_stopped counts |}
  else if Js.is_string (info_status a) "completed"
  then {| count_running := count_running counts; count_completed := count_completed counts + 1;
          count_failed := count_failed counts; count_stopped := count_stopped counts |}
  else if Js.is_string (info_status a) "failed"
  then {| count_running := count_running counts; count_completed := count_completed counts;
          count_failed := count_failed counts + 1; count_stopped := count_stopped counts |}
  else if Js.is_string (info_status a) "stopped"
  then {| count_running := count_running counts; count_completed := count_completed counts;
          count_failed := count_failed counts; count_stopped := count_stopped counts + 1 |}
  else counts.

(** [sumStatusCounts] *)
Definition sumStatusCounts (agents : list AgentInfo) : StatusCounts :=
  fold_left countStatus agents
            {| count_running := 0; count_completed := 0; count_failed := 0; count_stopped := 0 |}.




(** Is the status of an entry the string [s]? *)
Definition has_status (s : string) (a : AgentInfo) : bool := Js.is_string (info_status a) s.

End CliSummary.

(** ** The completion monitor ([startAgentMonitor] of the server) *)

(** A JSON value of type string: a plain string or the text of an
    instant.  A plain string is taken not to be the text of an instant. *)
Inductive Text := Plain (s : string) | Instant (ms : Z).

#[global] Instance Text_eq_dec : EqDecision Text.
Proof. solve_decision. Defined.

#[global] Instance Text_countable : Countable Text :=
  inj_countable'
    (fun t => match t with Plain s => inl s | Instant ms => inr ms end)
    (fun x => match x with inl s => Plain s | inr ms => Instant ms end)
    (fun t => match t with Plain _ | Instant _ => eq_refl end).

Module Monitor.

(** [typeof v === "string" ? v : null] *)
Definition text_of (v : option json) : option Text :=
  match v with
  | Some (JStr s) => Some (Plain s)
  | Some (JIso ms) => Some (Instant ms)
  | _ => None
  end.

Definition is_running (t : Text) : bool :=
  match t with Plain s => String.eqb s "running" | Instant _ => false end.

(** The data of a logging message. *)
Record Notification := {
  n_task_name : option Text;
  n_agent_id : Text;
  n_agent_type : option Text;
  n_status : Text;
  n_duration_ms : Z;
  n_completed_at : Text
}.

Section WithDate.

(** [new Date(s).getTime()] for a plain string; [None] is [NaN]. *)
Variable Date_parse : string -> option Z.

(** [t ? new Date(t).getTime() : fallback] *)
Definition time_of (t : option Text) (fallback : Z) : option Z :=
  match t with
  | Some (Plain s) => if Str.nonempty s then Date_parse s else Some fallback
  | Some (Instant ms) => Some ms
  | None => Some fallback
  end.

(** [endMs > startMs ? endMs - startMs : 0]; a comparison with [NaN] is
    false. *)
Definition duration_ms (startMs endMs : option Z) : Z :=
  match startMs, endMs with
  | Some s, Some e => if s <? e then e - s else 0
  | _, _ => 0
  end.

Definition notification (now : Z) (m : json) (agentId status : Text) : Notification :=
  let startedAt := text_of (Js.get m "started_at") in
  let completedAt := text_of (Js.get m "completed_at") in
  {| n_task_name := text_of (Js.get m "task_name");
     n_agent_id := agentId;
     n_agent_type := text_of (Js.get m "agent_type");
     n_status := status;
     n_duration_ms := duration_ms (time_of startedAt 0) (time_of completedAt now);
     n_completed_at := match completedAt with Some t => t | None => Instant now end |}.

(** The loop that fills [knownStatuses] before the first tick.  Reading a
    field of [null] throws inside the [try], and the entry is skipped. *)
Definition populate_entry (known : gmap Text Text) (d : AgentDir) : gmap Text Text :=
  match meta d with
  | Some m =>
      match text_of (Js.get m "agent_id"), text_of (Js.get m "status") with
      | Some agentId, Some status => <[agentId := status]> known
      | _, _ => known
      end
  | None => known
  end.

Definition populate (w : World) : gmap Text Text :=
  fold_left populate_entry (map snd (map_to_list (store w))) ∅.

(** The loop of one tick.  Here the fields are read outside the inner
    [try]: at a meta that is [null] the read throws, and the outer [catch]
    ends the tick. *)
Fixpoint tick_loop (now : Z) (entries : list AgentDir) (known : gmap Text Text)
         (sent : list Notification) : gmap Text Text * list Notification :=
  match entries with
  | [] => (known, sent)
  | d :: rest =>
      match meta d with
      | None => tick_loop now rest known sent
      | Some JNull => (known, sent)
      | Some m =>
          match text_of (Js.get m "agent_id"), text_of (Js.get m "status") with
          | Some agentId, Some status =>
              let prevStatus := known !! agentId in
              let known := <[agentId := status]> known in
              if match prevStatus with Some p => is_running p | None => false end
                 && negb (is_running status)
              then tick_loop now rest known (sent ++ [notification now m agentId status])
              else tick_loop now rest known sent
          | _, _ => tick_loop now rest known sent
          end
      end
  end.

(** One run of the interval callback: the new [knownStatuses], and the
    messages it sends. *)
Definition tick (known : gmap Text Text) (w : World) : gmap Text Text * list Notification :=
  tick_loop (now w) (map snd (map_to_list (store w))) known [].

End WithDate.

(** The agent id and the status of a directory, when its meta holds both
    as strings. *)
Definition reported (d : AgentDir) : option (Text * Text) :=
  match meta d with
  | Some m =>
      match text_of (Js.get m "agent_id"), text_of (Js.get m "status") with
      | Some agentId, Some status => Some (agentId, status)
      | _, _ => None
      end
  | None => None
  end.

(** No two directories report the same agent id. *)
Definition distinct_ids (w : World) : Prop :=
  NoDup (map fst (omap reported (map snd (map_to_list (store w))))).

(** The directories of a listing before the first whose meta is [null]. *)
Fixpoint before_null (entries : list AgentDir) : list AgentDir :=
  match entries with
  | [] => []
  | d :: rest =>
      match meta d with
      | Some JNull => []
      | _ => d :: before_null rest
      end
  end.

(** [known] holds, for every directory of [entries], the status that the
    directory reports. *)
Definition agrees (known : gmap Text Text) (entries : list AgentDir) : Prop :=
  forall d id st, In d entries -> reported d = Some (id, st) -> known !! id = Some st.

Definition ids (entries : list AgentDir) : list Text := map fst (omap reported entries).

End Monitor.

(** ** computePathLCA *)

Module PathLCA.

Section WithPath.
Context {R : Runtime}.

(** Of the [path] module: [path.parse(p).root], [path.sep] and
    [path.join(root, ...parts)]. *)
Variable root_of : string -> string.
Variable sep : ascii.
Variable path_join : string -> list string -> string.

(** [p && p.trim()] *)
Definition validPath (p : string) : bool := Str.nonempty p && Str.nonempty (trim p).

(** [p.slice(root.length).split(path.sep).filter(Boolean)] *)
Definition partsOf (p : string) : list string :=
  List.filter Str.nonempty (Str.split_on sep (Str.skip (Str.len (root_of p)) p)).

Definition normalizeRoot (r : string) : string := if win32 then toLowerCase r else r.

(** [parsed.every(p => p.parts[i] === segment)] *)
Definition allMatch (parsed : list (string * list string)) (i : nat) (segment : string) : bool :=
  forallb (fun p => match snd p !! i with
                    | Some s => String.eqb s segment
                    | None => false
                    end) parsed.

(** The [for] loop, from the index [i] on, with [fuel] iterations left
    before [i] reaches [minLen]. *)
Fixpoint commonLoop (fuel i : nat) (parsed : list (string * list string))
         (commonParts : list string) : list string :=
  match fuel with
  | O => commonParts
  | S fuel' =>
      match head parsed ≫= (fun first => snd first !! i) with
      | Some segment =>
          if allMatch parsed i segment
          then commonLoop fuel' (S i) parsed (commonParts ++ [segment])
          else commonParts
      | None => commonParts
      end
  end.

(** [Math.min(...parsed.map(p => p.parts.length))], for a list that is not
    empty. *)
Definition minLen (parsed : list (string * list string)) : nat :=
  match parsed with
  | [] => O
  | first :: rest => fold_left (fun n p => Nat.min n (length (snd p))) rest (length (snd first))
  end.

(** [computePathLCA] *)
Definition computePathLCA (paths : list string) : option string :=
  let validPaths := List.filter validPath paths in
  match validPaths with
  | [] => None
  | [p] => Some (path_resolve p)
  | _ =>
      let resolved := map path_resolve validPaths in
      let parsed := map (fun p => (root_of p, partsOf p)) resolved in
      let root0 := match parsed with first :: _ => fst first | [] => "" end in
      let sameRoot :=
        forallb (fun p => String.eqb (normalizeRoot (fst p)) (normalizeRoot root0)) parsed in
      if negb sameRoot then None
      else
        let commonParts := commonLoop (minLen parsed) 0 parsed [] in
        match commonParts with
        | [] => None
        | _ => Some (path_join root0 commonParts)
        end
  end.

(** [common] is the longest list of segments that every path starts
    with. *)
Definition deepest_common (common : list string) (parts : list (list string)) : Prop :=
  Forall (fun p => common `prefix_of` p) parts /\
  forall other, Forall (fun p => other `prefix_of` p) parts -> other `prefix_of` common.

End WithPath.

End PathLCA.

(** ** Ralph mode ([ralph.js]) *)

Module Ralph.

Section WithRuntime.
Context {R : Runtime}.

(** [os.homedir()] and [path.sep]. *)
Variable homedir : string.
Variable sep : string.

(** The table of [isDangerousPath]: a path, and whether the paths below it
    count as well. *)
Definition dangerousPaths : list (string * bool) :=
  [(homedir, false); ("/", true); ("/System", true); ("/usr", true); ("/bin", true);
   ("/sbin", true); ("/etc", true)].

(** [isDangerousPath] *)
Definition isDangerousPath (cwd : string) : bool :=
  let normalizedCwd := path_resolve cwd in
  existsb (fun entry =>
             let normalizedDangerous := path_resolve (fst entry) in
             String.eqb normalizedCwd normalizedDangerous ||
             (snd entry && String.prefix (normalizedDangerous +:+ sep) normalizedCwd))
          dangerousPaths.

End WithRuntime.

(** The system directories of the table. *)
Definition systemDirectories : list string := ["/System"; "/usr"; "/bin"; "/sbin"; "/etc"].

End Ralph.

(** ** The configuration file ([persistence.js]) *)

Module Persistence.

(** [ALL_AGENTS]: the kinds the configuration knows; copilot is not among
    them. *)
Definition ALL_AGENTS : list string := ["claude"; "codex"; "gemini"; "cursor"; "opencode"].

(** [o[k] = v] on an object given by the list of its own properties, in
    the order in which they were assigned. *)
Fixpoint assign (k : string) (v : json) (o : list (string * json)) : list (string * json) :=
  match o with
  | [] => [(k, v)]
  | (k', v') :: o' => if String.eqb k k' then (k, v) :: o' else (k', v') :: assign k v o'
  end.

(** The index [i] as a property name. *)
Definition indexKey (i : nat) : string := NilZero.string_of_uint (Nat.to_uint i).

(** [Object.entries(v)] for an object or an array; the characters of a
    string, which [Object.entries] lists under their indices too, are not
    modelled, the code calls it on no string. *)
Definition entries (v : json) : list (string * json) :=
  match v with
  | JObj fields => fields
  | JArr items => imap (fun i x => (indexKey i, x)) items
  | _ => []
  end.

(** [v && typeof v === 'object'] *)
Definition isObject (v : option json) : bool :=
  match v with
  | Some (JObj _) | Some (JArr _) => true
  | _ => false
  end.

(** [{ ...base, ...v }] for an object [v].  Spreading a number, a boolean
    or [null] adds nothing; the index properties that spreading a string or
    an array adds are left out, no code reads them. *)
Definition spread (base : list (string * json)) (v : json) : list (string * json) :=
  match v with
  | JObj fields => fold_left (fun o e => assign (fst e) (snd e) o) fields base
  | _ => base
  end.

(** The table of [getDefaultAgentConfig]; its literals are those of
    [loadDefaultAgentConfigs] in [agents.js]. *)
Definition defaultFields (c : AgentConfig) : list (string * json) :=
  [("command", JStr (command c)); ("enabled", JBool (enabled c));
   ("models", JObj [("fast", JStr (fast (models c)));
                    ("default", JStr (default_model (models c)));
                    ("detailed", JStr (detailed (models c)))]);
   ("provider", JStr (provider c))].

(** [getDefaultAgentConfig], at a kind of [ALL_AGENTS]. *)
Definition getDefaultAgentConfig (agentType : string) : option (list (string * json)) :=
  if existsb (String.eqb agentType) ALL_AGENTS
  then option_map (fun t => defaultFields (Command.loadDefaultAgentConfigs t))
                  (AgentType_of_name agentType)
  else None.

(** [getDefaultProviderConfig] *)
Definition getDefaultProviderConfig : list (string * json) :=
  [("anthropic", JObj [("apiEndpoint", JStr "https://api.anthropic.com")]);
   ("openai", JObj [("apiEndpoint", JStr "https://api.openai.com/v1")]);
   ("google", JObj [("apiEndpoint", JStr "https://generativelanguage.googleapis.com/v1")]);
   ("custom", JObj [("apiEndpoint", JNull)])].

(** The [agents] object of [getDefaultSwarmConfig]. *)
Definition defaultAgents : list (string * json) :=
  omap (fun agentType => option_map (fun c => (agentType, JObj c))
                                    (getDefaultAgentConfig agentType))
       ALL_AGENTS.

(** [getDefaultSwarmConfig] *)
Definition getDefaultSwarmConfig : json :=
  JObj [("agents", JObj defaultAgents); ("providers", JObj getDefaultProviderConfig)].

(** The three files the module reads, each as the value [JSON.parse] gives
    for its text: [None] when the file is missing or holds no JSON. *)
Record ConfigFiles := {
  swarmConfig : option json;       (* ~/.agents/swarm/config.json *)
  legacyConfig : option json;      (* ~/.agents/config.json *)
  swarmifyConfig : option json     (* ~/.swarmify/agents/config.json *)
}.

(** [fs.writeFile(configPath, JSON.stringify(config))] *)
Definition writeConfig (files : ConfigFiles) (config : json) : ConfigFiles :=
  {| swarmConfig := Some config; legacyConfig := legacyConfig files;
     swarmifyConfig := swarmifyConfig files |}.

(** [defaultConfig.agents[agentType].enabled = true], for the loop over
    the list of the old format. *)
Definition enable (agents : list (string * json)) (agentType : json) : list (string * json) :=
  match agentType with
  | JStr name =>
      if existsb (String.eqb name) ALL_AGENTS then
        match Js.assoc name agents with
        | Some (JObj c) => assign name (JObj (assign "enabled" (JBool true) c)) agents
        | _ => agents
        end
      else agents
  | _ => agents
  end.

(** The test of [tryReadLegacyConfig] for the new format: [agents] is an
    object, and the first of its values is an object with [models]. *)
Definition isNewFormat (parsed : json) : bool :=
  isObject (Js.get parsed "agents") &&
  match head (map snd (entries (default JNull (Js.get parsed "agents")))) with
  | Some (JObj firstValue) => is_Some_b (Js.assoc "models" firstValue)
  | _ => false
  end.

(** [tryReadLegacyConfig], for the parsed content of the file; reading a
    property of [null] throws, and the [catch] answers [null]. *)
Definition tryReadLegacyConfig (file : option json) : option json :=
  match file with
  | None | Some JNull => None
  | Some parsed =>
      if isNewFormat parsed then Some parsed
      else
        match Js.get parsed "enabledAgents" with
        | Some (JArr enabledAgents) =>
            Some (JObj [("agents", JObj (fold_left enable enabledAgents defaultAgents));
                        ("providers", JObj getDefaultProviderConfig)])
        | _ => None
        end
  end.

(** [migrateLegacyConfig] *)
Definition migrateLegacyConfig (files : ConfigFiles) : ConfigFiles * option json :=
  match Js.or_else (tryReadLegacyConfig (legacyConfig files))
                   (tryReadLegacyConfig (swarmifyConfig files)) with
  | Some config => (writeConfig files config, Some config)
  | None => (files, None)
  end.

(** What [readConfig] returns; [agentConfigs] is an object, by its
    properties in the order of assignment, [providerConfigs] a value
    ([None] is [undefined]). *)
Record Config := {
  enabledAgents : list string;
  agentConfigs : list (string * json);
  providerConfigs : option json;
  hasConfig : bool
}.

(** The loop of [readConfig] over the agents of the file. *)
Definition mergeAgent (acc : list string * list (string * json)) (e : string * json)
  : list string * list (string * json) :=
  match getDefaultAgentConfig (fst e) with
  | None => acc
  | Some defaultAgentConfig =>
      let mergedAgentConfig := spread defaultAgentConfig (snd e) in
      let enabledAgents :=
        if match Js.assoc "enabled" mergedAgentConfig with
           | Some v => Js.truthy v
           | None => false
           end
        then (fst acc ++ [fst e])%list else fst acc in
      (enabledAgents, assign (fst e) (JObj mergedAgentConfig) (snd acc))
  end.

(** The loops that fill in what the file leaves out. *)
Definition fillAgent (agentConfigs : list (string * json)) (agentType : string)
  : list (string * json) :=
  match Js.assoc agentType agentConfigs with
  | Some v => if Js.truthy v then agentConfigs
              else match getDefaultAgentConfig agentType with
                   | Some c => assign agentType (JObj c) agentConfigs
                   | None => agentConfigs
                   end
  | None => match getDefaultAgentConfig agentType with
            | Some c => assign agentType (JObj c) agentConfigs
            | None => agentConfigs
            end
  end.

Definition fillProvider (providerConfigs : list (string * json)) (e : string * json)
  : list (string * json) :=
  match Js.assoc (fst e) providerConfigs with
  | Some v => if Js.truthy v then providerConfigs else assign (fst e) (snd e) providerConfigs
  | None => assign (fst e) (snd e) providerConfigs
  end.

(** The [try] block of [readConfig], for the parsed content of the file. *)
Definition readParsed (config : json) : Config :=
  let '(enabledAgents, agentConfigs) :=
    if isObject (Js.get config "agents")
    then fold_left mergeAgent (entries (default JNull (Js.get config "agents"))) ([], [])
    else ([], []) in
  let agentConfigs := fold_left fillAgent ALL_AGENTS agentConfigs in
  let providerConfigs :=
    if isObject (Js.get config "providers")
    then fold_left (fun o e => assign (fst e) (snd e) o)
                   (entries (default JNull (Js.get config "providers"))) []
    else [] in
  let providerConfigs := fold_left fillProvider getDefaultProviderConfig providerConfigs in
  {| enabledAgents := enabledAgents; agentConfigs := agentConfigs;
     providerConfigs := Some (JObj providerConfigs); hasConfig := true |}.

(** The loop of the [catch] block over the agents of a migrated
    configuration; reading [enabled] of [null] throws. *)
Definition adoptAgent (acc : option (list string * list (string * json))) (e : string * json)
  : option (list string * list (string * json)) :=
  match acc, snd e with
  | None, _ => None
  | Some _, JNull => None
  | Some (enabledAgents, agentConfigs), agentValue =>
      Some (if match Js.get agentValue "enabled" with
               | Some v => Js.truthy v
               | None => false
               end
            then (enabledAgents ++ [fst e])%list else enabledAgents,
            assign (fst e) agentValue agentConfigs)
  end.

(** [readConfig]: the files afterwards, and the result, [None] when the
    call throws. *)
Definition readConfig (files : ConfigFiles) : ConfigFiles * option Config :=
  match swarmConfig files with
  | Some JNull | None =>
      match migrateLegacyConfig files with
      | (files, Some migratedConfig) =>
          (files,
           match fold_left adoptAgent
                           (entries (default JNull (Js.get migratedConfig "agents")))
                           (Some ([], [])) with
           | Some (enabledAgents, agentConfigs) =>
               Some {| enabledAgents := enabledAgents; agentConfigs := agentConfigs;
                       providerConfigs := Js.get migratedConfig "providers";
                       hasConfig := true |}
           | None => None
           end)
      | (files, None) =>
          (writeConfig files getDefaultSwarmConfig,
           Some {| enabledAgents :=
                     map fst (List.filter
                                (fun e => match Js.get (snd e) "enabled" with
                                          | Some v => Js.truthy v
                                          | None => false
                                          end) defaultAgents);
                   agentConfigs := defaultAgents;
                   providerConfigs := Some (JObj getDefaultProviderConfig);
                   hasConfig := false |})
      end
  | Some config => (files, Some (readParsed config))
  end.

(** What the loop that fills in the defaults leaves under a key. *)
Definition filled (k : string) (x : option json) : option json :=
  match x with
  | Some v => if Js.truthy v then Some v
              else match getDefaultAgentConfig k with
                   | Some c => Some (JObj c)
                   | None => Some v
                   end
  | None => option_map JObj (getDefaultAgentConfig k)
  end.

End Persistence.

(** ** Inputs to apply the theorems to *)

Module Inputs.
Import Posix Scenario.
#[local] Existing Instance runtime.

(** The default templates of the codex and of the claude CLI. *)
Definition codex_template : list string :=
  ["codex"; "exec"; "--dangerously-bypass-approvals-and-sandbox"; "{prompt}"; "--json"].

Definition claude_template : list string :=
  ["claude"; "-p"; "--verbose"; "{prompt}"; "--output-format"; "stream-json";
   "--permission-mode"; "plan"].

(** The record [finished], as [loadFromDisk] reads it back. *)
Definition finished_reloaded : AgentProcess := set_status finished RUNNING.

(** A record that finished a day before [finished], and a store with both. *)
Definition older : AgentProcess :=
  new_AgentProcess "older" "task-1" claude "test prompt" None plan
                   None COMPLETED 1704000000000 (Some 1704013600000) None None.

(** A manager that keeps one finished record, and holds two. *)
Definition crowded : AgentManager :=
  with_agents (new_AgentManager 1 10 plan None 7 None)
              [("idem-test", finished); ("older", older)].


(** What the status command reports of the record [orphan]. *)
Definition orphan_info : AgentInfo :=
  {| info_agent_id := Some (JStr "agent-mtime");
     info_task_name := Some (JStr "mtime-task");
     info_agent_type := Some (JStr "codex");
     info_status := Some (JStr "completed");
     info_started_at := Some (JIso 1704067200000);
     info_completed_at := Some JNull |}.

(** The monitor's memory of the record [finished], when it was running,
    and the message about its completion. *)
Definition seen_running : gmap Text Text := {[ Plain "idem-test" := Plain "running" ]}.

Definition completion : Monitor.Notification :=
  {| Monitor.n_task_name := Some (Plain "task-1");
     Monitor.n_agent_id := Plain "idem-test";
     Monitor.n_agent_type := Some (Plain "claude");
     Monitor.n_status := Plain "completed";
     Monitor.n_duration_ms := 0;
     Monitor.n_completed_at := Instant 1704100000000 |}.

(** A [Date.parse] and a [parseInt] that read nothing. *)
Definition no_date (s : string) : option Z := None.

Definition no_int (s : string) : option Z := None.

(** A configuration file that names one agent kind, and no file at all. *)
Definition claude_only : json := JObj [("agents", JObj [("claude", JObj [("enabled", JBool true)])])].

Definition no_files : Persistence.ConfigFiles :=
  {| Persistence.swarmConfig := None; Persistence.legacyConfig := None;
     Persistence.swarmifyConfig := None |}.

(** A configuration file of the old format. *)
Definition old_format : json := JObj [("enabledAgents", JArr [JStr "claude"; JStr "copilot"])].

End Inputs.

(** * Theorems *)

Module TemplateFacts.
Import Str Template.

Lemma append_cons (a : ascii) (s t : string) : String a s +:+ t = String a (s +:+ t).
Proof. reflexivity. Qed.

Lemma append_empty_r (s : string) : s +:+ "" = s.
Proof.
  induction s as [|a s IH]; [reflexivity|].
  now rewrite append_cons, IH.
Qed.

Lemma append_assoc (a b c : string) : (a +:+ b) +:+ c = a +:+ (b +:+ c).
Proof.
  induction a as [|x a IH]; [reflexivity|].
  now rewrite !append_cons, IH.
Qed.

Lemma cut_cons (ps : list piece) : exists w ws, cut ps = w :: ws.
Proof.
  induction ps as [|[c|] ps [w [ws E]]]; simpl; eauto.
  rewrite E; eauto.
Qed.

Lemma loop_unquote_len (n : nat) :
  forall s, (String.length s <= n)%nat ->
  forall q r c,
    split_loop s r c (flagS q) (flagD q) =
    let '(ps, q') := unquote q s in
    let '(r', c') := fold_left feed ps (r, c) in
    (r', c', flagS q', flagD q').
Proof.
  induction n as [|n IH]; intros [|a t] Hlen q r c;
    try reflexivity; try (simpl in Hlen; lia).
  assert (Ht : (String.length t <= n)%nat) by (simpl in Hlen; lia).
  pose proof (IH t Ht) as IHt.
  destruct q; simpl.
  - (* outside quotes *)
    destruct (Ascii.eqb a squote); [exact (IHt Single r c)|].
    destruct (Ascii.eqb a dquote); [exact (IHt Double r c)|].
    destruct (Ascii.eqb a space || Ascii.eqb a tab).
    + destruct (nonempty c) eqn:Hc.
      * refine (eq_trans (IHt Bare (r ++ [c])%list "") _).
        destruct (unquote Bare t) as [ps q'].
        cbn [fold_left feed fst snd]. rewrite Hc. reflexivity.
      * refine (eq_trans (IHt Bare r c) _).
        destruct (unquote Bare t) as [ps q'].
        cbn [fold_left feed fst snd]. rewrite Hc. reflexivity.
    + refine (eq_trans (IHt Bare r (push c a)) _).
      destruct (unquote Bare t) as [ps q']. reflexivity.
  - (* inside single quotes *)
    destruct (Ascii.eqb a squote); [exact (IHt Bare r c)|].
    refine (eq_trans (IHt Single r (push c a)) _).
    destruct (unquote Single t) as [ps q']. reflexivity.
  - (* inside double quotes *)
    destruct (Ascii.eqb a dquote).
    { destruct t; exact (IHt Bare r c). }
    change (split_loop t r (push c a) false true)
      with (split_loop t r (push c a) (flagS Double) (flagD Double)).
    rewrite (IHt Double r (push c a)).
    destruct t as [|b u]; [destruct (Ascii.eqb a backslash); reflexivity|].
    assert (Hu : (String.length u <= n)%nat) by (simpl in Ht; lia).
    destruct (Ascii.eqb a backslash); cbn [andb];
      [|destruct (unquote Double (String b u)) as [ps q']; reflexivity].
    destruct (Ascii.eqb b dquote || Ascii.eqb b backslash).
    + refine (eq_trans (IH u Hu Double r (push c b)) _).
      destruct (unquote Double u) as [ps q']. reflexivity.
    + destruct (unquote Double (String b u)) as [ps q']. reflexivity.
Qed.

Lemma loop_unquote (s : string) (q : quoting) (r : list string) (c : string) :
  split_loop s r c (flagS q) (flagD q) =
  let '(ps, q') := unquote q s in
  let '(r', c') := fold_left feed ps (r, c) in
  (r', c', flagS q', flagD q').
Proof. now apply (loop_unquote_len (String.length s)). Qed.

Lemma feed_cut (ps : list piece) :
  forall r c,
    (let '(r', c') := fold_left feed ps (r, c) in
     if nonempty c' then (r' ++ [c'])%list else r') =
    (r ++ List.filter nonempty (glue c (cut ps)))%list.
Proof.
  induction ps as [|[ch|] ps IH]; intros r c.
  - cbn [fold_left cut glue]. rewrite append_empty_r.
    cbn [List.filter].
    destruct (nonempty c); [reflexivity | now rewrite app_nil_r].
  - cbn [fold_left feed fst snd cut]. rewrite IH.
    destruct (cut_cons ps) as [w [ws E]]. rewrite E. simpl.
    unfold push. now rewrite append_assoc.
  - cbn [fold_left feed fst snd cut glue]. rewrite append_empty_r.
    destruct (cut_cons ps) as [w [ws E]].
    destruct (nonempty c) eqn:Hc.
    + rewrite IH, E. simpl. rewrite Hc. now rewrite <- app_assoc.
    + rewrite IH, E. simpl. rewrite Hc.
      destruct c; [reflexivity | discriminate].
Qed.

Lemma split_refines (cmdStr : string) :
  splitCommandTemplate cmdStr =
  if unterminated cmdStr then Throw (UnterminatedQuote cmdStr) else Ok (words cmdStr).
Proof.
  unfold splitCommandTemplate, unterminated, words.
  change false with (flagS Bare) at 1. change false with (flagD Bare) at 1.
  rewrite loop_unquote.
  pose proof (feed_cut (fst (unquote Bare cmdStr)) [] "") as H.
  destruct (unquote Bare cmdStr) as [ps q']. cbn [fst snd] in *.
  destruct (fold_left feed ps ([], "")) as [r' c'].
  rewrite H. simpl.
  destruct (cut_cons ps) as [w [ws E]]. rewrite E. simpl.
  destruct q'; reflexivity.
Qed.

Example split_basic :
  splitCommandTemplate "codex exec --sandbox workspace-write {prompt} --json" =
  Ok ["codex"; "exec"; "--sandbox"; "workspace-write"; "{prompt}"; "--json"].
Proof. reflexivity. Qed.

Example split_single_quoted :
  splitCommandTemplate "gh copilot suggest '{prompt}' --output json" =
  Ok ["gh"; "copilot"; "suggest"; "{prompt}"; "--output"; "json"].
Proof. reflexivity. Qed.

(** my-cli "hello \"world\"" *)
Example split_escapes :
  splitCommandTemplate
    ("my-cli " +:+ String dquote ("hello \" +:+ String dquote ("world\"
       +:+ String dquote (String dquote "")))) =
  Ok ["my-cli"; "hello " +:+ String dquote ("world" +:+ String dquote "")].
Proof. reflexivity. Qed.

Example split_empty_quotes_vanish :
  splitCommandTemplate "a '' b" = Ok ["a"; "b"].
Proof. reflexivity. Qed.

Example split_unterminated :
  splitCommandTemplate "my-cli '{prompt}" = Throw (UnterminatedQuote "my-cli '{prompt}").
Proof. reflexivity. Qed.

(** C10.  [splitCommandTemplate] throws exactly on the templates that end
    inside a single or a double quote; on every other template it returns
    the words between the unquoted spaces and tabs (the empty ones left
    out), the quote characters removed, single-quoted text literal, and
    inside double quotes only a backslash before a double quote or a
    backslash dropped. *)
Theorem splitCommandTemplate_throws_iff_unterminated (cmdStr : string) :
  is_throw (splitCommandTemplate cmdStr) = unterminated cmdStr /\
  splitCommandTemplate cmdStr =
    (if unterminated cmdStr
     then Throw (UnterminatedQuote cmdStr)
     else Ok (words cmdStr)).
Proof.
  rewrite split_refines.
  split; [|reflexivity].
  destruct (unterminated cmdStr); reflexivity.
Qed.

End TemplateFacts.

Section ProcessFacts.
Context {R : Runtime}.

Lemma evolves_refl (a : AgentProcess) : evolves a a.
Proof.
  split; try reflexivity; try lia.
  - exists []. now rewrite app_nil_r.
  - left. split; reflexivity.
Qed.

Lemma evolves_trans (a b c : AgentProcess) : evolves a b -> evolves b c -> evolves a c.
Proof.
  intros [] [].
  split; try congruence; try lia.
  - destruct ev_events0 as [m1 E1], ev_events1 as [m2 E2].
    exists (m1 ++ m2)%list. now rewrite E2, E1, app_assoc.
  - destruct ev_status0 as [[S1 C1]|[S1 C1]], ev_status1 as [[S2 C2]|[S2 C2]].
    + left. split; congruence.
    + right. split; assumption.
    + right. split; congruence.
    + right. split; assumption.
Qed.

Lemma evolves_push (a : AgentProcess) (e : Event) : evolves a (push_event a e).
Proof.
  split; try reflexivity; simpl; try lia.
  - now exists [e].
  - left. split; reflexivity.
Qed.

Lemma evolves_finish (a : AgentProcess) (st : AgentStatus) (t : Z) :
  st <> RUNNING -> evolves a (set_completedAt (set_status a st) (Some t)).
Proof.
  intros Hst. split; try reflexivity; simpl; try lia.
  - exists []. now rewrite app_nil_r.
  - right. split; [assumption | discriminate].
Qed.

Lemma evolves_fold {A} (f : AgentProcess -> A -> AgentProcess) (l : list A) :
  (forall a x, evolves a (f a x)) -> forall a, evolves a (fold_left f l a).
Proof.
  intros Hf. induction l as [|x l IH]; intros a; simpl.
  - apply evolves_refl.
  - eapply evolves_trans; [apply Hf | apply IH].
Qed.

Lemma absorb_evolves (ts : Z) (a : AgentProcess) (e : NormalizedEvent) :
  evolves a (absorb ts a e).
Proof.
  unfold absorb.
  destruct (is_terminal_type (etype e)); [|apply evolves_push].
  destruct (status_is e "success" || String.eqb (etype e) "turn.completed").
  { eapply evolves_trans; [apply evolves_push | now apply evolves_finish]. }
  destruct (status_is e "error"); [|apply evolves_push].
  eapply evolves_trans; [apply evolves_push | now apply evolves_finish].
Qed.

Lemma unparsed_evolves (ts : Z) (a : AgentProcess) (line : string) :
  evolves a (unparsed ts a line).
Proof.
  unfold unparsed.
  destruct (isGeminiWin32Noise a line); [apply evolves_refl|].
  destruct (AgentType_eqb (agentType a) copilot); apply evolves_push.
Qed.

Lemma processLine_evolves (ts : Z) (a : AgentProcess) (line : string) :
  evolves a (processLine ts a line).
Proof.
  unfold processLine.
  destruct (JSON_parse line) as [rawEvent|]; [|apply unparsed_evolves].
  destruct (has_exit_code rawEvent).
  - destruct (Js.get rawEvent "__exit_code__") as [[| | [| |] | | | |]|];
      now apply evolves_finish.
  - destruct (normalizeEvents (agentType a) rawEvent) as [events|];
      [|apply unparsed_evolves].
    apply evolves_fold. intros; apply absorb_evolves.
Qed.

Lemma len_nonneg (s : string) : 0 <= Str.len s.
Proof. unfold Str.len. lia. Qed.


Lemma readNewEvents_evolves (w : World) (a : AgentProcess) : evolves a (readNewEvents w a).
Proof.
  unfold readNewEvents.
  destruct (store w !! agentId a) as [[m [log|]]|]; try apply evolves_refl.
  set (newContent := Str.take bufferLength (Str.skip (lastReadPos a) (content log))).
  destruct (Str.len newContent =? 0) eqn:E; [apply evolves_refl|].
  eapply evolves_trans; [|apply evolves_fold; intros; apply processLine_evolves].
  pose proof (len_nonneg newContent).
  split; try reflexivity; simpl; try lia.
  - exists []. now rewrite app_nil_r.
  - left. split; reflexivity.
Qed.

Lemma processLine_offset (ts : Z) (a : AgentProcess) (line : string) :
  lastReadPos (processLine ts a line) = lastReadPos a.
Proof.
  assert (Habsorb : forall t evs b,
             lastReadPos (fold_left (absorb t) evs b) = lastReadPos b).
  { intros t. induction evs as [|e evs IH]; intros b; simpl; [reflexivity|].
    rewrite IH. unfold absorb.
    destruct (is_terminal_type (etype e)); [|reflexivity].
    destruct (status_is e "success" || String.eqb (etype e) "turn.completed");
      [reflexivity|].
    destruct (status_is e "error"); reflexivity. }
  assert (Hunparsed : forall t, lastReadPos (unparsed t a line) = lastReadPos a).
  { intros t. unfold unparsed.
    destruct (isGeminiWin32Noise a line); [reflexivity|].
    destruct (AgentType_eqb (agentType a) copilot); reflexivity. }
  unfold processLine.
  destruct (JSON_parse line) as [rawEvent|]; [|apply Hunparsed].
  destruct (has_exit_code rawEvent).
  - destruct (Js.get rawEvent "__exit_code__") as [[| | [| |] | | | |]|]; reflexivity.
  - destruct (normalizeEvents (agentType a) rawEvent); [apply Habsorb | apply Hunparsed].
Qed.

(** The read offset advances by the bytes read, and by nothing else: the
    bytes of a log are read in order, each once. *)
Lemma readNewEvents_offset (w : World) (a : AgentProcess) :
  lastReadPos (readNewEvents w a) =
  lastReadPos a + Str.len (Str.take bufferLength (unread w a)).
Proof.
  assert (Hnil : Str.len (Str.take bufferLength "") = 0) by reflexivity.
  unfold readNewEvents, unread.
  destruct (store w !! agentId a) as [[m [log|]]|]; try (rewrite Hnil; lia).
  destruct (Str.len _ =? 0) eqn:E.
  - apply Z.eqb_eq in E. lia.
  - assert (H : forall ls b, lastReadPos (fold_left (processLine (mtime log)) ls b) =
                             lastReadPos b).
    { induction ls as [|l ls IH]; intros b; simpl; [reflexivity|].
      now rewrite IH, processLine_offset. }
    now rewrite H.
Qed.



End ProcessFacts.

Section PersistenceFacts.
Context {R : Runtime}.

Lemma AgentType_of_name_name (t : AgentType) : AgentType_of_name (AgentType_name t) = Some t.
Proof. destruct t; reflexivity. Qed.

Lemma AgentStatus_lookup_value (st : AgentStatus) :
  AgentStatus_lookup (AgentStatus_value st) = Missing.
Proof. destruct st; reflexivity. Qed.

Lemma Mode_name_edit (md : Mode) :
  (if String.eqb (Mode_name md) "edit" then edit else plan) =
  match md with edit => edit | _ => plan end.
Proof. destruct md; reflexivity. Qed.

Lemma store_saveMeta (w : World) (a : AgentProcess) :
  store (saveMeta w a) =
  <[agentId a := {| meta := Some (metaOf a);
                    stdout := match store w !! agentId a with
                              | Some d => stdout d
                              | None => None
                              end |}]> (store w).
Proof. reflexivity. Qed.

(** What a restart makes of a saved record. *)
Lemma loadFromDisk_saveMeta (w : World) (a : AgentProcess) :
  loadFromDisk (saveMeta w a) (agentId a) = Some (reloaded a).
Proof.
  unfold loadFromDisk. rewrite store_saveMeta, lookup_insert_eq.
  destruct a as [id task kind pr cw wd md p st started comp parent evs pos].
  unfold read_string, read_string_or_null, read_number_or_null, read_date,
    read_date_or_null, read_status, Js.get_truthy, Js.is_string, reloaded.
  cbn -[AgentType_of_name AgentType_name AgentStatus_lookup AgentStatus_value Mode_name].
  rewrite AgentType_of_name_name, AgentStatus_lookup_value, Mode_name_edit.
  destruct task, cw as [[|]|], wd as [[|]|], p as [[| |]|], comp, parent as [[|]|];
    reflexivity.
Qed.

(** C9.  For every stored meta.json whose status is one of the four
    lower-case strings that [saveMeta] writes, [loadFromDisk] returns a
    record, and that record is running: the enum has upper-case keys only,
    the lookup finds nothing and the fallback applies. *)
Theorem loadFromDisk_lowercase_status_loads_running
    (w : World) (id : string) (dir : AgentDir) (fields : list (string * json))
    (s : string) :
  store w !! id = Some dir ->
  meta dir = Some (JObj fields) ->
  well_typed_meta (JObj fields) = true ->
  Js.assoc "status" fields = Some (JStr s) ->
  In s ["running"; "completed"; "failed"; "stopped"] ->
  exists a, loadFromDisk w id = Some a /\ status a = RUNNING.
Proof.
  intros Hdir Hmeta Htyped Hstatus Hs.
  unfold loadFromDisk. rewrite Hdir. cbn [mbind option_bind]. rewrite Hmeta.
  cbn [mbind option_bind].
  unfold well_typed_meta in Htyped.
  repeat (apply andb_prop in Htyped as [Htyped ?]).
  repeat match goal with
         | H : is_Some_b ?o = true |- _ =>
             destruct o eqn:?; [clear H | discriminate H]
         end.
  assert (Hst : read_status (JObj fields) = Some RUNNING).
  { unfold read_status. cbn [Js.get]. rewrite Hstatus.
    simpl in Hs. destruct Hs as [<-|[<-|[<-|[<-|[]]]]]; reflexivity. }
  rewrite Hst. cbn [mbind option_bind].
  eexists. split; reflexivity.
Qed.

End PersistenceFacts.

Section ReconcileFacts.
Context {R : Runtime}.

Lemma isProcessAlive_dead (w : World) (a : AgentProcess) :
  pid_truthy (pid a) = true -> isProcessAlive w a = false ->
  reapProcess w a = Some 1.
Proof.
  unfold pid_truthy, isProcessAlive, reapProcess.
  destruct (pid a) as [p|]; [|discriminate].
  destruct (p =? 0); [discriminate|].
  now intros _ ->.
Qed.

Lemma AgentStatus_eqb_eq (x y : AgentStatus) : AgentStatus_eqb x y = true <-> x = y.
Proof. destruct x, y; simpl; split; congruence. Qed.

Lemma AgentStatus_eqb_neq (x y : AgentStatus) : AgentStatus_eqb x y = false <-> x <> y.
Proof. destruct x, y; simpl; split; congruence. Qed.

(** The reconciliation of a record whose process is gone, while the record
    is running and its log holds no terminal event: the exit code that
    [reapProcess] reports for a vanished process is 1, and the record is
    marked failed. *)
Lemma updateStatusFromProcess_gone_marks_failed (w : World) (a : AgentProcess) :
  pid_truthy (pid a) = true ->
  isProcessAlive w a = false ->
  status a = RUNNING ->
  status (readNewEvents w a) = RUNNING ->
  let a' := snd (updateStatusFromProcess w a) in
  status a' = FAILED /\
  completedAt a' =
    Some (match getLatestEventTime (readNewEvents w a) with
          | Some t => t
          | None => startedAt a
          end).
Proof.
  intros Hpid Hdead Hrun Hstill. unfold updateStatusFromProcess.
  rewrite Hpid, Hdead. cbn [negb].
  rewrite Hrun. cbn [AgentStatus_eqb]. rewrite Hstill. cbn [AgentStatus_eqb].
  rewrite (isProcessAlive_dead _ _ Hpid Hdead). cbn.
  split; [reflexivity|].
  unfold fallbackCompletion.
  rewrite (ev_startedAt _ _ (readNewEvents_evolves w a)).
  destruct (getLatestEventTime (readNewEvents w a)); reflexivity.
Qed.

(** The result of the reconciliation of a record whose process is gone. *)
Lemma updateStatusFromProcess_gone (w : World) (a : AgentProcess) :
  pid_truthy (pid a) = true ->
  isProcessAlive w a = false ->
  exists a', updateStatusFromProcess w a = (saveMeta w a', a') /\
             evolves a a' /\ status a' <> RUNNING /\ completedAt a' <> None /\
             (status a <> RUNNING -> completedAt a <> None -> a' = a).
Proof.
  intros Hpid Hdead. unfold updateStatusFromProcess.
  rewrite Hpid, Hdead. cbn [negb].
  pose proof (readNewEvents_evolves w a) as Hread.
  assert (Hf : exists t, fallbackCompletion w (readNewEvents w a) = Some t).
  { unfold fallbackCompletion, Js.or_else.
    destruct (getLatestEventTime _); eauto. }
  destruct Hf as [t Hf].
  destruct (AgentStatus_eqb (status a) RUNNING) eqn:Hst.
  - apply AgentStatus_eqb_eq in Hst.
    destruct (AgentStatus_eqb (status (readNewEvents w a)) RUNNING) eqn:Hst'.
    + eexists. split; [reflexivity|].
      rewrite (isProcessAlive_dead _ _ Hpid Hdead), Hf. cbn [Z.eqb].
      refine (conj _ (conj _ (conj _ _))); try discriminate; try congruence.
      eapply evolves_trans; [exact Hread | now apply evolves_finish].
    + apply AgentStatus_eqb_neq in Hst'.
      eexists. split; [reflexivity|].
      refine (conj Hread (conj Hst' (conj _ _))); try congruence.
      destruct (ev_status _ _ Hread) as [[S1 _]|[_ C1]]; [congruence | exact C1].
  - apply AgentStatus_eqb_neq in Hst.
    destruct (completedAt a) as [t0|] eqn:Hc.
    + eexists. split; [reflexivity|].
      refine (conj (evolves_refl a) (conj Hst (conj _ _))); congruence.
    + eexists. split; [reflexivity|].
      rewrite Hf.
      assert (Hst' : status (readNewEvents w a) <> RUNNING).
      { destruct (ev_status _ _ Hread) as [[S1 _]|[S1 _]]; congruence. }
      refine (conj _ (conj Hst' (conj _ _))); try discriminate; try congruence.
      destruct Hread. split; simpl; try assumption.
      right. split; [assumption | discriminate].
Qed.

End ReconcileFacts.

Section StatusFacts.
Context {R : Runtime}.


Lemma stopAgent_evolves (w w' : World) (a a' : AgentProcess) :
  stopAgent w a = Some (w', a') ->
  status a = RUNNING /\ a' = set_completedAt (set_status a STOPPED) (Some (now w)).
Proof.
  unfold stopAgent.
  destruct (pid_truthy (pid a) && isRunning a) eqn:E; [|discriminate].
  apply andb_prop in E as [_ E]. apply AgentStatus_eqb_eq in E.
  intros [= <- <-]. split; [assumption | reflexivity].
Qed.

Lemma updateStatusFromProcess_evolves (w : World) (a : AgentProcess) :
  evolves a (snd (updateStatusFromProcess w a)).
Proof.
  destruct (pid_truthy (pid a)) eqn:Hpid.
  - destruct (isProcessAlive w a) eqn:Halive.
    + unfold updateStatusFromProcess. rewrite Hpid, Halive. apply readNewEvents_evolves.
    + destruct (updateStatusFromProcess_gone w a Hpid Halive) as [a' [-> [H _]]]. exact H.
  - unfold updateStatusFromProcess. rewrite Hpid. apply evolves_refl.
Qed.

Lemma updateStatusFromProcess_terminal (w : World) (a : AgentProcess) :
  status a <> RUNNING -> completedAt a <> None ->
  snd (updateStatusFromProcess w a) = a \/
  snd (updateStatusFromProcess w a) = readNewEvents w a.
Proof.
  intros Hst Hc.
  destruct (pid_truthy (pid a)) eqn:Hpid.
  - destruct (isProcessAlive w a) eqn:Halive.
    + right. unfold updateStatusFromProcess. now rewrite Hpid, Halive.
    + destruct (updateStatusFromProcess_gone w a Hpid Halive) as [a' [-> [_ [_ [_ H]]]]].
      left. now apply H.
  - left. unfold updateStatusFromProcess. now rewrite Hpid.
Qed.

Lemma evolves_consistent (a a' : AgentProcess) :
  completion_consistent a -> evolves a a' -> completion_consistent a'.
Proof.
  unfold completion_consistent. intros Ha H.
  destruct (ev_status _ _ H) as [[-> ->]|[S1 C1]]; [exact Ha|].
  split; intros; contradiction.
Qed.

Lemma evolves_stays_terminal (a a' : AgentProcess) :
  status a <> RUNNING -> evolves a a' -> status a' <> RUNNING.
Proof.
  intros Ha H. destruct (ev_status _ _ H) as [[-> _]|[S1 _]]; assumption.
Qed.

(** C2, as the code has it.  Let a record be consistent ([completedAt] is
    null exactly while it is running), and let [a'] be the record after
    [readNewEvents], after [updateStatusFromProcess], or after the stop of a
    running record.  Then [a'] is consistent again; a record that was
    terminal is terminal; and a terminal record is either unchanged or what
    [readNewEvents] makes of it: only the events and sentinels that
    [readNewEvents] parses set the status and the completion time of a
    terminal record again. *)
Theorem status_moves_forward (w : World) (a a' : AgentProcess) :
  completion_consistent a ->
  (a' = readNewEvents w a \/
   a' = snd (updateStatusFromProcess w a) \/
   exists w', stopAgent w a = Some (w', a')) ->
  completion_consistent a' /\
  (status a <> RUNNING -> status a' <> RUNNING /\ (a' = a \/ a' = readNewEvents w a)).
Proof.
  intros Hcons [->|[->|[w' Hstop]]].
  - pose proof (readNewEvents_evolves w a) as H.
    split; [eapply evolves_consistent; eassumption|].
    intros Hst. split; [eapply evolves_stays_terminal; eassumption | now right].
  - pose proof (updateStatusFromProcess_evolves w a) as H.
    split; [eapply evolves_consistent; eassumption|].
    intros Hst. split; [eapply evolves_stays_terminal; eassumption|].
    apply updateStatusFromProcess_terminal; [assumption|].
    intros Hc. apply Hcons in Hc. contradiction.
  - destruct (stopAgent_evolves _ _ _ _ Hstop) as [Hrun ->].
    split.
    + unfold completion_consistent. simpl. split; discriminate.
    + intros Hst. contradiction.
Qed.


End StatusFacts.

Section ManagerFacts.
Context {R : Runtime}.

Lemma same_frame_refl (w : World) : same_frame w w.
Proof. split; reflexivity. Qed.

Lemma same_frame_trans (w1 w2 w3 : World) :
  same_frame w1 w2 -> same_frame w2 w3 -> same_frame w1 w3.
Proof. intros [] []. split; congruence. Qed.

Lemma same_frame_store (w : World) (st : gmap string AgentDir) : same_frame w (with_store w st).
Proof. split; reflexivity. Qed.

Lemma same_frame_saveMeta (w : World) (a : AgentProcess) : same_frame w (saveMeta w a).
Proof. split; reflexivity. Qed.

Lemma same_frame_update (w : World) (a : AgentProcess) :
  same_frame w (fst (updateStatusFromProcess w a)).
Proof.
  unfold updateStatusFromProcess.
  destruct (negb (pid_truthy (pid a))); [apply same_frame_refl|].
  destruct (isProcessAlive w a); [apply same_frame_refl|].
  apply same_frame_saveMeta.
Qed.

Lemma fold_left_invariant {A B} (P : A -> Prop) (f : A -> B -> A) (l : list B) :
  (forall acc x, P acc -> P (f acc x)) -> forall init, P init -> P (fold_left f l init).
Proof.
  intros Hf. induction l as [|x l IH]; intros init Hinit; simpl; [assumption|].
  apply IH, Hf, Hinit.
Qed.

Lemma same_frame_loadEntry (m : AgentManager) (cutoff : Z) (w0 : World)
      (acc : World * AgentMap.t) (entry : string) :
  same_frame w0 (fst acc) -> same_frame w0 (fst (loadEntry m cutoff acc entry)).
Proof.
  intros H. destruct acc as [w loaded]. unfold loadEntry.
  destruct (store w !! entry); [|exact H].
  destruct (loadFromDisk w entry) as [agent|]; [|exact H].
  destruct (match completedAt agent with Some t => t <? cutoff | None => false end).
  { eapply same_frame_trans; [exact H | apply same_frame_store]. }
  destruct (match filterByCwd m with
            | Some dir => negb (option_string_eqb (cwd agent) (Some dir))
            | None => false
            end); [exact H|].
  pose proof (same_frame_update w agent) as Hu.
  destruct (updateStatusFromProcess w agent) as [w' agent'].
  eapply same_frame_trans; [exact H | exact Hu].
Qed.

(** What [initialize] leaves of the manager and of the world: its limits,
    a resolved model map, and one more directory scan. *)
Lemma initialize_frame (m : AgentManager) (w : World) :
  maxConcurrent (snd (initialize m w)) = maxConcurrent m /\
  is_Some_b (effortModelMap (snd (initialize m w))) = true /\
  launched (fst (initialize m w)) = launched w /\
  scans (fst (initialize m w)) = S (scans w).
Proof.
  unfold initialize, loadExistingAgents.
  set (m' := match constructorAgentConfigs m with
             | Some configs => with_configs m configs
             | None => with_configs m Command.loadDefaultAgentConfigs
             end).
  assert (Hm : maxConcurrent m' = maxConcurrent m /\ is_Some_b (effortModelMap m') = true).
  { subst m'. destruct (constructorAgentConfigs m); split; reflexivity. }
  set (w' := note_scan w).
  pose proof (fold_left_invariant (fun acc => same_frame w' (fst acc))
                (loadEntry m' (now w - cleanupAgeDays m' * 24 * 60 * 60 * 1000))
                (map fst (map_to_list (store w')))
                (fun acc x => same_frame_loadEntry m' _ w' acc x)
                (w', agents m') (same_frame_refl w')) as Hf.
  destruct (fold_left _ _ (w', agents m')) as [w2 loaded].
  destruct Hf, Hm. simpl in *. repeat split; congruence.
Qed.



(** Every [get] scans the agents directory once more. *)
Lemma get_scans_again (m : AgentManager) (w : World) (id : string) :
  scans (fst (fst (get m w id))) = S (scans w).
Proof.
  unfold get.
  destruct (initialize_frame m w) as [_ [_ [_ Hscans]]].
  destruct (initialize m w) as [w1 m1]. cbn [fst] in Hscans.
  assert (Hrefresh : forall a, scans (fst (refresh w1 a)) = S (scans w)).
  { intros a. unfold refresh.
    rewrite (fr_scans _ _ (same_frame_update w1 (readNewEvents w1 a))). exact Hscans. }
  destruct (AgentMap.get id (agents m1)) as [agent|].
  - specialize (Hrefresh agent). destruct (refresh w1 agent). exact Hrefresh.
  - destruct (loadFromDisk w1 id) as [agent|]; [|exact Hscans].
    specialize (Hrefresh agent). destruct (refresh w1 agent). exact Hrefresh.
Qed.



End ManagerFacts.

Section CommandFacts.
Context {R : Runtime}.
Import Command.



End CommandFacts.

Module ScenarioFacts.
Import Posix Scenario.
#[local] Existing Instance runtime.

(** C1: the failing input.  The record of the repository's own test, with
    the pid of no process, running, its log without a terminal event: the
    reconciliation pass marks it failed (completed at the time of its latest
    event, the last-modified time of the log), while the status query of
    the command line reports the same record, saved as running, as
    completed. *)
Theorem vanished_process_is_marked_failed :
  status (snd (updateStatusFromProcess orphan_world orphan)) = FAILED /\
  completedAt (snd (updateStatusFromProcess orphan_world orphan)) = Some 1704164645000 /\
  map info_status (Cli.getTaskAgents (saveMeta orphan_world orphan) "mtime-task") =
    [Some (JStr "completed")].
Proof. vm_compute. auto. Qed.

(** C2: a counterexample.  A record is failed after the sentinel with the
    exit code 1; when a second sentinel, with the exit code 0, has reached
    the log, [readNewEvents] makes it completed and gives it a new
    completion time. *)
Lemma terminal_record_changes_status_and_time :
  status (readNewEvents first_report wrapped) = FAILED /\
  completedAt (readNewEvents first_report wrapped) = Some 1704067201000 /\
  status (readNewEvents second_report (readNewEvents first_report wrapped)) = COMPLETED /\
  completedAt (readNewEvents second_report (readNewEvents first_report wrapped)) =
    Some 1704067202000.
Proof. vm_compute. auto. Qed.


Lemma status_moves_forward_witness :
  completion_consistent (readNewEvents second_report (readNewEvents first_report wrapped)) /\
  (status (readNewEvents first_report wrapped) <> RUNNING ->
   status (readNewEvents second_report (readNewEvents first_report wrapped)) <> RUNNING /\
   (readNewEvents second_report (readNewEvents first_report wrapped) =
      readNewEvents first_report wrapped \/
    readNewEvents second_report (readNewEvents first_report wrapped) =
      readNewEvents second_report (readNewEvents first_report wrapped))).
Proof.
  apply (@status_moves_forward runtime second_report (readNewEvents first_report wrapped)).
  - vm_compute. split; discriminate.
  - left. reflexivity.
Defined.



(** An upper-case key, which [saveMeta] never writes, is found. *)
Example loadFromDisk_uppercase_status :
  option_map status
    (loadFromDisk
       (with_meta quiet "idem-test"
          (JObj [("agent_id", JStr "idem-test"); ("agent_type", JStr "claude");
                 ("prompt", JStr "test prompt"); ("status", JStr "FAILED");
                 ("started_at", JIso 1704100000000)]))
       "idem-test") = Some FAILED.
Proof. vm_compute. reflexivity. Qed.

Lemma loadFromDisk_lowercase_status_loads_running_witness :
  exists a, loadFromDisk one_record "idem-test" = Some a /\ status a = RUNNING.
Proof.
  apply (loadFromDisk_lowercase_status_loads_running one_record "idem-test"
           {| meta := Some (metaOf finished); stdout := None |}
           [("agent_id", JStr "idem-test"); ("task_name", JStr "task-1");
            ("agent_type", JStr "claude"); ("prompt", JStr "test prompt");
            ("cwd", JNull); ("workspace_dir", JNull); ("mode", JStr "plan");
            ("pid", JNull); ("status", JStr "completed");
            ("started_at", JIso 1704100000000); ("completed_at", JIso 1704100000000);
            ("parent_session_id", JNull)]
           "completed").
  - vm_compute. reflexivity.
  - reflexivity.
  - vm_compute. reflexivity.
  - reflexivity.
  - simpl. auto.
Defined.

(** The tests of "Config-driven buildCommand". *)
Example buildCommand_codex_compatible :
  Command.buildCommand
    (overriding codex
       "codex -a never exec --skip-git-repo-check --sandbox danger-full-access '{prompt}' --json")
    codex "write tests" edit "gpt-5.3-codex" None =
  Ok ["codex"; "-a"; "never"; "exec"; "--skip-git-repo-check"; "--model"; "gpt-5.3-codex";
      "--sandbox"; "danger-full-access"; "write tests" +:+ Command.PROMPT_SUFFIX; "--json";
      "--full-auto"].
Proof. vm_compute. reflexivity. Qed.

Example buildCommand_gemini_headless :
  Command.buildCommand
    (overriding gemini "gemini '{prompt}' --output-format stream-json")
    gemini "hi" plan "gemini-3-flash-preview" None =
  Ok ["gemini"; "-p"; "hi" +:+ Command.PROMPT_SUFFIX; "--output-format"; "stream-json";
      "--approval-mode"; "plan"; "--model"; "gemini-3-flash-preview"].
Proof. vm_compute. reflexivity. Qed.

Example buildCommand_claude_edit :
  Command.buildCommand
    (overriding claude "claude -p '{prompt}' --output-format stream-json")
    claude "write tests" edit "claude-sonnet-4-6" (Some "/work") =
  Ok ["claude"; "-p"; "write tests" +:+ Command.PROMPT_SUFFIX; "--output-format";
      "stream-json"; "--verbose"; "--permission-mode"; "acceptEdits"; "--settings";
      "/home/user/.claude/settings.json"; "--add-dir"; "/work"; "--model";
      "claude-sonnet-4-6"].
Proof. vm_compute. reflexivity. Qed.

Example buildCommand_unterminated_override :
  Command.buildCommand (overriding codex "my-cli 'run") codex "write tests" plan "m" None =
  Throw (UnterminatedQuote "my-cli 'run").
Proof. vm_compute. reflexivity. Qed.

Example buildCommand_blank_override :
  Command.buildCommand (overriding codex "   ") codex "write tests" plan "m" None =
  Ok ["codex"; "exec"; "--model"; "m"; "--dangerously-bypass-approvals-and-sandbox";
      "write tests" +:+ Command.PROMPT_SUFFIX; "--json"].
Proof. vm_compute. reflexivity. Qed.


Lemma spawn_respects_concurrency_ceiling_at_ceiling :
  spawn (new_AgentManager 50 0 plan None 7 None) quiet "task" codex "prompt" None None
        effort_default None None None =
    (note_scan quiet,
     snd (initialize (new_AgentManager 50 0 plan None 7 None) quiet),
     Throw (ConcurrencyLimitReached 0)).
Proof. vm_compute. reflexivity. Qed.

(** C4: the failing input.  The meta that [saveMeta] writes for a record
    holds none of [session_id], [conversation_turn], [original_agent_id] and
    [reply_agent_ids]; [loadFromDisk] reads none of them, whatever a meta
    holds under these keys; and from the meta that the repository's test of
    the reply chain expects on disk it builds a record without them.  What
    does come back from a saved record is [reloaded]: of the five fields of
    the claim the workspace directory alone. *)
Theorem conversation_fields_are_not_persisted :
  (forall a, Forall (fun k => Js.get (metaOf a) k = None) conversation_keys) /\
  (forall w id fields,
      Forall (fun k => forall v,
                  loadFromDisk (with_meta w id (JObj ((k, v) :: fields))) id =
                  loadFromDisk (with_meta w id (JObj fields)) id)
             conversation_keys) /\
  loadFromDisk (with_meta quiet "chain-original" chain_meta_expected) "chain-original" =
    Some (reloaded chain_original) /\
  (forall w a, loadFromDisk (saveMeta w a) (agentId a) = Some (reloaded a)).
Proof.
  split; [|split; [|split]].
  - intros a. repeat constructor.
  - intros w id fields.
    repeat constructor; intros v; unfold loadFromDisk, with_meta;
      cbn [store with_store]; rewrite !lookup_insert_eq; reflexivity.
  - vm_compute. reflexivity.
  - apply loadFromDisk_saveMeta.
Qed.

(** C5: the failing input.  A manager is constructed on a store with one
    record, and asked twice for that record: the agents directory has then
    been scanned three times, once by the constructor and once by each
    [get].  And when the meta file is overwritten between two calls of
    [initialize], the second call replaces the record in memory by what it
    finds on disk. *)
Theorem initialize_scans_on_every_call :
  scans (fst started) = 1%nat /\
  scans (fst (fst asked_once)) = 2%nat /\
  scans (fst (fst asked_twice)) = 3%nat /\
  option_map prompt (AgentMap.get "idem-test" (agents (snd started))) = Some "test prompt" /\
  option_map prompt (AgentMap.get "idem-test" (agents (snd initialized_again))) =
    Some "stale prompt".
Proof. vm_compute. auto 6. Qed.

End ScenarioFacts.

Module WordsFacts.
Import Str Template Words TemplateFacts.

Lemma splitCommandTemplate_finish (cmdStr : string) :
  splitCommandTemplate cmdStr = finish cmdStr (split_loop cmdStr [] "" false false).
Proof.
  unfold splitCommandTemplate, finish.
  destruct (split_loop cmdStr [] "" false false) as [[[r c] s] d]. reflexivity.
Qed.

Lemma loop_bare (w : string) :
  all_chars bare_char w = true ->
  forall rest r c,
    split_loop (w +:+ rest) r c false false = split_loop rest r (c +:+ w) false false.
Proof.
  induction w as [|a w IH]; intros Hw rest r c.
  - now rewrite append_empty_r.
  - simpl in Hw. apply andb_prop in Hw as [Ha Hw].
    unfold bare_char in Ha. apply negb_true_iff in Ha.
    apply orb_false_elim in Ha as [Ha Htab].
    apply orb_false_elim in Ha as [Ha Hsp].
    apply orb_false_elim in Ha as [Hsq Hdq].
    rewrite append_cons. cbn [split_loop]. rewrite Hsq, Hdq, Hsp, Htab. cbn [orb].
    rewrite (IH Hw). unfold push. rewrite append_assoc. reflexivity.
Qed.

Lemma loop_quoted (w : string) :
  all_chars (fun c => negb (Ascii.eqb c squote)) w = true ->
  forall rest r c,
    split_loop (w +:+ String squote rest) r c true false =
    split_loop rest r (c +:+ w) false false.
Proof.
  induction w as [|a w IH]; intros Hw rest r c.
  - cbn [String.append split_loop]. rewrite append_empty_r. reflexivity.
  - simpl in Hw. apply andb_prop in Hw as [Ha Hw]. apply negb_true_iff in Ha.
    rewrite append_cons. cbn [split_loop]. rewrite Ha.
    rewrite (IH Hw). unfold push. rewrite append_assoc. reflexivity.
Qed.

Lemma nonempty_append_r (c w : string) : nonempty w = true -> nonempty (c +:+ w) = true.
Proof. destruct c; [now rewrite ?append_empty_r | reflexivity]. Qed.

Lemma join_cons (w w' : string) (ws : list string) :
  join (w :: w' :: ws) = w +:+ String space (join (w' :: ws)).
Proof. reflexivity. Qed.

Lemma loop_joined_bare (cmdStr : string) (ws : list string) :
  forall w r,
    bare_word w = true -> Forall (fun w => bare_word w = true) ws ->
    finish cmdStr (split_loop (join (w :: ws)) r "" false false) = Ok (r ++ w :: ws)%list.
Proof.
  induction ws as [|w' ws IH]; intros w r Hw Hws;
    apply andb_prop in Hw as [Hne Hw].
  - change (join [w]) with w. rewrite <- (append_empty_r w) at 1.
    rewrite (loop_bare w Hw). change ("" +:+ w) with w.
    cbn [split_loop finish]. rewrite Hne. reflexivity.
  - rewrite join_cons, (loop_bare w Hw). change ("" +:+ w) with w.
    cbn [split_loop].
    change (Ascii.eqb space squote) with false.
    change (Ascii.eqb space dquote) with false.
    change (Ascii.eqb space space) with true. cbn [orb].
    rewrite Hne. inversion Hws as [|? ? Hw' Hws']; subst.
    rewrite (IH w' _ Hw' Hws'), <- app_assoc. reflexivity.
Qed.

Lemma single_quoted_append (w rest : string) :
  single_quoted w +:+ rest = String squote (w +:+ String squote rest).
Proof. unfold single_quoted. now rewrite append_assoc. Qed.

Lemma loop_joined_quoted (cmdStr : string) (ws : list string) :
  forall w r,
    quotable w = true -> Forall (fun w => quotable w = true) ws ->
    finish cmdStr (split_loop (join (map single_quoted (w :: ws))) r "" false false) =
    Ok (r ++ w :: ws)%list.
Proof.
  induction ws as [|w' ws IH]; intros w r Hw Hws;
    apply andb_prop in Hw as [Hne Hw].
  - change (join (map single_quoted [w])) with (single_quoted w).
    rewrite <- (append_empty_r (single_quoted w)), single_quoted_append.
    cbn [split_loop]. change (Ascii.eqb squote squote) with true. cbv iota.
    rewrite (loop_quoted w Hw). change ("" +:+ w) with w.
    cbn [split_loop finish]. rewrite Hne. reflexivity.
  - cbn [map]. rewrite join_cons, single_quoted_append.
    cbn [split_loop]. change (Ascii.eqb squote squote) with true. cbv iota.
    rewrite (loop_quoted w Hw). change ("" +:+ w) with w.
    cbn [split_loop].
    change (Ascii.eqb space squote) with false.
    change (Ascii.eqb space dquote) with false.
    change (Ascii.eqb space space) with true. cbn [orb].
    rewrite Hne. inversion Hws as [|? ? Hw' Hws']; subst.
    change (single_quoted w' :: map single_quoted ws) with (map single_quoted (w' :: ws)).
    rewrite (IH w' _ Hw' Hws'), <- app_assoc. reflexivity.
Qed.

(** No token that [splitCommandTemplate] returns is empty: an empty pair
    of quotes yields no argument. *)
Theorem splitCommandTemplate_tokens_nonempty (cmdStr : string) (tokens : list string) :
  splitCommandTemplate cmdStr = Ok tokens -> Forall (fun t => t <> "") tokens.
Proof.
  rewrite split_refines. destruct (unterminated cmdStr); [discriminate|].
  intros [= <-]. unfold words. apply List.Forall_forall. intros t Ht.
  apply filter_In in Ht as [_ Ht]. now destruct t.
Qed.

Lemma splitCommandTemplate_tokens_nonempty_witness :
  splitCommandTemplate "a '' b" = Ok ["a"; "b"] /\ Forall (fun t => t <> "") ["a"; "b"].
Proof.
  split; [reflexivity|].
  apply (splitCommandTemplate_tokens_nonempty "a '' b"). reflexivity.
Defined.

(** Words without quote characters, spaces and tabs, joined by single
    spaces, are split into the same words. *)
Theorem splitCommandTemplate_join_bare_words (ws : list string) :
  Forall (fun w => bare_word w = true) ws ->
  splitCommandTemplate (join ws) = Ok ws.
Proof.
  intros Hws. rewrite splitCommandTemplate_finish.
  destruct ws as [|w ws]; [reflexivity|].
  inversion Hws; subst. now apply (loop_joined_bare _ ws w []).
Qed.

Lemma splitCommandTemplate_join_bare_words_witness :
  splitCommandTemplate "opencode run --format json {prompt}" =
  Ok ["opencode"; "run"; "--format"; "json"; "{prompt}"].
Proof.
  apply (splitCommandTemplate_join_bare_words
           ["opencode"; "run"; "--format"; "json"; "{prompt}"]).
  repeat constructor.
Defined.

(** Every word without a single quote, put between single quotes, comes
    back as it is, blanks, double quotes and backslashes included. *)
Theorem splitCommandTemplate_single_quoted_words (ws : list string) :
  Forall (fun w => quotable w = true) ws ->
  splitCommandTemplate (join (map single_quoted ws)) = Ok ws.
Proof.
  intros Hws. rewrite splitCommandTemplate_finish.
  destruct ws as [|w ws]; [reflexivity|].
  inversion Hws; subst. now apply (loop_joined_quoted _ ws w []).
Qed.

Lemma splitCommandTemplate_single_quoted_words_witness :
  splitCommandTemplate "'my cli' 'say \ {prompt}'" = Ok ["my cli"; "say \ {prompt}"].
Proof.
  apply (splitCommandTemplate_single_quoted_words ["my cli"; "say \ {prompt}"]).
  repeat constructor.
Defined.

End WordsFacts.

Section CompilerFacts.
Context {R : Runtime}.
Import Command.

Lemma includes_In (x : string) (l : list string) : includes x l = true <-> In x l.
Proof.
  unfold includes. rewrite existsb_exists. split.
  - intros [y [Hy E]]. apply String.eqb_eq in E. now subst.
  - intros H. exists x. split; [assumption | apply String.eqb_refl].
Qed.

Lemma includes_sublist (x : string) (l l' : list string) :
  l `sublist_of` l' -> includes x l = true -> includes x l' = true.
Proof.
  intros Hsub. rewrite !includes_In, <- !list_elem_of_In.
  intros H. eapply elem_of_sublist; eassumption.
Qed.

Lemma sublist_append (l xs : list string) : l `sublist_of` (l ++ xs)%list.
Proof. now apply sublist_inserts_r. Qed.

Lemma sublist_insertAt (i : nat) (xs l : list string) : l `sublist_of` insertAt i xs l.
Proof.
  unfold insertAt. rewrite <- (take_drop i l) at 1.
  apply sublist_app; [reflexivity|]. now apply sublist_inserts_l.
Qed.

Lemma sublist_ensureClaudeFlag (cmd : list string) (flag : string) (v : option string) :
  cmd `sublist_of` ensureClaudeFlag cmd flag v.
Proof.
  unfold ensureClaudeFlag. destruct (indexOf flag cmd); [reflexivity|].
  destruct v; apply sublist_append.
Qed.

Lemma sublist_ensureGeminiHeadlessFlag (cmd : list string) (p : string) :
  cmd `sublist_of` ensureGeminiHeadlessFlag cmd p.
Proof.
  unfold ensureGeminiHeadlessFlag.
  destruct (includes "-p" cmd || includes "--prompt" cmd); [reflexivity|].
  destruct (indexOf p cmd); [apply sublist_insertAt | apply sublist_append].
Qed.

Lemma includes_append_model (cmd : list string) (model : string) :
  includes "--model" (cmd ++ ["--model"; model]) = true.
Proof. apply includes_In, in_or_app. right. now left. Qed.

Lemma includes_insertAt_model (i : nat) (cmd : list string) (model : string) :
  includes "--model" (insertAt i ["--model"; model] cmd) = true.
Proof.
  apply includes_In. unfold insertAt.
  apply in_or_app. right. apply in_or_app. left. now left.
Qed.

Lemma sublist_model_step (agentType : AgentType) (fullPrompt : string) (mode : Mode)
      (model : string) (cmd : list string) :
  let cmd' :=
    if includes "--model" cmd then cmd
    else
      match agentType with
      | codex =>
          let insertIndex :=
            match indexOf "--sandbox" cmd with
            | Some sandboxIndex => sandboxIndex
            | None => match indexOf "exec" cmd with
                      | Some execIndex => S execIndex
                      | None => O
                      end
            end in
          insertAt insertIndex ["--model"; model] cmd
      | cursor | gemini | claude | copilot => (cmd ++ ["--model"; model])%list
      | opencode =>
          let opencodeAgent := match mode with plan => "plan" | _ => "build" end in
          let cmd :=
            match indexOf fullPrompt cmd with
            | Some promptIndex => insertAt (S promptIndex) ["--agent"; opencodeAgent] cmd
            | None => cmd
            end in
          (cmd ++ ["--model"; model])%list
      end in
  cmd `sublist_of` cmd' /\ includes "--model" cmd' = true.
Proof.
  cbv zeta. destruct (includes "--model" cmd) eqn:E; [split; [reflexivity | exact E]|].
  destruct agentType;
    try (split; [apply sublist_append | apply includes_append_model]).
  - split; [apply sublist_insertAt | apply includes_insertAt_model].
  - split; [|apply includes_append_model].
    etrans; [|apply sublist_append].
    destruct (indexOf fullPrompt cmd); [apply sublist_insertAt | reflexivity].
Qed.

Lemma sublist_injectFlags (agentType : AgentType) (fullPrompt : string) (mode : Mode)
      (model : string) (cwd : option string) (cmd : list string) :
  agentType <> claude \/ mode = plan ->
  cmd `sublist_of` injectFlags agentType fullPrompt mode model cwd cmd /\
  includes "--model" (injectFlags agentType fullPrompt mode model cwd cmd) = true.
Proof.
  intros Hkind. unfold injectFlags.
  set (cmd1 := match agentType with claude => _ | _ => cmd end).
  assert (H1 : cmd `sublist_of` cmd1).
  { subst cmd1. destruct agentType; try reflexivity.
    set (c1 := ensureClaudeFlag cmd "--verbose" None).
    set (c2 := ensureClaudeFlag c1 "--permission-mode" (Some "plan")).
    set (c3 := if includes "--settings" c2 then c2 else (c2 ++ ["--settings"; settingsPath])%list).
    assert (H3 : cmd `sublist_of` c3).
    { etrans; [apply (sublist_ensureClaudeFlag cmd "--verbose" None)|]. fold c1.
      etrans; [apply (sublist_ensureClaudeFlag c1 "--permission-mode" (Some "plan"))|]. fold c2.
      subst c3. destruct (includes "--settings" c2); [reflexivity | apply sublist_append]. }
    destruct cwd as [dir|]; [|exact H3].
    destruct (Str.nonempty dir && negb (includes "--add-dir" c3)); [|exact H3].
    etrans; [exact H3 | apply sublist_append]. }
  set (cmd2 := match agentType with gemini => _ | _ => cmd1 end).
  assert (H2 : cmd1 `sublist_of` cmd2).
  { subst cmd2. destruct agentType; try reflexivity. apply sublist_ensureGeminiHeadlessFlag. }
  set (cmd3 := match agentType, mode with gemini, plan => _ | _, _ => cmd2 end).
  assert (H3 : cmd2 `sublist_of` cmd3).
  { subst cmd3. destruct agentType, mode; try reflexivity.
    destruct (negb (includes "--approval-mode" cmd2) && negb (includes "--yolo" cmd2));
      [apply sublist_append | reflexivity]. }
  destruct (sublist_model_step agentType fullPrompt mode model cmd3) as [H4 Hmodel].
  cbv zeta in H4, Hmodel.
  set (cmd4 := if includes "--model" cmd3 then cmd3 else _) in *.
  assert (H5 : cmd4 `sublist_of`
                 match mode with
                 | ralph => applyRalphMode agentType cmd4
                 | edit => applyEditMode agentType cmd4
                 | plan => cmd4
                 end).
  { destruct mode; [reflexivity | |].
    - destruct Hkind as [Hkind|]; [|discriminate].
      destruct agentType; cbn [applyEditMode]; try apply sublist_append;
        [contradiction | reflexivity].
    - destruct Hkind as [Hkind|]; [|discriminate].
      destruct agentType; cbn [applyRalphMode]; try apply sublist_append;
        [contradiction | reflexivity]. }
  split.
  - etrans; [exact H1|]. etrans; [exact H2|]. etrans; [exact H3|]. etrans; [exact H4 | exact H5].
  - eapply includes_sublist; [exact H5 | exact Hmodel].
Qed.

(** For a recognised CLI of every kind but claude, and for claude in plan
    mode, the compiler only adds arguments: the substituted template is a
    subsequence of the command, and the command names a model. *)
Theorem buildCommand_only_adds_flags
    (configs : option (AgentType -> AgentConfig)) (agentType : AgentType)
    (prompt : string) (mode : Mode) (model : string) (cwd : option string)
    (template : list string) :
  baseTemplate configs agentType = Ok template ->
  hasPromptPlaceholder template = true ->
  isCompatibleAgentCli agentType
    (head (substitute (fullPromptOf agentType prompt mode) template)) = true ->
  agentType <> claude \/ mode = plan ->
  exists cmd,
    buildCommand configs agentType prompt mode model cwd = Ok cmd /\
    substitute (fullPromptOf agentType prompt mode) template `sublist_of` cmd /\
    includes "--model" cmd = true.
Proof.
  intros Hbase Hmarker Hcli Hkind. unfold buildCommand.
  rewrite Hbase, Hmarker, Hcli. cbn [negb].
  eexists. split; [reflexivity|]. now apply sublist_injectFlags.
Qed.

Lemma indexOf_includes (x : string) (l : list string) :
  includes x l = true -> exists i, indexOf x l = Some i.
Proof.
  induction l as [|y l IH]; [discriminate|].
  cbn [includes existsb indexOf]. rewrite (String.eqb_sym x y).
  destruct (String.eqb y x); [eauto|].
  intros H. destruct (IH H) as [i ->]. simpl. eauto.
Qed.

Lemma includes_ensureClaudeFlag (cmd : list string) (flag : string) (v : option string) :
  includes flag (ensureClaudeFlag cmd flag v) = true.
Proof.
  unfold ensureClaudeFlag. destruct (indexOf flag cmd) as [i|] eqn:E.
  - clear v. revert i E. induction cmd as [|y l IH]; [discriminate|].
    cbn [indexOf includes existsb]. rewrite (String.eqb_sym flag y).
    destruct (String.eqb y flag); [reflexivity|].
    destruct (indexOf flag l) as [j|]; [|discriminate]. intros _ _. now apply (IH j).
  - apply includes_In. destruct v; apply in_or_app; right; now left.
Qed.

Lemma indexOf_edit (x v : string) (l : list string) (i : nat) :
  indexOf x l = Some i -> indexOf x (<[S i := v]> l) = Some i.
Proof.
  revert i. induction l as [|y l IH]; [discriminate|]. intros i.
  cbn [indexOf]. destruct (String.eqb y x) eqn:E.
  - intros [= <-]. change (<[1%nat := v]> (y :: l)) with (y :: <[O := v]> l).
    cbn [indexOf]. now rewrite E.
  - destruct (indexOf x l) as [j|] eqn:Ej; [|discriminate]. intros [= <-].
    change (<[S (S j) := v]> (y :: l)) with (y :: <[S j := v]> l).
    cbn [indexOf]. now rewrite E, (IH j eq_refl).
Qed.

Lemma injectFlags_claude_mode (fullPrompt : string) (mode : Mode) (model : string)
      (cwd : option string) (cmd : list string) :
  injectFlags claude fullPrompt mode model cwd cmd =
  match mode with
  | ralph => applyRalphMode claude (injectFlags claude fullPrompt plan model cwd cmd)
  | edit => applyEditMode claude (injectFlags claude fullPrompt plan model cwd cmd)
  | plan => injectFlags claude fullPrompt plan model cwd cmd
  end.
Proof. destruct mode; reflexivity. Qed.

Lemma includes_permission_mode (fullPrompt model : string) (cwd : option string)
      (cmd : list string) :
  includes "--permission-mode" (injectFlags claude fullPrompt plan model cwd cmd) = true.
Proof.
  unfold injectFlags.
  set (c1 := ensureClaudeFlag cmd "--verbose" None).
  set (c2 := ensureClaudeFlag c1 "--permission-mode" (Some "plan")).
  pose proof (includes_ensureClaudeFlag c1 "--permission-mode" (Some "plan")) as H2.
  fold c2 in H2.
  set (c3 := if includes "--settings" c2 then c2 else (c2 ++ ["--settings"; settingsPath])%list).
  assert (H3 : includes "--permission-mode" c3 = true).
  { subst c3. destruct (includes "--settings" c2); [exact H2|].
    eapply includes_sublist; [apply sublist_append | exact H2]. }
  set (c4 := match cwd with Some dir => _ | None => c3 end).
  assert (H4 : includes "--permission-mode" c4 = true).
  { subst c4. destruct cwd as [dir|]; [|exact H3].
    destruct (Str.nonempty dir && negb (includes "--add-dir" c3)); [|exact H3].
    eapply includes_sublist; [apply sublist_append | exact H3]. }
  destruct (includes "--model" c4); [exact H4|].
  eapply includes_sublist; [apply sublist_append | exact H4].
Qed.

(** The permission flags of the claude CLI.  Whatever the template, the
    flag [--permission-mode] is ensured before the mode is applied; so in
    plan mode the command holds it, in edit mode the value after its first
    occurrence is [acceptEdits] (unless nothing follows it), and in ralph
    mode the command ends with [--dangerously-skip-permissions]. *)
Theorem buildCommand_claude_permissions
    (configs : option (AgentType -> AgentConfig)) (prompt : string) (mode : Mode)
    (model : string) (cwd : option string) (template : list string) :
  baseTemplate configs claude = Ok template ->
  hasPromptPlaceholder template = true ->
  isCompatibleAgentCli claude
    (head (substitute (fullPromptOf claude prompt mode) template)) = true ->
  exists cmd,
    buildCommand configs claude prompt mode model cwd = Ok cmd /\
    match mode with
    | plan => includes "--permission-mode" cmd = true
    | edit =>
        exists i, indexOf "--permission-mode" cmd = Some i /\
                  (cmd !! S i = Some "acceptEdits" \/ length cmd = S i)
    | ralph => last cmd = Some "--dangerously-skip-permissions"
    end.
Proof.
  intros Hbase Hmarker Hcli. unfold buildCommand.
  rewrite Hbase, Hmarker, Hcli. cbn [negb].
  eexists. split; [reflexivity|].
  rewrite injectFlags_claude_mode.
  set (fp := fullPromptOf claude prompt mode).
  pose proof (includes_permission_mode fp model cwd (substitute fp template)) as Hflag.
  set (c := injectFlags claude fp plan model cwd (substitute fp template)) in *.
  destruct mode.
  - exact Hflag.
  - destruct (indexOf_includes _ _ Hflag) as [i Hi].
    cbn [applyEditMode]. rewrite Hi.
    destruct (i + 1 <? length c)%nat eqn:Hlen.
    + apply Nat.ltb_lt in Hlen. replace (i + 1)%nat with (S i) by lia.
      exists i. split; [now apply indexOf_edit|].
      left. apply list_lookup_insert_eq. lia.
    + apply Nat.ltb_ge in Hlen. exists i. split; [exact Hi|]. right.
      assert (i < length c)%nat; [|lia].
      clear -Hi. revert i Hi. induction c as [|y l IH]; [discriminate|].
      intros i. cbn [indexOf]. destruct (String.eqb y "--permission-mode").
      * intros [= <-]. simpl. lia.
      * destruct (indexOf "--permission-mode" l) as [j|]; [|discriminate].
        intros [= <-]. specialize (IH j eq_refl). simpl. lia.
  - cbn [applyRalphMode]. apply last_snoc.
Qed.

End CompilerFacts.

Section RecordFacts.
Context {R : Runtime}.

Lemma latest_fold (l : list Event) :
  forall init : option Z,
    match fold_left
            (fun latest e =>
               match latest with
               | None => Some (timestamp e)
               | Some l => if l <? timestamp e then Some (timestamp e) else latest
               end) l init with
    | None => init = None /\ l = []
    | Some t =>
        (init = Some t \/ exists e, In e l /\ timestamp e = t) /\
        (forall t0, init = Some t0 -> t0 <= t) /\
        Forall (fun e => timestamp e <= t) l
    end.
Proof.
  induction l as [|e l IH]; intros init; cbn [fold_left].
  - destruct init as [t|]; [|auto].
    split; [now left|]. split; [|constructor]. intros t0 [= ->]. lia.
  - set (next := match init with
                 | None => Some (timestamp e)
                 | Some l0 => if l0 <? timestamp e then Some (timestamp e) else init
                 end).
    specialize (IH next).
    assert (Hnext : exists n, next = Some n /\ timestamp e <= n /\
                              (next = init \/ n = timestamp e) /\
                              (forall t0, init = Some t0 -> t0 <= n)).
    { subst next. destruct init as [t0|].
      - destruct (t0 <? timestamp e) eqn:E.
        + apply Z.ltb_lt in E. exists (timestamp e).
          repeat split; auto; try lia. intros ? [= <-]; lia.
        + apply Z.ltb_ge in E. exists t0.
          repeat split; auto; try lia. intros ? [= <-]; lia.
      - exists (timestamp e). repeat split; auto; try lia. discriminate. }
    destruct Hnext as [n [Hn [Hle [Hfrom Hinit]]]].
    destruct (fold_left _ l next) as [t|].
    + destruct IH as [Hin [Hub Hall]].
      pose proof (Hub n Hn) as Hnt.
      split; [|split].
      * destruct Hin as [Hin|[e' [He' Ht]]].
        -- destruct Hfrom as [Hfrom|Hfrom].
           ++ left. congruence.
           ++ right. exists e. split; [now left|]. congruence.
        -- right. exists e'. split; [now right | assumption].
      * intros t0 H0. specialize (Hinit t0 H0). lia.
      * constructor; [lia | assumption].
    + destruct IH as [IH _]. congruence.
Qed.

(** [getLatestEventTime] is [null] for an empty event cache only;
    otherwise it is the time of an event of the cache, and no event of the
    cache is later. *)
Theorem getLatestEventTime_is_latest (a : AgentProcess) :
  match getLatestEventTime a with
  | None => eventsCache a = []
  | Some t =>
      (exists e, In e (eventsCache a) /\ timestamp e = t) /\
      Forall (fun e => timestamp e <= t) (eventsCache a)
  end.
Proof.
  unfold getLatestEventTime.
  pose proof (latest_fold (eventsCache a) None) as H.
  destruct (fold_left _ (eventsCache a) None) as [t|].
  - destruct H as [[H|H] [_ Hall]]; [discriminate|]. split; assumption.
  - apply H.
Qed.

Lemma skip_nonpos (n : Z) (s : string) : n <= 0 -> Str.skip n s = s.
Proof. intros H. destruct s; simpl; destruct (n <=? 0) eqn:E; try reflexivity; lia. Qed.

Lemma skip_empty (n : Z) : Str.skip n "" = "".
Proof. simpl. now destruct (n <=? 0). Qed.

Lemma skip_skip (s : string) :
  forall n k, 0 <= n -> 0 <= k -> Str.skip k (Str.skip n s) = Str.skip (n + k) s.
Proof.
  induction s as [|c s IH]; intros n k Hn Hk.
  - now rewrite !skip_empty.
  - cbn [Str.skip]. destruct (n <=? 0) eqn:En.
    + assert (n = 0) by lia. subst n. reflexivity.
    + destruct (n + k <=? 0) eqn:Enk; [lia|].
      rewrite IH by lia. f_equal. lia.
Qed.

Lemma len_take (s : string) :
  forall n, 0 <= n -> Str.len (Str.take n s) = Z.min n (Str.len s).
Proof.
  unfold Str.len. induction s as [|c s IH]; intros n Hn; cbn [Str.take].
  - destruct (n <=? 0) eqn:E; simpl; lia.
  - destruct (n <=? 0) eqn:E; cbn [String.length]; [lia|].
    rewrite Nat2Z.inj_succ, IH by lia. lia.
Qed.

Lemma skip_len_take (s : string) :
  forall n, 0 <= n -> Str.skip (Str.len (Str.take n s)) s = Str.skip n s.
Proof.
  induction s as [|c s IH]; intros n Hn.
  - now rewrite !skip_empty.
  - cbn [Str.take]. destruct (n <=? 0) eqn:E.
    + apply Z.leb_le in E. rewrite (skip_nonpos n) by exact E.
      apply skip_nonpos. unfold Str.len. simpl. lia.
    + unfold Str.len. cbn [String.length Str.skip]. rewrite E.
      destruct (Z.of_nat (S (String.length (Str.take (n - 1) s))) <=? 0) eqn:E'.
      { apply Z.leb_le in E'. rewrite Nat2Z.inj_succ in E'.
        pose proof (Nat2Z.is_nonneg (String.length (Str.take (n - 1) s))). lia. }
      apply Z.leb_gt in E.
      rewrite <- (IH (n - 1)) by lia. unfold Str.len. f_equal.
      rewrite Nat2Z.inj_succ. lia.
Qed.

(** A call of [readNewEvents] reads the next bytes of the log, at most one
    buffer of them: the offset advances by the number of bytes read, and
    what is left unread is what was unread without those bytes. *)
Theorem readNewEvents_reads_in_order (w : World) (a : AgentProcess) :
  0 <= lastReadPos a ->
  lastReadPos (readNewEvents w a) =
    lastReadPos a + Z.min bufferLength (Str.len (unread w a)) /\
  unread w (readNewEvents w a) = Str.skip bufferLength (unread w a).
Proof.
  intros Hpos.
  assert (Hoff : lastReadPos (readNewEvents w a) =
                 lastReadPos a + Z.min bufferLength (Str.len (unread w a))).
  { rewrite readNewEvents_offset, len_take; [reflexivity | unfold bufferLength; lia]. }
  split; [exact Hoff|].
  unfold unread at 1.
  rewrite (ev_agentId _ _ (readNewEvents_evolves w a)), Hoff.
  rewrite <- len_take by (unfold bufferLength; lia).
  unfold unread.
  destruct (store w !! agentId a) as [[m [log|]]|]; try (now rewrite skip_empty).
  rewrite <- skip_skip; [|assumption | apply len_nonneg].
  apply skip_len_take. unfold bufferLength; lia.
Qed.

(** The two calls that every listing makes on a record leave the fields
    fixed at creation alone, add events at the end of the cache only, and
    never move the read offset back. *)
Theorem refresh_keeps_identity (w : World) (a : AgentProcess) :
  let a' := snd (refresh w a) in
  agentId a' = agentId a /\ taskName a' = taskName a /\ agentType a' = agentType a /\
  prompt a' = prompt a /\ cwd a' = cwd a /\ workspaceDir a' = workspaceDir a /\
  mode a' = mode a /\ pid a' = pid a /\ startedAt a' = startedAt a /\
  parentSessionId a' = parentSessionId a /\
  (exists more, eventsCache a' = (eventsCache a ++ more)%list) /\
  lastReadPos a <= lastReadPos a'.
Proof.
  cbv zeta. unfold refresh.
  pose proof (evolves_trans _ _ _ (readNewEvents_evolves w a)
                (updateStatusFromProcess_evolves w (readNewEvents w a))) as [].
  repeat split; assumption.
Qed.

(** Writing the meta file of a record leaves every log as it is, and the
    meta files of the other records too. *)
Theorem saveMeta_leaves_the_rest (w : World) (b : AgentProcess) :
  (forall a, unread (saveMeta w b) a = unread w a /\
             readNewEvents (saveMeta w b) a = readNewEvents w a) /\
  (forall id, id <> agentId b -> loadFromDisk (saveMeta w b) id = loadFromDisk w id).
Proof.
  split.
  - intros a. unfold unread, readNewEvents. rewrite store_saveMeta.
    destruct (decide (agentId a = agentId b)) as [E|E].
    + rewrite E, lookup_insert_eq.
      destruct (store w !! agentId b) as [[m [log|]]|]; split; reflexivity.
    + rewrite lookup_insert_ne by congruence. split; reflexivity.
  - intros id Hid. unfold loadFromDisk. rewrite store_saveMeta.
    now rewrite lookup_insert_ne by congruence.
Qed.

Lemma reloaded_string_idem (o : option string) :
  reloaded_string (reloaded_string o) = reloaded_string o.
Proof. destruct o as [[|c s]|]; reflexivity. Qed.

Lemma reloaded_idem (a : AgentProcess) : reloaded (reloaded a) = reloaded a.
Proof.
  unfold reloaded. cbn [agentId taskName agentType prompt cwd mode pid startedAt
                        completedAt parentSessionId workspaceDir new_AgentProcess].
  rewrite !reloaded_string_idem.
  f_equal.
  - destruct (Str.nonempty (taskName a)) eqn:E; [now rewrite E | reflexivity].
  - destruct (mode a); reflexivity.
  - destruct (pid_truthy (pid a)) eqn:E; [now rewrite E | reflexivity].
Qed.

(** What [loadFromDisk] returns for a saved record is stable: saved and
    loaded again, in any world, it comes back as it is. *)
Theorem loadFromDisk_saveMeta_stable (w w' : World) (a r : AgentProcess) :
  loadFromDisk (saveMeta w a) (agentId a) = Some r ->
  loadFromDisk (saveMeta w' r) (agentId r) = Some r.
Proof.
  rewrite loadFromDisk_saveMeta. intros [= <-].
  now rewrite loadFromDisk_saveMeta, reloaded_idem.
Qed.

End RecordFacts.

Section RegistryFacts.
Context {R : Runtime}.




(** A [spawn] that throws leaves no new directory in the store: compared
    with the store after the admission refresh, every directory is as it
    was or gone. *)
Theorem spawn_failure_leaves_no_directory
    (m : AgentManager) (w : World) (taskName : string) (agentType : AgentType)
    (prompt : string) (cwd : option string) (mode : option Mode) (effort : EffortLevel)
    (parentSessionId workspaceDir model : option string) (e : Error) :
  snd (spawn m w taskName agentType prompt cwd mode effort parentSessionId workspaceDir model)
    = Throw e ->
  forall k,
    store (fst (fst (spawn m w taskName agentType prompt cwd mode effort parentSessionId
                           workspaceDir model))) !! k = store (fst (fst (admission m w))) !! k \/
    store (fst (fst (spawn m w taskName agentType prompt cwd mode effort parentSessionId
                           workspaceDir model))) !! k = None.
Proof.
  unfold admission, spawn.
  destruct (initialize_frame m w) as [_ [Hmap _]].
  destruct (initialize m w) as [w1 m1]. cbn [fst snd] in *.
  destruct (effortModelMap m1) as [f|]; [clear Hmap | discriminate].
  destruct (listRunning m1 w1) as [[w2 m2] running]. cbn [fst snd] in *.
  assert (Hmodel : exists resolvedModel,
             match match model with
                   | Some s => if Str.nonempty (trim s) then Some (trim s) else None
                   | None => None
                   end with
             | Some s => Ok s
             | None => Ok (f effort agentType)
             end = Ok resolvedModel).
  { destruct model as [s|]; [destruct (Str.nonempty (trim s))|]; eauto. }
  destruct Hmodel as [resolvedModel ->].
  destruct (maxConcurrent m2 <=? Z.of_nat (length running)); [now left|].
  destruct (checkCliAvailable w2 agentType); [|now left].
  destruct (match cwd with
            | Some dir =>
                match stat_dir w2 (path_resolve dir) with
                | Some true => Ok (Some (path_resolve dir))
                | Some false => Throw (WorkingDirectoryNotADirectory dir)
                | None => Throw (WorkingDirectoryMissing dir)
                end
            | None => Ok None
            end) as [resolvedCwd|]; [|now left].
  destruct (Command.buildCommand _ _ _ _ _ _); [|now left].
  destruct (mkdirError _); [now left|].
  set (id := uuid (launches w2 (launched w2))).
  destruct (launchError _).
  - intros _ k. cbn [cleanupPartialAgent fst snd store with_store agentId new_AgentProcess].
    destruct (decide (k = id)) as [->|Hk].
    + right. apply lookup_delete_eq.
    + left. rewrite lookup_delete_ne by congruence.
      cbn [store note_launch].
      destruct (store w2 !! id); cbn [store with_store note_launch]; [reflexivity|].
      now rewrite lookup_insert_ne by congruence.
  - destruct (launch _ _ _) as [w3 agent].
    destruct (cleanupOldAgents _ _). cbn [snd]. discriminate.
Qed.









End RegistryFacts.

Section RetentionFacts.
Context {R : Runtime}.

Lemma insert_by_time_perm (a : AgentProcess) (l : list AgentProcess) :
  insert_by_time a l ≡ₚ a :: l.
Proof.
  induction l as [|b l IH]; cbn [insert_by_time]; [reflexivity|].
  destruct (completedTime a <? completedTime b); [reflexivity|].
  rewrite IH. apply perm_swap.
Qed.

Lemma sort_by_time_perm (l : list AgentProcess) : sort_by_time l ≡ₚ l.
Proof.
  unfold sort_by_time.
  assert (H : forall acc, fold_left (fun sorted a => insert_by_time a sorted) l acc ≡ₚ l ++ acc).
  { induction l as [|a l IH]; intros acc; cbn [fold_left]; [reflexivity|].
    rewrite IH, insert_by_time_perm. cbn. now rewrite Permutation_middle. }
  rewrite H. now rewrite app_nil_r.
Qed.

Lemma insert_by_time_ascending (a : AgentProcess) (l : list AgentProcess) :
  ascending l -> ascending (insert_by_time a l).
Proof.
  induction l as [|b l IH]; cbn [insert_by_time ascending]; [auto|].
  intros [Hb Hl]. destruct (completedTime a <? completedTime b) eqn:E.
  - apply Z.ltb_lt in E. cbn [ascending]. split; [|auto].
    constructor; [lia|]. eapply Forall_impl; [exact Hb|]. cbn. intros; lia.
  - apply Z.ltb_ge in E. cbn [ascending]. split; [|auto].
    rewrite insert_by_time_perm. constructor; [lia | exact Hb].
Qed.

Lemma sort_by_time_ascending (l : list AgentProcess) : ascending (sort_by_time l).
Proof.
  unfold sort_by_time.
  assert (H : forall acc, ascending acc ->
                          ascending (fold_left (fun sorted a => insert_by_time a sorted) l acc)).
  { induction l as [|a l IH]; intros acc Hacc; cbn [fold_left]; [assumption|].
    apply IH, insert_by_time_ascending, Hacc. }
  apply H. exact I.
Qed.

Lemma ascending_app (l1 l2 : list AgentProcess) (a b : AgentProcess) :
  ascending (l1 ++ l2) -> In a l1 -> In b l2 -> completedTime a <= completedTime b.
Proof.
  induction l1 as [|x l1 IH]; [intros _ []|].
  cbn [app ascending]. intros [Hx Hrest] [->|Ha] Hb.
  - rewrite List.Forall_forall in Hx. apply Hx, in_or_app. now right.
  - now apply IH.
Qed.

Lemma filter_length_perm {A} (p : A -> bool) (l l' : list A) :
  l ≡ₚ l' -> length (List.filter p l) = length (List.filter p l').
Proof.
  induction 1 as [|x l l' _ IH|x y l|l l' l'' _ IH1 _ IH2]; cbn [List.filter].
  - reflexivity.
  - destruct (p x); cbn [length]; now rewrite IH.
  - destruct (p x), (p y); reflexivity.
  - now rewrite IH1.
Qed.

Lemma filter_all {A} (p : A -> bool) (l : list A) :
  (forall x, In x l -> p x = true) -> List.filter p l = l.
Proof.
  induction l as [|x l IH]; intros H; cbn [List.filter]; [reflexivity|].
  rewrite (H x (or_introl eq_refl)), IH; [reflexivity|]. intros; apply H; now right.
Qed.

Lemma filter_none {A} (p : A -> bool) (l : list A) :
  (forall x, In x l -> p x = false) -> List.filter p l = [].
Proof.
  induction l as [|x l IH]; intros H; cbn [List.filter]; [reflexivity|].
  rewrite (H x (or_introl eq_refl)), IH; [reflexivity|]. intros; apply H; now right.
Qed.

(** *** The map of a manager *)

Lemma delete_absent (k : string) (l : AgentMap.t) :
  ~ In k (map fst l) -> AgentMap.delete k l = l.
Proof.
  induction l as [|[k' v'] l IH]; intros H; cbn [AgentMap.delete]; [reflexivity|].
  destruct (String.eqb k k') eqn:E.
  - apply String.eqb_eq in E. subst. exfalso. apply H. now left.
  - rewrite IH; [reflexivity|]. intros Hin. apply H. now right.
Qed.

Lemma delete_filter (k : string) (l : AgentMap.t) :
  NoDup (map fst l) ->
  AgentMap.delete k l = List.filter (fun e => negb (String.eqb k (fst e))) l.
Proof.
  induction l as [|[k' v'] l IH]; intros Hnodup; cbn [AgentMap.delete List.filter fst];
    [reflexivity|].
  cbn [map fst] in Hnodup. apply NoDup_cons in Hnodup as [Hfresh Hnodup].
  destruct (String.eqb k k') eqn:E; cbn [negb].
  - apply String.eqb_eq in E. subst k'. symmetry. apply filter_all.
    intros [k2 v2] Hin. cbn [fst]. apply negb_true_iff, String.eqb_neq. intros ->.
    apply Hfresh, list_elem_of_In, in_map_iff. now exists (k2, v2).
  - now rewrite IH.
Qed.

Lemma NoDup_keys_filter (p : string * AgentProcess -> bool) (l : AgentMap.t) :
  NoDup (map fst l) -> NoDup (map fst (List.filter p l)).
Proof.
  induction l as [|e l IH]; intros Hnodup; cbn [List.filter]; [constructor|].
  cbn [map] in Hnodup. apply NoDup_cons in Hnodup as [Hfresh Hnodup].
  destruct (p e); [|auto]. cbn [map]. apply NoDup_cons. split; [|auto].
  intros Hin. apply Hfresh. apply list_elem_of_In in Hin. apply list_elem_of_In.
  apply in_map_iff in Hin as [e' [He' Hin]]. apply filter_In in Hin as [Hin _].
  apply in_map_iff. now exists e'.
Qed.

Lemma evictions_filter (xs : list AgentProcess) :
  forall l, NoDup (map fst l) ->
    fold_left (fun l a => AgentMap.delete (agentId a) l) xs l =
    List.filter (fun e => negb (has_id xs (fst e))) l.
Proof.
  induction xs as [|a xs IH]; intros l Hnodup; cbn [fold_left].
  - symmetry. now apply filter_all.
  - rewrite IH, delete_filter by (try rewrite delete_filter; auto using NoDup_keys_filter).
    clear. induction l as [|e l IHl]; cbn [List.filter]; [reflexivity|].
    cbn [has_id existsb]. fold (has_id xs (fst e)).
    destruct (String.eqb (agentId a) (fst e)); cbn [negb orb List.filter]; [exact IHl|].
    destruct (has_id xs (fst e)); cbn [negb]; now rewrite IHl.
Qed.

Lemma evict_agents (xs : list AgentProcess) :
  forall w l,
    snd (fold_left evict xs (w, l)) =
    fold_left (fun l a => AgentMap.delete (agentId a) l) xs l.
Proof.
  induction xs as [|a xs IH]; intros w l; cbn [fold_left]; [reflexivity|].
  cbn [evict]. apply IH.
Qed.

Lemma refresh_evolves (w : World) (a : AgentProcess) : evolves a (snd (refresh w a)).
Proof.
  unfold refresh.
  exact (evolves_trans _ _ _ (readNewEvents_evolves w a)
           (updateStatusFromProcess_evolves w (readNewEvents w a))).
Qed.

Lemma refreshed_keys (l : AgentMap.t) :
  forall (w : World) (acc : AgentMap.t),
    map fst (snd (fold_left refreshEntry l (w, acc))) = (map fst acc ++ map fst l)%list /\
    (Forall filed_entry acc -> Forall filed_entry l ->
     Forall filed_entry (snd (fold_left refreshEntry l (w, acc)))).
Proof.
  induction l as [|[k a] l IH]; intros w acc; cbn [fold_left].
  - rewrite app_nil_r. auto.
  - assert (Hstep : refreshEntry (w, acc) (k, a) =
                    (fst (refresh w a), (acc ++ [(k, snd (refresh w a))])%list)).
    { unfold refreshEntry. cbn [fst snd]. now destruct (refresh w a). }
    rewrite Hstep.
    pose proof (ev_agentId _ _ (refresh_evolves w a)) as Hid.
    destruct (IH (fst (refresh w a)) (acc ++ [(k, snd (refresh w a))])%list) as [Hkeys Hfiled].
    split.
    + etrans; [exact Hkeys|]. rewrite map_app, <- app_assoc. reflexivity.
    + intros Hacc Hl. inversion Hl as [|? ? Hka Hl']; subst.
      apply Hfiled; [|assumption].
      apply Forall_app. split; [assumption|]. constructor; [|constructor].
      unfold filed_entry in *. cbn [fst snd] in *. congruence.
Qed.

Lemma pair_match {A B C} (r : A * B) (f : A -> B -> C) :
  (let '(a, b) := r in f a b) = f (fst r) (snd r).
Proof. now destruct r. Qed.

Lemma listAll_refreshed (m : AgentManager) (w : World) :
  listAll m w =
  (fst (fold_left refreshEntry (agents m) (w, [])),
   with_agents m (snd (fold_left refreshEntry (agents m) (w, []))),
   AgentMap.values (snd (fold_left refreshEntry (agents m) (w, [])))).
Proof.
  unfold listAll.
  exact (pair_match (fold_left refreshEntry (agents m) (w, []))
           (fun w refreshed => (w, with_agents m refreshed, AgentMap.values refreshed))).
Qed.

Lemma listCompleted_agents (m : AgentManager) (w : World) :
  snd (listCompleted m w) =
    List.filter (fun a => negb (isRunning a))
                (AgentMap.values (agents (snd (fst (listCompleted m w))))) /\
  maxAgents (snd (fst (listCompleted m w))) = maxAgents m /\
  map fst (agents (snd (fst (listCompleted m w)))) = map fst (agents m) /\
  (Forall filed_entry (agents m) ->
   Forall filed_entry (agents (snd (fst (listCompleted m w))))).
Proof.
  unfold listCompleted. rewrite listAll_refreshed.
  destruct (refreshed_keys (agents m) w []) as [Hkeys Hfiled].
  cbn [fst snd agents with_agents maxAgents].
  split; [reflexivity|]. split; [reflexivity|]. split; [exact Hkeys|].
  intros H. apply Hfiled; [constructor | exact H].
Qed.

(** What [cleanupOldAgents] leaves in the map: the records of the refreshed
    listing but those it evicts, a prefix of the finished ones in the order
    of their completion times. *)
Lemma cleanupOldAgents_agents (m : AgentManager) (w : World) :
  NoDup (map fst (agents m)) ->
  0 <= maxAgents m ->
  exists evicted rest,
    sort_by_time (snd (listCompleted m w)) = (evicted ++ rest)%list /\
    Z.of_nat (length rest) =
      Z.min (maxAgents m) (Z.of_nat (length (snd (listCompleted m w)))) /\
    agents (snd (cleanupOldAgents m w)) =
      List.filter (fun e => negb (has_id evicted (fst e)))
                  (agents (snd (fst (listCompleted m w)))).
Proof.
  intros Hnodup Hmax. unfold cleanupOldAgents.
  destruct (listCompleted_agents m w) as [_ [Hsame [Hkeys _]]].
  destruct (listCompleted m w) as [[w1 m1] completed]. cbn [fst snd] in *.
  rewrite Hsame.
  destruct (maxAgents m <? Z.of_nat (length completed)) eqn:E.
  - apply Z.ltb_lt in E.
    set (surplus := Z.to_nat (Z.of_nat (length completed) - maxAgents m)).
    exists (firstn surplus (sort_by_time completed)), (skipn surplus (sort_by_time completed)).
    split; [now rewrite firstn_skipn|]. split.
    + rewrite length_skipn, (Permutation_length (sort_by_time_perm completed)).
      subst surplus. lia.
    + pose proof (evict_agents (firstn surplus (sort_by_time completed)) w1 (agents m1)) as He.
      destruct (fold_left evict _ (w1, agents m1)) as [w2 l]. cbn [snd agents with_agents] in *.
      rewrite He. apply evictions_filter. now rewrite Hkeys.
  - apply Z.ltb_ge in E. exists [], (sort_by_time completed).
    split; [reflexivity|]. split.
    + rewrite (Permutation_length (sort_by_time_perm completed)). lia.
    + cbn [snd]. symmetry. now apply filter_all.
Qed.

Lemma same_key_same_entry (l : AgentMap.t) (e e' : string * AgentProcess) :
  NoDup (map fst l) -> In e l -> In e' l -> fst e = fst e' -> e = e'.
Proof.
  induction l as [|x l IH]; [intros _ []|].
  cbn [map]. intros Hnodup. apply NoDup_cons in Hnodup as [Hfresh Hnodup].
  assert (Hkey : forall y, In y l -> fst y <> fst x).
  { intros y Hy E. apply Hfresh. rewrite <- E. apply list_elem_of_In, in_map. exact Hy. }
  intros [->|He] [->|He'] E; auto.
  - exfalso. apply (Hkey e' He'). congruence.
  - exfalso. apply (Hkey e He). congruence.
Qed.

(** A record of the listing whose id is the id of an evicted record is that
    record. *)
Lemma evicted_is_finished (l : AgentMap.t) (xs : list AgentProcess) (e : string * AgentProcess) :
  NoDup (map fst l) -> Forall filed_entry l ->
  (forall a, In a xs ->
             In a (List.filter (fun a => negb (isRunning a)) (AgentMap.values l))) ->
  In e l -> has_id xs (fst e) = true ->
  In (snd e) xs /\ isRunning (snd e) = false.
Proof.
  intros Hnodup Hfiled Hxs He Hid.
  unfold has_id in Hid. apply existsb_exists in Hid as [a [Ha Hk]].
  apply String.eqb_eq in Hk.
  pose proof (Hxs a Ha) as Hfin. apply filter_In in Hfin as [Hin Hrun].
  apply negb_true_iff in Hrun.
  unfold AgentMap.values in Hin. apply in_map_iff in Hin as [e' [<- He']].
  assert (e' = e) as ->.
  { apply (same_key_same_entry l); auto.
    rewrite List.Forall_forall in Hfiled. rewrite <- (Hfiled e' He'). exact Hk. }
  auto.
Qed.

Lemma NoDup_map_filter {A B} (f : A -> B) (p : A -> bool) (l : list A) :
  NoDup (map f l) -> NoDup (map f (List.filter p l)).
Proof.
  induction l as [|x l IH]; intros Hnodup; cbn [List.filter]; [constructor|].
  cbn [map] in Hnodup. apply NoDup_cons in Hnodup as [Hfresh Hnodup].
  destruct (p x); [|auto]. cbn [map]. apply NoDup_cons. split; [|auto].
  intros Hin. apply Hfresh. apply list_elem_of_In in Hin. apply list_elem_of_In.
  apply in_map_iff in Hin as [y [Hy Hin]]. apply filter_In in Hin as [Hin _].
  apply in_map_iff. now exists y.
Qed.

Lemma filed_ids (l : AgentMap.t) :
  Forall filed_entry l -> map agentId (AgentMap.values l) = map fst l.
Proof.
  induction 1 as [|e l He _ IH]; [reflexivity|].
  unfold AgentMap.values in *. cbn [map]. now rewrite He, IH.
Qed.

Lemma has_id_In (xs : list AgentProcess) (a : AgentProcess) :
  In a xs -> has_id xs (agentId a) = true.
Proof.
  intros Ha. apply existsb_exists. exists a. split; [assumption | apply String.eqb_refl].
Qed.

Lemma filter_values_kept (p : AgentProcess -> bool) (q : string * AgentProcess -> bool)
      (l : AgentMap.t) :
  (forall e, In e l -> p (snd e) = true -> q e = true) ->
  List.filter p (AgentMap.values (List.filter q l)) = List.filter p (AgentMap.values l).
Proof.
  unfold AgentMap.values.
  induction l as [|e l IH]; intros H; [reflexivity|].
  cbn [List.filter map].
  assert (IH' := IH (fun e' He' => H e' (or_intror He'))).
  destruct (q e) eqn:Hq; cbn [map List.filter].
  - now rewrite IH'.
  - destruct (p (snd e)) eqn:Hp; [|exact IH'].
    rewrite (H e (or_introl eq_refl) Hp) in Hq. discriminate.
Qed.

Lemma filter_values_finished (xs : list AgentProcess) (l : AgentMap.t) :
  Forall filed_entry l ->
  List.filter (fun a => negb (isRunning a))
              (AgentMap.values (List.filter (fun e => negb (has_id xs (fst e))) l)) =
  List.filter (fun a => negb (has_id xs (agentId a)))
              (List.filter (fun a => negb (isRunning a)) (AgentMap.values l)).
Proof.
  unfold AgentMap.values.
  induction 1 as [|e l He _ IH]; [reflexivity|].
  cbn [List.filter map]. unfold filed_entry in He. rewrite <- He.
  destruct (has_id xs (agentId (snd e))) eqn:Hid; cbn [negb map List.filter].
  - destruct (isRunning (snd e)); cbn [negb List.filter]; rewrite ?Hid; exact IH.
  - destruct (isRunning (snd e)); cbn [negb List.filter]; rewrite ?Hid; cbn [negb];
      now rewrite IH.
Qed.

Lemma rest_not_evicted (evicted rest : list AgentProcess) (b : AgentProcess) :
  NoDup (map agentId (evicted ++ rest)) -> In b rest -> has_id evicted (agentId b) = false.
Proof.
  rewrite map_app. intros Hnodup Hb.
  apply NoDup_app in Hnodup as [_ [Hdisjoint _]].
  destruct (has_id evicted (agentId b)) eqn:E; [|reflexivity].
  apply existsb_exists in E as [a [Ha Hk]]. apply String.eqb_eq in Hk.
  exfalso. apply (Hdisjoint (agentId a)).
  - apply list_elem_of_In, in_map. exact Ha.
  - rewrite Hk. apply list_elem_of_In, in_map. exact Hb.
Qed.

(** The facts about one call of [cleanupOldAgents] that its two theorems
    share. *)
Lemma cleanupOldAgents_shape (m : AgentManager) (w : World) :
  Forall filed_entry (agents m) ->
  NoDup (map fst (agents m)) ->
  0 <= maxAgents m ->
  exists evicted rest,
    let l := agents (snd (fst (listCompleted m w))) in
    let finished := List.filter (fun a => negb (isRunning a)) (AgentMap.values l) in
    NoDup (map fst l) /\ Forall filed_entry l /\
    ascending (evicted ++ rest) /\
    (evicted ++ rest)%list ≡ₚ finished /\
    NoDup (map agentId (evicted ++ rest)) /\
    Z.of_nat (length rest) = Z.min (maxAgents m) (Z.of_nat (length finished)) /\
    agents (snd (cleanupOldAgents m w)) =
      List.filter (fun e => negb (has_id evicted (fst e))) l.
Proof.
  intros Hfiled Hnodup Hmax.
  destruct (cleanupOldAgents_agents m w Hnodup Hmax) as [evicted [rest [Hsort [Hlen Hafter]]]].
  destruct (listCompleted_agents m w) as [Hfin [_ [Hkeys Hfiled']]].
  specialize (Hfiled' Hfiled).
  exists evicted, rest. cbv zeta.
  rewrite <- Hfin, <- Hsort, Hkeys.
  split; [exact Hnodup|]. split; [exact Hfiled'|].
  split; [apply sort_by_time_ascending|].
  split; [apply sort_by_time_perm|].
  split; [|split; [exact Hlen | exact Hafter]].
  rewrite (sort_by_time_perm (snd (listCompleted m w))), Hfin.
  apply NoDup_map_filter. rewrite (filed_ids _ Hfiled'), Hkeys. exact Hnodup.
Qed.

(** When every record of the map is filed under its own id,
    [cleanupOldAgents] removes no running record, and leaves at most
    [maxAgents] finished ones: all of them when they are no more than
    [maxAgents], else exactly [maxAgents]. *)
Theorem cleanupOldAgents_bounds_finished_records (m : AgentManager) (w : World) :
  Forall filed_entry (agents m) ->
  NoDup (map fst (agents m)) ->
  0 <= maxAgents m ->
  let before := AgentMap.values (agents (snd (fst (listCompleted m w)))) in
  let after := AgentMap.values (agents (snd (cleanupOldAgents m w))) in
  List.filter isRunning after = List.filter isRunning before /\
  Z.of_nat (length (List.filter (fun a => negb (isRunning a)) after)) =
    Z.min (maxAgents m)
          (Z.of_nat (length (List.filter (fun a => negb (isRunning a)) before))).
Proof.
  intros Hfiled Hnodup Hmax.
  destruct (cleanupOldAgents_shape m w Hfiled Hnodup Hmax)
    as [evicted [rest [Hkeys [Hfiled' [_ [Hperm [Hids [Hlen ->]]]]]]]].
  cbv zeta. set (l := agents (snd (fst (listCompleted m w)))) in *.
  split.
  - apply filter_values_kept. intros e He Hrun.
    destruct (has_id evicted (fst e)) eqn:Hid; [|reflexivity].
    destruct (evicted_is_finished l evicted e Hkeys Hfiled') as [_ Hfin]; auto; [|congruence].
    intros a Ha. eapply Permutation_in; [exact Hperm|]. apply in_or_app. now left.
  - rewrite (filter_values_finished evicted l Hfiled'), <- Hlen.
    rewrite <- (filter_length_perm _ _ _ Hperm), List.filter_app, length_app.
    rewrite filter_none, filter_all; [reflexivity| |].
    + intros b Hb. apply negb_true_iff. now apply (rest_not_evicted evicted rest).
    + intros a Ha. apply negb_false_iff. now apply has_id_In.
Qed.

(** When every record of the map is filed under its own id, the records
    that [cleanupOldAgents] removes are finished, and none of them was
    completed later than a finished record that it keeps. *)
Theorem cleanupOldAgents_evicts_the_oldest
    (m : AgentManager) (w : World) (a b : AgentProcess) :
  Forall filed_entry (agents m) ->
  NoDup (map fst (agents m)) ->
  0 <= maxAgents m ->
  In a (AgentMap.values (agents (snd (fst (listCompleted m w))))) ->
  ~ In a (AgentMap.values (agents (snd (cleanupOldAgents m w)))) ->
  In b (AgentMap.values (agents (snd (cleanupOldAgents m w)))) ->
  isRunning b = false ->
  isRunning a = false /\ completedTime a <= completedTime b.
Proof.
  intros Hfiled Hnodup Hmax.
  destruct (cleanupOldAgents_shape m w Hfiled Hnodup Hmax)
    as [evicted [rest [Hkeys [Hfiled' [Hasc [Hperm [Hids [_ ->]]]]]]]].
  cbv zeta in *. set (l := agents (snd (fst (listCompleted m w)))) in *.
  assert (Hevicted : forall x, In x evicted ->
            In x (List.filter (fun a => negb (isRunning a)) (AgentMap.values l))).
  { intros x Hx. eapply Permutation_in; [exact Hperm|]. apply in_or_app. now left. }
  unfold AgentMap.values. intros Ha Hgone Hb Hfin.
  apply in_map_iff in Ha as [e [<- He]].
  apply in_map_iff in Hb as [e2 [<- He2]]. apply filter_In in He2 as [He2 Hkept].
  apply negb_true_iff in Hkept.
  assert (Hid : has_id evicted (fst e) = true).
  { destruct (has_id evicted (fst e)) eqn:Hid; [reflexivity|].
    exfalso. apply Hgone, in_map, filter_In. split; [exact He | now rewrite Hid]. }
  destruct (evicted_is_finished l evicted e Hkeys Hfiled' Hevicted He Hid) as [Hin Hrun].
  split; [exact Hrun|].
  apply (ascending_app evicted rest); [exact Hasc | exact Hin|].
  assert (Hb : In (snd e2) (evicted ++ rest)).
  { eapply Permutation_in; [symmetry; exact Hperm|].
    apply filter_In. split; [now apply in_map | now rewrite Hfin]. }
  apply in_app_or in Hb as [Hb|Hb]; [|exact Hb].
  exfalso. apply has_id_In in Hb.
  rewrite List.Forall_forall in Hfiled'. rewrite (Hfiled' e2 He2) in Hb. congruence.
Qed.

End RetentionFacts.

Module CliFacts.
Import CliArgs CliSummary.

Section WithParseInt.
Variable parseInt : string -> option Z.

Lemma parse_loop_one (arg : string) (r : CliArgs.t) :
  parse_loop parseInt [arg] r = if is_help_flag arg then with_help r else r.
Proof. reflexivity. Qed.

Lemma parse_loop_more (arg value : string) (rest : list string) (r : CliArgs.t) :
  parse_loop parseInt (arg :: value :: rest) r =
  if is_task_flag arg then parse_loop parseInt rest (with_taskName r value)
  else if String.eqb arg "--timeout" then parse_loop parseInt rest (read_timeout parseInt r value)
  else if is_help_flag arg then parse_loop parseInt (value :: rest) (with_help r)
  else parse_loop parseInt (value :: rest) r.
Proof. reflexivity. Qed.

Lemma parse_loop_invariant (P : CliArgs.t -> Prop) :
  (forall r v, P r -> P (with_taskName r v)) ->
  (forall r v, P r -> P (read_timeout parseInt r v)) ->
  (forall r, P r -> P (with_help r)) ->
  forall args r, P r -> P (parse_loop parseInt args r).
Proof.
  intros Htask Htime Hhelp args.
  assert (H : forall n args, (length args <= n)%nat ->
                             forall r, P r -> P (parse_loop parseInt args r)).
  { induction n as [|n IH]; intros [|arg [|value rest]] Hlen r Hr;
      cbn [length] in Hlen; try lia; try exact Hr.
    - rewrite parse_loop_one. destruct (is_help_flag arg); auto.
    - rewrite parse_loop_more.
      destruct (is_task_flag arg); [apply IH; [lia | auto]|].
      destruct (String.eqb arg "--timeout"); [apply IH; [lia | auto]|].
      destruct (is_help_flag arg); apply IH; cbn [length]; auto; lia. }
  exact (H (length args) args (le_n _)).
Qed.

Lemma parse_loop_taskName :
  forall args r,
    Forall (fun a => is_task_flag a = false) args ->
    taskName (parse_loop parseInt args r) = taskName r.
Proof.
  assert (Htime : forall r v, taskName (read_timeout parseInt r v) = taskName r).
  { intros r v. unfold read_timeout. destruct (parseInt v) as [ms|]; [|reflexivity].
    destruct (0 <? ms); reflexivity. }
  assert (H : forall n args, (length args <= n)%nat ->
                forall r, Forall (fun a => is_task_flag a = false) args ->
                          taskName (parse_loop parseInt args r) = taskName r).
  { induction n as [|n IH]; intros [|arg [|value rest]] Hlen r Hargs;
      cbn [length] in Hlen; try lia; try reflexivity.
    - rewrite parse_loop_one. destruct (is_help_flag arg); reflexivity.
    - rewrite parse_loop_more.
      inversion Hargs as [|? ? Harg Hrest]; subst. rewrite Harg.
      inversion Hrest as [|? ? Hvalue Hrest']; subst.
      destruct (String.eqb arg "--timeout").
      { rewrite IH; [apply Htime | lia | assumption]. }
      destruct (is_help_flag arg); rewrite IH; cbn [length]; auto; lia. }
  intros args r. exact (H (length args) args (le_n _) r).
Qed.

(** Whatever the arguments, the timeout that [parseCliArgs] returns is
    positive and at most [WAIT_MAX_TIMEOUT_MS]. *)
Theorem parseCliArgs_timeout_in_range (argv : list string) :
  0 < timeout (parseCliArgs parseInt argv) <= WAIT_MAX_TIMEOUT_MS.
Proof.
  assert (H : forall args r,
             0 < timeout r <= WAIT_MAX_TIMEOUT_MS ->
             0 < timeout (parse_loop parseInt args r) <= WAIT_MAX_TIMEOUT_MS).
  { intros args.
    apply (parse_loop_invariant (fun r => 0 < timeout r <= WAIT_MAX_TIMEOUT_MS)); auto.
    intros r v Hr. unfold read_timeout. destruct (parseInt v) as [ms|]; [|exact Hr].
    destruct (0 <? ms) eqn:E; [|exact Hr]. apply Z.ltb_lt in E.
    cbn [timeout with_timeout]. unfold WAIT_MAX_TIMEOUT_MS. lia. }
  unfold parseCliArgs.
  assert (Hdefault : 0 < WAIT_DEFAULT_TIMEOUT_MS <= WAIT_MAX_TIMEOUT_MS)
    by (unfold WAIT_DEFAULT_TIMEOUT_MS, WAIT_MAX_TIMEOUT_MS; lia).
  destruct (skipn 2 argv) as [|first rest]; [exact Hdefault|].
  destruct (negb (String.prefix "-" first)); apply H; exact Hdefault.
Qed.

(** A subcommand followed by [--task] and a name: the name is the task
    name, unless a later [--task] or [-t] replaces it. *)
Theorem parseCliArgs_reads_task
    (node script sub name : string) (rest : list string) :
  String.prefix "-" sub = false ->
  Forall (fun a => is_task_flag a = false) rest ->
  subcommand (parseCliArgs parseInt (node :: script :: sub :: "--task" :: name :: rest)) =
    Some sub /\
  taskName (parseCliArgs parseInt (node :: script :: sub :: "--task" :: name :: rest)) =
    Some name.
Proof.
  intros Hsub Hrest. unfold parseCliArgs. cbn [skipn]. rewrite Hsub. cbn [negb].
  rewrite parse_loop_more. change (is_task_flag "--task") with true. cbv iota.
  split.
  - apply (parse_loop_invariant (fun r => subcommand r = Some sub)); auto.
    intros r v Hr. unfold read_timeout. destruct (parseInt v) as [ms|]; [|exact Hr].
    destruct (0 <? ms); exact Hr.
  - now rewrite parse_loop_taskName.
Qed.

End WithParseInt.

Lemma countStatus_total (l : list AgentInfo) :
  forall c,
    let c' := fold_left countStatus l c in
    count_running c' = count_running c + Z.of_nat (length (List.filter (has_status "running") l)) /\
    count_completed c' =
      count_completed c + Z.of_nat (length (List.filter (has_status "completed") l)) /\
    count_failed c' = count_failed c + Z.of_nat (length (List.filter (has_status "failed") l)) /\
    count_stopped c' = count_stopped c + Z.of_nat (length (List.filter (has_status "stopped") l)).
Proof.
  induction l as [|a l IH]; intros c; cbn [fold_left List.filter].
  - cbn. lia.
  - specialize (IH (countStatus c a)). cbv zeta in *.
    destruct IH as [H1 [H2 [H3 H4]]]. rewrite H1, H2, H3, H4.
    unfold countStatus, has_status.
    destruct (info_status a) as [[| | |s| | |]|]; cbn [Js.is_string length]; try lia.
    destruct (String.eqb s "running") eqn:E1.
    { apply String.eqb_eq in E1. subst s. cbn. lia. }
    destruct (String.eqb s "completed") eqn:E2.
    { apply String.eqb_eq in E2. subst s. cbn. lia. }
    destruct (String.eqb s "failed") eqn:E3.
    { apply String.eqb_eq in E3. subst s. cbn. lia. }
    destruct (String.eqb s "stopped") eqn:E4.
    { apply String.eqb_eq in E4. subst s. cbn. lia. }
    cbn. lia.
Qed.

(** Each counter of [sumStatusCounts] is the number of entries with that
    status, and the four counters together never exceed the number of
    entries: an entry whose status is none of the four strings is counted
    nowhere. *)
Theorem sumStatusCounts_counts (l : list AgentInfo) :
  count_running (sumStatusCounts l) = Z.of_nat (length (List.filter (has_status "running") l)) /\
  count_completed (sumStatusCounts l) =
    Z.of_nat (length (List.filter (has_status "completed") l)) /\
  count_failed (sumStatusCounts l) = Z.of_nat (length (List.filter (has_status "failed") l)) /\
  count_stopped (sumStatusCounts l) = Z.of_nat (length (List.filter (has_status "stopped") l)) /\
  count_running (sumStatusCounts l) + count_completed (sumStatusCounts l) +
  count_failed (sumStatusCounts l) + count_stopped (sumStatusCounts l) <= Z.of_nat (length l).
Proof.
  unfold sumStatusCounts.
  destruct (countStatus_total l {| count_running := 0; count_completed := 0;
                                   count_failed := 0; count_stopped := 0 |})
    as [H1 [H2 [H3 H4]]].
  cbv zeta in *. cbn [count_running count_completed count_failed count_stopped] in *.
  rewrite H1, H2, H3, H4. repeat (split; [lia|]).
  clear. induction l as [|a l IH]; [cbn; lia|].
  cbn [List.filter length].
  assert (Hone : forall s s', has_status s a = true -> has_status s' a = true -> s = s').
  { unfold has_status, Js.is_string. destruct (info_status a) as [[]|]; try discriminate.
    intros s1 s2 E1 E2. apply String.eqb_eq in E1, E2. congruence. }
  destruct (has_status "running" a) eqn:E1, (has_status "completed" a) eqn:E2,
           (has_status "failed" a) eqn:E3, (has_status "stopped" a) eqn:E4;
    cbn [length];
    try (pose proof (Hone _ _ E1 E2); discriminate);
    try (pose proof (Hone _ _ E1 E3); discriminate);
    try (pose proof (Hone _ _ E1 E4); discriminate);
    try (pose proof (Hone _ _ E2 E3); discriminate);
    try (pose proof (Hone _ _ E2 E4); discriminate);
    try (pose proof (Hone _ _ E3 E4); discriminate);
    lia.
Qed.

(** Every entry that [getTaskAgents] returns comes from a directory whose
    meta names the requested task; and an entry is reported as running only
    where the meta says running and the process is not known to be gone. *)
Theorem getTaskAgents_reports_live_records (w : World) (task : string) (i : AgentInfo) :
  In i (Cli.getTaskAgents w task) ->
  info_task_name i = Some (JStr task) /\
  exists k d m,
    store w !! k = Some d /\ meta d = Some m /\
    info_agent_id i = Js.get m "agent_id" /\
    (Js.is_string (info_status i) "running" = true ->
     Js.is_string (Js.get m "status") "running" = true /\
     Cli.pid_gone w (Js.get m "pid") = false).
Proof.
  unfold Cli.getTaskAgents. rewrite <- list_elem_of_In, list_elem_of_omap.
  intros [[k d] [Hin Hi]]. apply elem_of_map_to_list in Hin. cbn [snd] in Hi.
  unfold Cli.taskAgent in Hi.
  destruct (meta d) as [[| | | | | |fields]|] eqn:Hmeta; try discriminate.
  destruct (Js.is_string (Js.get (JObj fields) "task_name") task) eqn:Htask;
    [|discriminate].
  cbn [negb] in Hi. injection Hi as <-. cbn [info_task_name info_agent_id info_status].
  split.
  - unfold Js.is_string in Htask. cbn [Js.get] in *.
    destruct (Js.assoc "task_name" fields) as [[| | |s| | |]|]; try discriminate.
    apply String.eqb_eq in Htask. now subst.
  - exists k, d, (JObj fields).
    split; [exact Hin|]. split; [exact Hmeta|]. split; [reflexivity|].
    cbn [Js.get].
    destruct (Js.is_string (Js.assoc "status" fields) "running") eqn:Hrun; cbn [andb].
    + destruct (Cli.pid_gone w (Js.assoc "pid" fields)); [discriminate | auto].
    + rewrite Hrun. discriminate.
Qed.


End CliFacts.

Module MonitorFacts.
Import Monitor.

Section WithDate.
Variable Date_parse : string -> option Z.

Lemma reported_null (d : AgentDir) : meta d = Some JNull -> reported d = None.
Proof. unfold reported. now intros ->. Qed.

Lemma tick_loop_cons (now : Z) (d : AgentDir) (rest : list AgentDir)
      (known : gmap Text Text) (sent : list Notification) :
  tick_loop Date_parse now (d :: rest) known sent =
  match meta d with
  | Some JNull => (known, sent)
  | Some m =>
      match reported d with
      | Some (agentId, status) =>
          if match known !! agentId with Some p => is_running p | None => false end
             && negb (is_running status)
          then tick_loop Date_parse now rest (<[agentId := status]> known)
                         (sent ++ [notification Date_parse now m agentId status])
          else tick_loop Date_parse now rest (<[agentId := status]> known) sent
      | None => tick_loop Date_parse now rest known sent
      end
  | None => tick_loop Date_parse now rest known sent
  end.
Proof.
  cbn [tick_loop]. unfold reported.
  destruct (meta d) as [m|]; [|reflexivity].
  destruct m; try reflexivity;
    destruct (text_of _) as [agentId|]; try reflexivity;
    destruct (text_of _) as [status|]; reflexivity.
Qed.

Lemma populate_entry_reported (known : gmap Text Text) (d : AgentDir) :
  populate_entry known d =
  match reported d with
  | Some (agentId, status) => <[agentId := status]> known
  | None => known
  end.
Proof.
  unfold populate_entry, reported.
  destruct (meta d) as [m|]; [|reflexivity].
  destruct (text_of _) as [agentId|]; [|reflexivity].
  destruct (text_of _) as [status|]; reflexivity.
Qed.

Lemma ids_cons (d : AgentDir) (rest : list AgentDir) :
  ids (d :: rest) =
  match reported d with
  | Some (agentId, _) => agentId :: ids rest
  | None => ids rest
  end.
Proof. unfold ids. cbn [omap list_omap]. now destruct (reported d) as [[? ?]|]. Qed.

Lemma ids_In (d : AgentDir) (entries : list AgentDir) (id st : Text) :
  In d entries -> reported d = Some (id, st) -> In id (ids entries).
Proof.
  intros Hd Hr. unfold ids. apply in_map_iff. exists (id, st). split; [reflexivity|].
  apply list_elem_of_In, list_elem_of_omap. exists d. split; [|exact Hr].
  now apply list_elem_of_In.
Qed.

Lemma populate_keeps (entries : list AgentDir) :
  forall known id,
    ~ In id (ids entries) -> fold_left populate_entry entries known !! id = known !! id.
Proof.
  induction entries as [|d rest IH]; intros known id Hid; [reflexivity|].
  cbn [fold_left]. rewrite ids_cons in Hid. rewrite populate_entry_reported.
  destruct (reported d) as [[agentId status]|].
  - rewrite IH by (intros H; apply Hid; now right).
    apply lookup_insert_ne. intros ->. apply Hid. now left.
  - now apply IH.
Qed.

Lemma populate_agrees (entries : list AgentDir) :
  forall known, NoDup (ids entries) -> agrees (fold_left populate_entry entries known) entries.
Proof.
  induction entries as [|d rest IH]; intros known Hnodup d' id st Hd' Hr; [destruct Hd'|].
  cbn [fold_left]. rewrite ids_cons in Hnodup.
  destruct Hd' as [->|Hd'].
  - rewrite populate_entry_reported, Hr. rewrite Hr in Hnodup.
    apply NoDup_cons in Hnodup as [Hfresh _]. rewrite list_elem_of_In in Hfresh.
    rewrite populate_keeps by exact Hfresh. apply lookup_insert_eq.
  - apply (IH _ (match reported d as r
                       return NoDup match r with
                                    | Some (agentId, _) => agentId :: ids rest
                                    | None => ids rest
                                    end -> NoDup (ids rest)
                 with
                 | Some (agentId, _) => fun H => proj2 (proj1 (NoDup_cons _ _) H)
                 | None => fun H => H
                 end Hnodup) d' id st Hd' Hr).
Qed.

Lemma tick_loop_before_null (now : Z) (entries : list AgentDir) :
  forall known sent,
    tick_loop Date_parse now entries known sent =
    tick_loop Date_parse now (before_null entries) known sent.
Proof.
  induction entries as [|d rest IH]; intros known sent; [reflexivity|].
  cbn [before_null]. destruct (meta d) as [m|] eqn:Hm.
  - destruct m.
    1: { rewrite tick_loop_cons, Hm. reflexivity. }
    all: rewrite !tick_loop_cons, Hm.
    all: destruct (reported d) as [[agentId status]|]; [|apply IH].
    all: match goal with |- context [if ?c then _ else _] => destruct c end; apply IH.
  - rewrite !tick_loop_cons, Hm. apply IH.
Qed.

Lemma before_null_not_null (entries : list AgentDir) :
  Forall (fun d => meta d <> Some JNull) (before_null entries).
Proof.
  induction entries as [|d rest IH]; cbn [before_null]; [constructor|].
  destruct (meta d) as [m|] eqn:Hm.
  - destruct m; try (constructor; [rewrite Hm; discriminate | exact IH]). constructor.
  - constructor; [rewrite Hm; discriminate | exact IH].
Qed.

Lemma before_null_ids (entries : list AgentDir) :
  NoDup (ids entries) -> NoDup (ids (before_null entries)).
Proof.
  induction entries as [|d rest IH]; intros Hnodup; cbn [before_null]; [exact Hnodup|].
  rewrite ids_cons in Hnodup.
  assert (Hrest : NoDup (ids rest)).
  { destruct (reported d) as [[agentId status]|]; [|exact Hnodup].
    now apply NoDup_cons in Hnodup as [_ H]. }
  assert (Hsub : forall id, In id (ids (before_null rest)) -> In id (ids rest)).
  { clear. induction rest as [|d rest IH]; intros id; cbn [before_null]; [auto|].
    assert (Hcons : In id (ids (d :: before_null rest)) -> In id (ids (d :: rest))).
    { rewrite !ids_cons. destruct (reported d) as [[a s]|];
        [intros [->|H]; [now left | right; now apply IH] | apply IH]. }
    destruct (meta d) as [m|]; [|exact Hcons].
    destruct m; try exact Hcons. intros []. }
  assert (Hgoal : NoDup (ids (d :: before_null rest))).
  { rewrite ids_cons. destruct (reported d) as [[agentId status]|]; [|now apply IH].
    apply NoDup_cons in Hnodup as [Hfresh _]. apply NoDup_cons. split; [|now apply IH].
    rewrite list_elem_of_In in *. intros H. apply Hfresh. now apply Hsub. }
  destruct (meta d) as [m|]; [|exact Hgoal].
  destruct m; try exact Hgoal. constructor.
Qed.

Lemma before_null_In (entries : list AgentDir) (d : AgentDir) :
  In d (before_null entries) -> In d entries.
Proof.
  induction entries as [|x rest IH]; cbn [before_null]; [auto|].
  destruct (meta x) as [m|].
  - destruct m; try (intros [->|H]; [now left | right; now apply IH]). intros [].
  - intros [->|H]; [now left | right; now apply IH].
Qed.

Lemma tick_loop_known (now : Z) (entries : list AgentDir) :
  Forall (fun d => meta d <> Some JNull) entries ->
  forall known sent,
    fst (tick_loop Date_parse now entries known sent) = fold_left populate_entry entries known.
Proof.
  induction 1 as [|d rest Hd _ IH]; intros known sent; [reflexivity|].
  rewrite tick_loop_cons. cbn [fold_left]. rewrite populate_entry_reported.
  destruct (meta d) as [m|] eqn:Hm.
  - destruct m; try contradiction;
      (destruct (reported d) as [[agentId status]|]; [|apply IH];
       destruct (_ && _); apply IH).
  - unfold reported. rewrite Hm. apply IH.
Qed.

Lemma tick_loop_quiet (now : Z) (entries : list AgentDir) :
  forall known sent,
    agrees known entries -> snd (tick_loop Date_parse now entries known sent) = sent.
Proof.
  induction entries as [|d rest IH]; intros known sent Hagrees; [reflexivity|].
  rewrite tick_loop_cons.
  assert (Hrest : agrees known rest).
  { intros d' id st Hd'. apply Hagrees. now right. }
  destruct (meta d) as [m|]; [|now apply IH].
  assert (Hstep : snd match reported d with
                      | Some (agentId, status) =>
                          if match known !! agentId with
                             | Some p => is_running p
                             | None => false
                             end && negb (is_running status)
                          then tick_loop Date_parse now rest (<[agentId := status]> known)
                                 (sent ++ [notification Date_parse now m agentId status])
                          else tick_loop Date_parse now rest (<[agentId := status]> known) sent
                      | None => tick_loop Date_parse now rest known sent
                      end = sent).
  { destruct (reported d) as [[agentId status]|] eqn:Hr; [|now apply IH].
    rewrite (Hagrees d agentId status (or_introl eq_refl) Hr).
    rewrite andb_negb_r. apply IH.
    intros d' id st Hd' Hr'. destruct (decide (id = agentId)) as [->|Hne].
    - rewrite lookup_insert_eq.
      pose proof (Hagrees d' agentId st (or_intror Hd') Hr') as H1.
      pose proof (Hagrees d agentId status (or_introl eq_refl) Hr) as H2. congruence.
    - rewrite lookup_insert_ne by congruence. now apply (Hrest d'). }
  destruct m; try exact Hstep. reflexivity.
Qed.

Lemma agrees_before_null (known : gmap Text Text) (entries : list AgentDir) :
  agrees known entries -> agrees known (before_null entries).
Proof. intros H d id st Hd. apply H. now apply before_null_In. Qed.

(** When no two directories report the same agent id, the first tick
    after the monitor has started sends nothing: what was finished before
    the start is not announced. *)
Theorem monitor_start_is_quiet (w : World) :
  distinct_ids w -> snd (tick Date_parse (populate w) w) = [].
Proof.
  unfold distinct_ids, tick, populate. intros Hnodup.
  apply tick_loop_quiet. now apply populate_agrees.
Qed.

(** When no two directories report the same agent id, a tick over a store
    that has not changed since the last tick sends nothing: a transition is
    announced once. *)
Theorem monitor_notifies_once (known : gmap Text Text) (w : World) :
  distinct_ids w -> snd (tick Date_parse (fst (tick Date_parse known w)) w) = [].
Proof.
  unfold distinct_ids, tick. intros Hnodup.
  set (entries := map snd (map_to_list (store w))) in *.
  rewrite (tick_loop_before_null (now w) entries known).
  rewrite (tick_loop_before_null (now w) entries).
  rewrite (tick_loop_known (now w) _ (before_null_not_null entries)).
  apply tick_loop_quiet, populate_agrees. now apply before_null_ids.
Qed.

Lemma duration_ms_nonneg (startMs endMs : option Z) : 0 <= duration_ms startMs endMs.
Proof.
  unfold duration_ms. destruct startMs as [s|], endMs as [e|]; try lia.
  destruct (s <? e) eqn:E; [apply Z.ltb_lt in E|]; lia.
Qed.

Lemma tick_loop_sent (now : Z) (entries : list AgentDir) :
  forall known sent n,
    NoDup (ids entries) ->
    In n (snd (tick_loop Date_parse now entries known sent)) ->
    In n sent \/
    (In (n_agent_id n) (ids entries) /\
     (exists p, known !! n_agent_id n = Some p /\ is_running p = true) /\
     is_running (n_status n) = false /\
     0 <= n_duration_ms n).
Proof.
  induction entries as [|d rest IH]; intros known sent n Hnodup; [now left|].
  rewrite tick_loop_cons, ids_cons.
  rewrite ids_cons in Hnodup.
  destruct (meta d) as [m|] eqn:Hm.
  2:{ assert (Hr : reported d = None) by (unfold reported; now rewrite Hm).
      rewrite Hr in *. now apply IH. }
  assert (Hstep :
    In n (snd match reported d with
              | Some (agentId, status) =>
                  if match known !! agentId with
                     | Some p => is_running p
                     | None => false
                     end && negb (is_running status)
                  then tick_loop Date_parse now rest (<[agentId := status]> known)
                         (sent ++ [notification Date_parse now m agentId status])
                  else tick_loop Date_parse now rest (<[agentId := status]> known) sent
              | None => tick_loop Date_parse now rest known sent
              end) ->
    In n sent \/
    (In (n_agent_id n)
        match reported d with
        | Some (agentId, _) => agentId :: ids rest
        | None => ids rest
        end /\
     (exists p, known !! n_agent_id n = Some p /\ is_running p = true) /\
     is_running (n_status n) = false /\ 0 <= n_duration_ms n)).
  { destruct (reported d) as [[agentId status]|].
    - apply NoDup_cons in Hnodup as [Hfresh Hnodup]. rewrite list_elem_of_In in Hfresh.
      assert (Hrest : forall sent',
                 In n (snd (tick_loop Date_parse now rest (<[agentId := status]> known) sent')) ->
                 In n sent' \/
                 (In (n_agent_id n) (agentId :: ids rest) /\
                  (exists p, known !! n_agent_id n = Some p /\ is_running p = true) /\
                  is_running (n_status n) = false /\ 0 <= n_duration_ms n)).
      { intros sent' Hn.
        destruct (IH _ sent' n Hnodup Hn) as [H|[H1 [[p [Hp Hrun]] H2]]]; [now left|].
        right. split; [now right|]. split; [|exact H2].
        exists p. split; [|exact Hrun].
        rewrite lookup_insert_ne in Hp; [exact Hp|]. intros ->. contradiction. }
      destruct (known !! agentId) as [p|] eqn:Hp; cbn [andb]; [|apply Hrest].
      destruct (is_running p) eqn:Hrun; cbn [andb]; [|apply Hrest].
      destruct (is_running status) eqn:Hst; cbn [negb]; [apply Hrest|].
      intros Hn. destruct (Hrest _ Hn) as [H|H]; [|now right].
      apply in_app_or in H as [H|[<-|[]]]; [now left|].
      right. cbn [n_agent_id n_status n_duration_ms notification].
      split; [now left|]. split; [eauto|]. split; [exact Hst|]. apply duration_ms_nonneg.
    - intros Hn. destruct (IH known sent n Hnodup Hn) as [H|H]; [now left | now right]. }
  destruct m; try exact Hstep. now left.
Qed.

(** When no two directories report the same agent id, every message of a
    tick is about a transition: the agent was known as running before the
    tick, the status it now reports is not running, and the duration in
    the message is not negative. *)
Theorem monitor_notifies_transitions
    (known : gmap Text Text) (w : World) (n : Notification) :
  distinct_ids w ->
  In n (snd (tick Date_parse known w)) ->
  (exists p, known !! n_agent_id n = Some p /\ is_running p = true) /\
  is_running (n_status n) = false /\
  0 <= n_duration_ms n.
Proof.
  unfold distinct_ids, tick. intros Hnodup Hn.
  destruct (tick_loop_sent (now w) _ known [] n Hnodup Hn) as [[]|[_ H]]. exact H.
Qed.

End WithDate.

End MonitorFacts.

Module PathLCAFacts.
Import PathLCA.

Section WithPath.
Context {R : Runtime}.
Variable root_of : string -> string.
Variable sep : ascii.
Variable path_join : string -> list string -> string.

Lemma min_fold (l : list (string * list string)) :
  forall n0,
    (fold_left (fun n p => Nat.min n (length (snd p))) l n0 <= n0)%nat /\
    (forall p : string * list string, In p l ->
       (fold_left (fun n p => Nat.min n (length (snd p))) l n0 <= length (snd p))%nat) /\
    (fold_left (fun n p => Nat.min n (length (snd p))) l n0 = n0 \/
     exists p : string * list string,
       In p l /\ length (snd p) = fold_left (fun n p => Nat.min n (length (snd p))) l n0).
Proof.
  induction l as [|x l IH]; intros n0; cbn [fold_left].
  - split; [lia|]. split; [intros ? []|now left].
  - destruct (IH (Nat.min n0 (length (snd x)))) as [H1 [H2 H3]].
    split; [lia|]. split.
    + intros p [->|Hp]; [lia | now apply H2].
    + destruct H3 as [H3|[p [Hp H3]]].
      * destruct (Nat.min_dec n0 (length (snd x))) as [E|E].
        -- left. congruence.
        -- right. exists x. split; [now left | congruence].
      * right. exists p. split; [now right | exact H3].
Qed.

Lemma minLen_le (first : string * list string) (rest : list (string * list string)) :
  (forall p, In p (first :: rest) -> (minLen (first :: rest) <= length (snd p))%nat) /\
  exists p, In p (first :: rest) /\ length (snd p) = minLen (first :: rest).
Proof.
  cbn [minLen]. destruct (min_fold rest (length (snd first))) as [H1 [H2 H3]].
  split.
  - intros p [<-|Hp]; [exact H1 | now apply H2].
  - destruct H3 as [H3|[p [Hp H3]]].
    + exists first. split; [now left | now rewrite H3].
    + exists p. split; [now right | exact H3].
Qed.

Lemma allMatch_true (parsed : list (string * list string)) (i : nat) (segment : string) :
  allMatch parsed i segment = true <-> forall p, In p parsed -> snd p !! i = Some segment.
Proof.
  unfold allMatch. rewrite forallb_forall. split; intros H p Hp; specialize (H p Hp).
  - destruct (snd p !! i) as [s|]; [|discriminate]. apply String.eqb_eq in H. now subst.
  - rewrite H. apply String.eqb_refl.
Qed.

Lemma allMatch_false (parsed : list (string * list string)) (i : nat) (segment : string) :
  allMatch parsed i segment = false -> exists p, In p parsed /\ snd p !! i <> Some segment.
Proof.
  unfold allMatch. induction parsed as [|x l IH]; [discriminate|].
  cbn [forallb]. intros H. apply andb_false_iff in H as [H|H].
  - exists x. split; [now left|]. intros E. rewrite E, String.eqb_refl in H. discriminate.
  - destruct (IH H) as [p [Hp Hne]]. exists p. split; [now right | exact Hne].
Qed.

Lemma commonLoop_spec (first : string * list string) (rest : list (string * list string)) :
  forall fuel i commonParts,
    (forall p, In p (first :: rest) -> take i (snd p) = commonParts) ->
    length commonParts = i ->
    (i + fuel)%nat = minLen (first :: rest) ->
    (forall p, In p (first :: rest) ->
               commonLoop fuel i (first :: rest) commonParts `prefix_of` snd p) /\
    (length (commonLoop fuel i (first :: rest) commonParts) = minLen (first :: rest) \/
     exists p, In p (first :: rest) /\
               snd p !! length (commonLoop fuel i (first :: rest) commonParts) <>
               snd first !! length (commonLoop fuel i (first :: rest) commonParts)).
Proof.
  destruct (minLen_le first rest) as [Hmin _].
  induction fuel as [|fuel IH]; intros i commonParts Htake Hlen Hfuel; cbn [commonLoop].
  - split; [|left; lia].
    intros p Hp. rewrite <- (Htake p Hp). apply prefix_take.
  - cbn [head mbind option_bind].
    destruct (snd first !! i) as [segment|] eqn:Hseg.
    2:{ apply lookup_ge_None in Hseg. specialize (Hmin first (or_introl eq_refl)). lia. }
    destruct (allMatch (first :: rest) i segment) eqn:Hall.
    + rewrite allMatch_true in Hall. apply IH; [| |lia].
      * intros p Hp. rewrite (take_S_r _ _ _ (Hall p Hp)), (Htake p Hp). reflexivity.
      * rewrite length_app. cbn. lia.
    + split.
      * intros p Hp. rewrite <- (Htake p Hp). apply prefix_take.
      * right. apply allMatch_false in Hall as [p [Hp Hne]].
        exists p. split; [exact Hp|]. now rewrite Hlen, Hseg.
Qed.

Lemma commonLoop_deepest (first : string * list string) (rest : list (string * list string)) :
  deepest_common (commonLoop (minLen (first :: rest)) 0 (first :: rest) [])
                 (map snd (first :: rest)).
Proof.
  destruct (commonLoop_spec first rest (minLen (first :: rest)) 0 []) as [Hprefix Hmax];
    [reflexivity | reflexivity | reflexivity |].
  set (common := commonLoop (minLen (first :: rest)) 0 (first :: rest) []) in *.
  split.
  - apply List.Forall_forall. intros parts Hparts.
    apply in_map_iff in Hparts as [p [<- Hp]]. now apply Hprefix.
  - intros other Hother. rewrite List.Forall_forall in Hother.
    assert (Hall : forall p, In p (first :: rest) -> other `prefix_of` snd p).
    { intros p Hp. apply Hother, in_map, Hp. }
    destruct (prefix_weak_total other common (snd first)) as [H|H];
      [apply Hall; now left | apply Hprefix; now left | exact H |].
    destruct (decide (length other <= length common)%nat) as [Hle|Hgt].
    { rewrite (prefix_length_eq _ _ H Hle). reflexivity. }
    exfalso. destruct Hmax as [Hfull|[p [Hp Hne]]].
    + destruct (minLen_le first rest) as [_ [p [Hp Hlen]]].
      pose proof (prefix_length _ _ (Hall p Hp)). lia.
    + apply Hne.
      rewrite <- (prefix_lookup_lt other (snd p)) by (try apply Hall; auto; lia).
      rewrite <- (prefix_lookup_lt other (snd first)) by (try apply Hall; auto; try lia; now left).
      reflexivity.
Qed.

(** [computePathLCA] answers [null] when no path is given, and the one
    path, resolved, when one is given.  For several paths it compares the
    roots, and then finds the longest list of segments that all the paths
    start with: the answer is the root of the first path joined with these
    segments, and [null] when the roots differ or no segment is shared. *)
Theorem computePathLCA_deepest_common_directory (paths : list string) :
  match List.filter validPath paths with
  | [] => computePathLCA root_of sep path_join paths = None
  | [p] => computePathLCA root_of sep path_join paths = Some (path_resolve p)
  | p0 :: more =>
      let resolved := map path_resolve (p0 :: more) in
      if forallb (fun p => String.eqb (normalizeRoot (root_of p))
                                      (normalizeRoot (root_of (path_resolve p0)))) resolved
      then exists common,
             deepest_common common (map (partsOf root_of sep) resolved) /\
             computePathLCA root_of sep path_join paths =
               match common with
               | [] => None
               | _ => Some (path_join (root_of (path_resolve p0)) common)
               end
      else computePathLCA root_of sep path_join paths = None
  end.
Proof.
  unfold computePathLCA.
  destruct (List.filter validPath paths) as [|p0 [|p1 more]]; [reflexivity | reflexivity|].
  cbv zeta. set (valid := p0 :: p1 :: more).
  set (parsed := map (fun p => (root_of p, partsOf root_of sep p)) (map path_resolve valid)).
  assert (Hroots :
            forallb (fun p => String.eqb (normalizeRoot (fst p))
                                         (normalizeRoot (root_of (path_resolve p0)))) parsed =
            forallb (fun p => String.eqb (normalizeRoot (root_of p))
                                         (normalizeRoot (root_of (path_resolve p0))))
                    (map path_resolve valid)).
  { subst parsed. generalize (map path_resolve valid) as l.
    induction l as [|x l IH]; [reflexivity|]. cbn [map forallb fst]. now rewrite IH. }
  change (match parsed with first :: _ => fst first | [] => "" end)
    with (root_of (path_resolve p0)).
  rewrite Hroots.
  destruct (forallb _ (map path_resolve valid)); [|reflexivity].
  cbn [negb].
  exists (commonLoop (minLen parsed) 0 parsed []). split; [|reflexivity].
  assert (Hparts : map (partsOf root_of sep) (map path_resolve valid) = map snd parsed).
  { subst parsed. now rewrite !map_map. }
  rewrite Hparts. subst parsed valid. cbn [map]. apply commonLoop_deepest.
Qed.

End WithPath.

End PathLCAFacts.

Module RalphFacts.
Import Ralph.

Section WithRuntime.
Context {R : Runtime}.
Variable homedir : string.

(** On a POSIX host, where the separator is the slash, [path.resolve]
    leaves the paths of the table as they are and returns no path that
    starts with two slashes: [isDangerousPath] holds of the home directory
    itself, of the root itself, and of the five system directories with
    everything below them; of nothing else.  The entry of the root covers
    no path below the root. *)
Theorem isDangerousPath_on_posix (cwd : string) :
  path_resolve "/" = "/" ->
  Forall (fun d => path_resolve d = d) systemDirectories ->
  String.prefix "//" (path_resolve cwd) = false ->
  isDangerousPath homedir "/" cwd =
    String.eqb (path_resolve cwd) (path_resolve homedir) ||
    String.eqb (path_resolve cwd) "/" ||
    existsb (fun d => String.eqb (path_resolve cwd) d ||
                      String.prefix (d +:+ "/") (path_resolve cwd))
            systemDirectories.
Proof.
  intros Hroot Hsys Hslashes.
  unfold isDangerousPath, dangerousPaths, systemDirectories in *.
  repeat match goal with
         | H : Forall _ (_ :: _) |- _ => inversion H; subst; clear H
         end.
  cbn [existsb fst snd andb].
  repeat match goal with H : path_resolve _ = _ |- _ => rewrite H; clear H end.
  change ("/" +:+ "/") with "//". rewrite Hslashes.
  rewrite !orb_false_r. rewrite <- !orb_assoc. reflexivity.
Qed.

End WithRuntime.

End RalphFacts.

Module ConfigFacts.
Import Persistence.

Lemma assoc_assign (k k' : string) (v : json) (o : list (string * json)) :
  Js.assoc k' (assign k v o) = if String.eqb k' k then Some v else Js.assoc k' o.
Proof.
  induction o as [|[k0 v0] o IH]; cbn [assign Js.assoc].
  - destruct (String.eqb k' k); reflexivity.
  - destruct (String.eqb k k0) eqn:E; cbn [Js.assoc].
    + apply String.eqb_eq in E. subst k0. destruct (String.eqb k' k); reflexivity.
    + rewrite IH. destruct (String.eqb k' k0) eqn:E0; [|reflexivity].
      apply String.eqb_eq in E0. subst k0.
      destruct (String.eqb k' k) eqn:E1; [|reflexivity].
      apply String.eqb_eq in E1. subst. rewrite String.eqb_refl in E. discriminate.
Qed.

Lemma getDefaultAgentConfig_known (agentType : string) :
  In agentType ALL_AGENTS <-> exists c, getDefaultAgentConfig agentType = Some c.
Proof.
  split.
  - intros H. repeat (destruct H as [<-|H]; [eexists; reflexivity|]). destruct H.
  - intros [c H]. unfold getDefaultAgentConfig in H.
    destruct (existsb (String.eqb agentType) ALL_AGENTS) eqn:E; [|discriminate].
    apply existsb_exists in E as [x [Hx E]]. apply String.eqb_eq in E. now subst.
Qed.

(** The keys of [agentConfigs] and the entries of [enabledAgents] while
    the loop over the file runs. *)
Lemma mergeAgent_keys (l : list (string * json)) :
  forall acc,
    (forall k, is_Some_b (Js.assoc k (snd (fold_left mergeAgent l acc))) = true ->
               is_Some_b (Js.assoc k (snd acc)) = true \/
               (In k ALL_AGENTS /\ In k (map fst l))) /\
    (forall t, In t (fst (fold_left mergeAgent l acc)) ->
               In t (fst acc) \/ (In t ALL_AGENTS /\ In t (map fst l))).
Proof.
  induction l as [|e l IH]; intros acc; cbn [fold_left]; [auto|].
  destruct (IH (mergeAgent acc e)) as [Hkeys Henabled].
  assert (Hstep : (forall k, is_Some_b (Js.assoc k (snd (mergeAgent acc e))) = true ->
                             is_Some_b (Js.assoc k (snd acc)) = true \/
                             (In k ALL_AGENTS /\ k = fst e)) /\
                  (forall t, In t (fst (mergeAgent acc e)) ->
                             In t (fst acc) \/ (In t ALL_AGENTS /\ t = fst e))).
  { unfold mergeAgent. destruct (getDefaultAgentConfig (fst e)) as [c|] eqn:Hc; [|auto].
    assert (Hin : In (fst e) ALL_AGENTS) by (apply getDefaultAgentConfig_known; eauto).
    cbn [fst snd]. split.
    - intros k. rewrite assoc_assign. destruct (String.eqb k (fst e)) eqn:E; [|auto].
      apply String.eqb_eq in E. subst k. auto.
    - intros t. destruct (match Js.assoc "enabled" (spread c (snd e)) with
                          | Some v => Js.truthy v
                          | None => false
                          end); [|auto].
      intros Ht. apply in_app_or in Ht as [Ht|[<-|[]]]; auto. }
  destruct Hstep as [Hk He]. cbn [map]. split.
  - intros k H. destruct (Hkeys k H) as [H'|[H1 H2]].
    + destruct (Hk k H') as [H''|[H1 ->]]; [now left|]. right. split; [exact H1 | now left].
    + right. split; [exact H1 | now right].
  - intros t Ht. destruct (Henabled t Ht) as [H'|[H1 H2]].
    + destruct (He t H') as [H''|[H1 ->]]; [now left|]. right. split; [exact H1 | now left].
    + right. split; [exact H1 | now right].
Qed.

Lemma filled_idem (k : string) (x : option json) : filled k (filled k x) = filled k x.
Proof.
  unfold filled. destruct x as [v|].
  - destruct (Js.truthy v) eqn:E; [now rewrite E|].
    destruct (getDefaultAgentConfig k); [reflexivity | now rewrite E].
  - destruct (getDefaultAgentConfig k); reflexivity.
Qed.

Lemma fillAgent_assoc (o : list (string * json)) (t k : string) :
  Js.assoc k (fillAgent o t) = if String.eqb k t then filled t (Js.assoc t o) else Js.assoc k o.
Proof.
  unfold fillAgent, filled.
  destruct (String.eqb k t) eqn:E.
  - apply String.eqb_eq in E. subst k.
    destruct (Js.assoc t o) as [v|] eqn:Hv.
    + destruct (Js.truthy v); [exact Hv|].
      destruct (getDefaultAgentConfig t); [|exact Hv].
      now rewrite assoc_assign, String.eqb_refl.
    + destruct (getDefaultAgentConfig t); [|exact Hv].
      now rewrite assoc_assign, String.eqb_refl.
  - destruct (Js.assoc t o) as [v|].
    + destruct (Js.truthy v); [reflexivity|].
      destruct (getDefaultAgentConfig t); [|reflexivity]. now rewrite assoc_assign, E.
    + destruct (getDefaultAgentConfig t); [|reflexivity]. now rewrite assoc_assign, E.
Qed.

Lemma fillAgents_assoc (l : list string) :
  forall o k,
    Js.assoc k (fold_left fillAgent l o) =
    if existsb (String.eqb k) l then filled k (Js.assoc k o) else Js.assoc k o.
Proof.
  induction l as [|t l IH]; intros o k; cbn [fold_left existsb]; [reflexivity|].
  rewrite IH, fillAgent_assoc.
  destruct (String.eqb k t) eqn:E; cbn [orb].
  - apply String.eqb_eq in E. subst t.
    destruct (existsb (String.eqb k) l); [apply filled_idem | reflexivity].
  - reflexivity.
Qed.

Lemma ALL_AGENTS_existsb (k : string) :
  existsb (String.eqb k) ALL_AGENTS = true <-> In k ALL_AGENTS.
Proof.
  rewrite existsb_exists. split.
  - intros [x [Hx E]]. apply String.eqb_eq in E. now subst.
  - intros H. exists k. split; [exact H | apply String.eqb_refl].
Qed.

(** The agents of a configuration that [readConfig] has read from its
    file.  Every kind of [ALL_AGENTS] has a configuration and nothing else
    has: an entry for copilot is dropped.  An agent is enabled only when the
    file names it; a kind that the file leaves out gets the default
    configuration, and is not listed as enabled. *)
Theorem readParsed_agents (config : json) :
  (forall k, is_Some_b (Js.assoc k (agentConfigs (readParsed config))) = true <->
             In k ALL_AGENTS) /\
  (forall t, In t (enabledAgents (readParsed config)) ->
             In t ALL_AGENTS /\
             In t (map fst (entries (default JNull (Js.get config "agents"))))) /\
  (forall t, In t ALL_AGENTS ->
             ~ In t (map fst (entries (default JNull (Js.get config "agents")))) ->
             Js.assoc t (agentConfigs (readParsed config)) =
               option_map JObj (getDefaultAgentConfig t) /\
             ~ In t (enabledAgents (readParsed config))).
Proof.
  unfold readParsed.
  set (l := entries (default JNull (Js.get config "agents"))).
  set (merged := if isObject (Js.get config "agents")
                 then fold_left mergeAgent l ([], [])
                 else ([], [])).
  assert (Hmerged :
            (forall k, is_Some_b (Js.assoc k (snd merged)) = true ->
                       In k ALL_AGENTS /\ In k (map fst l)) /\
            (forall t, In t (fst merged) -> In t ALL_AGENTS /\ In t (map fst l))).
  { subst merged. destruct (isObject (Js.get config "agents")).
    - destruct (mergeAgent_keys l ([], [])) as [Hk He]. split.
      + intros k H. destruct (Hk k H) as [H'|H']; [discriminate H' | exact H'].
      + intros t H. destruct (He t H) as [[]|H']. exact H'.
    - split; [intros k H; discriminate H | intros t []]. }
  destruct merged as [enabled configs]. cbn [fst snd] in Hmerged.
  destruct Hmerged as [Hk He]. cbn [agentConfigs enabledAgents].
  split; [|split].
  - intros k. rewrite fillAgents_assoc.
    destruct (existsb (String.eqb k) ALL_AGENTS) eqn:E.
    + apply ALL_AGENTS_existsb in E. split; [auto|]. intros _.
      apply getDefaultAgentConfig_known in E as [c Hc].
      unfold filled. rewrite Hc.
      destruct (Js.assoc k configs) as [v|]; [destruct (Js.truthy v)|]; reflexivity.
    + split.
      * intros H. now apply Hk in H.
      * intros H. apply ALL_AGENTS_existsb in H. congruence.
  - exact He.
  - intros t Ht Hfile. split.
    + rewrite fillAgents_assoc. apply ALL_AGENTS_existsb in Ht. rewrite Ht.
      destruct (Js.assoc t configs) as [v|] eqn:Hv; [|reflexivity].
      exfalso. apply Hfile, (Hk t). now rewrite Hv.
    + intros H. apply Hfile, (He t H).
Qed.

Lemma enable_default (agentType : json) : enable defaultAgents agentType = defaultAgents.
Proof.
  unfold enable. destruct agentType as [| | |name| | |]; try reflexivity.
  destruct (existsb (String.eqb name) ALL_AGENTS) eqn:E; [|reflexivity].
  apply ALL_AGENTS_existsb in E.
  repeat (destruct E as [<-|E]; [reflexivity|]). destruct E.
Qed.

(** A file of the old format, which lists the enabled agents, is migrated
    to the default configuration whatever its list holds: every agent of
    the default configuration is enabled already. *)
Theorem tryReadLegacyConfig_old_format (parsed : json) (enabledAgents : list json) :
  parsed <> JNull ->
  isNewFormat parsed = false ->
  Js.get parsed "enabledAgents" = Some (JArr enabledAgents) ->
  tryReadLegacyConfig (Some parsed) = Some getDefaultSwarmConfig.
Proof.
  intros Hnull Hformat Hlist. unfold tryReadLegacyConfig.
  assert (Hfold : fold_left enable enabledAgents defaultAgents = defaultAgents).
  { induction enabledAgents as [|x l IH] in |- *; [reflexivity|].
    cbn [fold_left]. now rewrite enable_default. }
  destruct parsed; try contradiction; rewrite Hformat, Hlist, Hfold; reflexivity.
Qed.

Lemma tryReadLegacyConfig_not_null (file : option json) :
  tryReadLegacyConfig file <> Some JNull.
Proof.
  unfold tryReadLegacyConfig. destruct file as [parsed|]; [|discriminate].
  destruct parsed; try discriminate;
    (destruct (isNewFormat _); [discriminate|]);
    destruct (Js.get _ "enabledAgents") as [[]|]; discriminate.
Qed.

Lemma readConfig_reads (files : ConfigFiles) (config : json) :
  swarmConfig files = Some config -> config <> JNull ->
  readConfig files = (files, Some (readParsed config)).
Proof.
  intros Hfile Hnull. unfold readConfig. rewrite Hfile.
  destruct config; try reflexivity. contradiction.
Qed.

Lemma migrateLegacyConfig_file (files : ConfigFiles) :
  match migrateLegacyConfig files with
  | (files', Some config) => swarmConfig files' = Some config /\ config <> JNull
  | (files', None) => files' = files
  end.
Proof.
  unfold migrateLegacyConfig, Js.or_else.
  destruct (tryReadLegacyConfig (legacyConfig files)) as [c|] eqn:E1.
  - split; [reflexivity|]. intros ->. now apply tryReadLegacyConfig_not_null in E1.
  - destruct (tryReadLegacyConfig (swarmifyConfig files)) as [c|] eqn:E2; [|reflexivity].
    split; [reflexivity|]. intros ->. now apply tryReadLegacyConfig_not_null in E2.
Qed.

Lemma readConfig_file (files : ConfigFiles) :
  exists config, swarmConfig (fst (readConfig files)) = Some config /\ config <> JNull.
Proof.
  assert (Hcatch : forall (then_ : json -> option Config) (else_ : option Config),
             exists config,
               swarmConfig
                 (fst match migrateLegacyConfig files with
                      | (files', Some migratedConfig) => (files', then_ migratedConfig)
                      | (files', None) => (writeConfig files' getDefaultSwarmConfig, else_)
                      end) = Some config /\ config <> JNull).
  { intros then_ else_. pose proof (migrateLegacyConfig_file files) as H.
    destruct (migrateLegacyConfig files) as [files' [c|]].
    - exists c. exact H.
    - exists getDefaultSwarmConfig. split; [reflexivity | discriminate]. }
  unfold readConfig.
  destruct (swarmConfig files) as [c|] eqn:Hc; [|apply Hcatch].
  destruct c; try (eexists; split; [exact Hc | discriminate]).
  apply Hcatch.
Qed.

(** After a call of [readConfig], whatever the files were, the
    configuration file exists and holds a value other than [null]; so the
    next call reads that file, leaves the files alone and does not throw.
    When the first call found no file at all, the second one answers the
    agents, the enabled agents and the providers that the first one
    answered. *)
Theorem readConfig_leaves_a_readable_file (files : ConfigFiles) :
  (exists config,
      swarmConfig (fst (readConfig files)) = Some config /\
      config <> JNull /\
      readConfig (fst (readConfig files)) =
        (fst (readConfig files), Some (readParsed config))) /\
  (swarmConfig files = None -> legacyConfig files = None -> swarmifyConfig files = None ->
   exists first second,
     snd (readConfig files) = Some first /\
     snd (readConfig (fst (readConfig files))) = Some second /\
     hasConfig first = false /\ hasConfig second = true /\
     enabledAgents second = enabledAgents first /\
     agentConfigs second = agentConfigs first /\
     providerConfigs second = providerConfigs first).
Proof.
  split.
  - destruct (readConfig_file files) as [config [H1 H2]].
    exists config. split; [exact H1|]. split; [exact H2|]. now apply readConfig_reads.
  - intros H1 H2 H3. destruct files as [a b c]. cbn in H1, H2, H3. subst.
    eexists _, _. repeat split; vm_compute; reflexivity.
Qed.

End ConfigFacts.

Module InputFacts.
Import Posix Scenario Inputs Command.
#[local] Existing Instance runtime.

Lemma buildCommand_only_adds_flags_witness :
  exists cmd,
    buildCommand None codex "Test prompt" plan "gpt-5.3-codex" None = Ok cmd /\
    substitute (fullPromptOf codex "Test prompt" plan) codex_template `sublist_of` cmd /\
    includes "--model" cmd = true.
Proof.
  apply (buildCommand_only_adds_flags None codex "Test prompt" plan "gpt-5.3-codex"
           None codex_template).
  - vm_compute. reflexivity.
  - vm_compute. reflexivity.
  - vm_compute. reflexivity.
  - left. discriminate.
Defined.

Lemma buildCommand_claude_permissions_witness :
  exists cmd,
    buildCommand None claude "Test prompt" edit "claude-sonnet-4-6" None = Ok cmd /\
    exists i, indexOf "--permission-mode" cmd = Some i /\
              (cmd !! S i = Some "acceptEdits" \/ length cmd = S i).
Proof.
  apply (buildCommand_claude_permissions None "Test prompt" edit "claude-sonnet-4-6"
           None claude_template).
  - vm_compute. reflexivity.
  - vm_compute. reflexivity.
  - vm_compute. reflexivity.
Defined.

Lemma readNewEvents_reads_in_order_witness :
  lastReadPos (readNewEvents orphan_world orphan) =
    lastReadPos orphan + Z.min bufferLength (Str.len (unread orphan_world orphan)) /\
  unread orphan_world (readNewEvents orphan_world orphan) =
    Str.skip bufferLength (unread orphan_world orphan).
Proof.
  apply (readNewEvents_reads_in_order orphan_world orphan).
  vm_compute. discriminate.
Defined.

Lemma loadFromDisk_saveMeta_stable_witness :
  loadFromDisk (saveMeta orphan_world finished_reloaded) (agentId finished_reloaded) =
    Some finished_reloaded.
Proof.
  apply (loadFromDisk_saveMeta_stable quiet orphan_world finished finished_reloaded).
  vm_compute. reflexivity.
Defined.

Lemma spawn_failure_leaves_no_directory_witness :
  store (fst (fst (spawn (snd started) (fst started) "task-2" claude "Test prompt" None None
                         effort_default None None None))) !! "idem-test" =
    store (fst (fst (admission (snd started) (fst started)))) !! "idem-test" \/
  store (fst (fst (spawn (snd started) (fst started) "task-2" claude "Test prompt" None None
                         effort_default None None None))) !! "idem-test" = None.
Proof.
  apply (spawn_failure_leaves_no_directory (snd started) (fst started) "task-2" claude
           "Test prompt" None None effort_default None None None
           (CliNotAvailable "CLI tool 'claude' not found in PATH. Install it first.")).
  vm_compute. reflexivity.
Defined.


Lemma cleanupOldAgents_bounds_finished_records_witness :
  List.filter isRunning (AgentMap.values (agents (snd (cleanupOldAgents crowded quiet)))) =
    List.filter isRunning (AgentMap.values (agents (snd (fst (listCompleted crowded quiet))))) /\
  Z.of_nat (length (List.filter (fun a => negb (isRunning a))
                      (AgentMap.values (agents (snd (cleanupOldAgents crowded quiet)))))) =
    Z.min (maxAgents crowded)
          (Z.of_nat (length (List.filter (fun a => negb (isRunning a))
                               (AgentMap.values
                                  (agents (snd (fst (listCompleted crowded quiet)))))))).
Proof.
  apply (cleanupOldAgents_bounds_finished_records crowded quiet).
  - repeat constructor.
  - vm_compute. apply (bool_decide_unpack _). vm_compute. exact I.
  - vm_compute. discriminate.
Defined.

Lemma cleanupOldAgents_evicts_the_oldest_witness :
  isRunning older = false /\ completedTime older <= completedTime finished.
Proof.
  apply (cleanupOldAgents_evicts_the_oldest crowded quiet older finished).
  - repeat constructor.
  - vm_compute. apply (bool_decide_unpack _). vm_compute. exact I.
  - vm_compute. discriminate.
  - vm_compute. right. left. reflexivity.
  - vm_compute. intros [H|[]]. discriminate H.
  - vm_compute. left. reflexivity.
  - reflexivity.
Defined.

Lemma parseCliArgs_reads_task_witness :
  CliArgs.subcommand
    (CliArgs.parseCliArgs no_int ["node"; "cli.js"; "status"; "--task"; "mtime-task"]) =
    Some "status" /\
  CliArgs.taskName
    (CliArgs.parseCliArgs no_int ["node"; "cli.js"; "status"; "--task"; "mtime-task"]) =
    Some "mtime-task".
Proof.
  apply (CliFacts.parseCliArgs_reads_task no_int "node" "cli.js" "status" "mtime-task" []).
  - reflexivity.
  - constructor.
Defined.

Lemma getTaskAgents_reports_live_records_witness :
  info_task_name orphan_info = Some (JStr "mtime-task") /\
  exists k d m,
    store (saveMeta orphan_world orphan) !! k = Some d /\ meta d = Some m /\
    info_agent_id orphan_info = Js.get m "agent_id" /\
    (Js.is_string (info_status orphan_info) "running" = true ->
     Js.is_string (Js.get m "status") "running" = true /\
     Cli.pid_gone (saveMeta orphan_world orphan) (Js.get m "pid") = false).
Proof.
  apply (CliFacts.getTaskAgents_reports_live_records (saveMeta orphan_world orphan)
           "mtime-task" orphan_info).
  vm_compute. left. reflexivity.
Defined.

Lemma monitor_start_is_quiet_witness :
  snd (Monitor.tick no_date (Monitor.populate one_record) one_record) = [].
Proof.
  apply (MonitorFacts.monitor_start_is_quiet no_date one_record).
  vm_compute. apply (bool_decide_unpack _). vm_compute. exact I.
Defined.

Lemma monitor_notifies_once_witness :
  snd (Monitor.tick no_date (fst (Monitor.tick no_date seen_running one_record)) one_record) = [].
Proof.
  apply (MonitorFacts.monitor_notifies_once no_date seen_running one_record).
  vm_compute. apply (bool_decide_unpack _). vm_compute. exact I.
Defined.

Lemma monitor_notifies_transitions_witness :
  (exists p, seen_running !! Monitor.n_agent_id completion = Some p /\
             Monitor.is_running p = true) /\
  Monitor.is_running (Monitor.n_status completion) = false /\
  0 <= Monitor.n_duration_ms completion.
Proof.
  apply (MonitorFacts.monitor_notifies_transitions no_date seen_running one_record completion).
  - vm_compute. apply (bool_decide_unpack _). vm_compute. exact I.
  - vm_compute. left. reflexivity.
Defined.

Lemma isDangerousPath_on_posix_witness :
  Ralph.isDangerousPath "/home/user" "/" "/etc/nginx" =
    String.eqb (path_resolve "/etc/nginx") (path_resolve "/home/user") ||
    String.eqb (path_resolve "/etc/nginx") "/" ||
    existsb (fun d => String.eqb (path_resolve "/etc/nginx") d ||
                      String.prefix (d +:+ "/") (path_resolve "/etc/nginx"))
            Ralph.systemDirectories.
Proof.
  apply (RalphFacts.isDangerousPath_on_posix "/home/user" "/etc/nginx").
  - reflexivity.
  - repeat constructor.
  - reflexivity.
Defined.

Lemma tryReadLegacyConfig_old_format_witness :
  Persistence.tryReadLegacyConfig (Some old_format) = Some Persistence.getDefaultSwarmConfig.
Proof.
  apply (ConfigFacts.tryReadLegacyConfig_old_format old_format
           [JStr "claude"; JStr "copilot"]).
  - discriminate.
  - reflexivity.
  - reflexivity.
Defined.

Lemma saveMeta_leaves_the_rest_witness :
  loadFromDisk (saveMeta orphan_world finished) "agent-mtime" =
    loadFromDisk orphan_world "agent-mtime".
Proof.
  apply (proj2 (saveMeta_leaves_the_rest orphan_world finished) "agent-mtime").
  vm_compute. discriminate.
Defined.


Lemma readParsed_agents_witness :
  (In "claude" Persistence.ALL_AGENTS /\
   In "claude" (map fst (Persistence.entries
                           (default JNull (Js.get claude_only "agents"))))) /\
  (Js.assoc "codex" (Persistence.agentConfigs (Persistence.readParsed claude_only)) =
     option_map JObj (Persistence.getDefaultAgentConfig "codex") /\
   ~ In "codex" (Persistence.enabledAgents (Persistence.readParsed claude_only))).
Proof.
  split.
  - apply (proj1 (proj2 (ConfigFacts.readParsed_agents claude_only)) "claude").
    vm_compute. left. reflexivity.
  - apply (proj2 (proj2 (ConfigFacts.readParsed_agents claude_only)) "codex").
    + vm_compute. right. left. reflexivity.
    + vm_compute. intros [H|[]]. discriminate H.
Defined.

Lemma readConfig_leaves_a_readable_file_witness :
  exists first second,
    snd (Persistence.readConfig no_files) = Some first /\
    snd (Persistence.readConfig (fst (Persistence.readConfig no_files))) = Some second /\
    Persistence.hasConfig first = false /\ Persistence.hasConfig second = true /\
    Persistence.enabledAgents second = Persistence.enabledAgents first /\
    Persistence.agentConfigs second = Persistence.agentConfigs first /\
    Persistence.providerConfigs second = Persistence.providerConfigs first.
Proof.
  apply (proj2 (ConfigFacts.readConfig_leaves_a_readable_file no_files));
    reflexivity.
Defined.

End InputFacts.
